(** * A shallow embedding of the multimodal assistant's core

    The development follows the Python sources file by file:
    [config.py], [memory_subsystem.py], [camera_subsystem.py],
    [ocr_subsystem.py], [audio_subsystem.py] and the two processing steps
    of [main.py].  Python floats (timestamps, similarity scores,
    confidences) are idealised as rationals, so every comparison below is
    the exact one; readings of [time.time()] and draws of the random
    generator are explicit arguments of the functions that perform them;
    the recognisers behind the capability boundaries (structural
    similarity, text recognition, the voice detector, the speaker
    embedding, the transcriber) are arguments as well.  Text is a sequence
    of code points below 256. *)

From Stdlib Require Import ZArith QArith Lqa Lia List String Ascii Strings.Byte Bool.
From stdpp Require Import base list strings gmap pretty.

Local Open Scope string_scope.
Local Open Scope Z_scope.
Local Open Scope list_scope.

(** ** Text primitives: [str.lower], [str.strip], [str.endswith], [str.split] *)

Definition chars (s : string) : list ascii := list_ascii_of_string s.
Definition text_of (l : list ascii) : string := string_of_list_ascii l.

Definition code (c : ascii) : N := N_of_ascii c.

(** [str.isspace] on code points below 256. *)
Definition is_space (c : ascii) : bool :=
  let n := code c in
  ((9 <=? n) && (n <=? 13) || (28 <=? n) && (n <=? 32)
   || (n =? 133) || (n =? 160))%N.

(** [str.lower] on one code point below 256: A-Z and the accented capitals
    192..222 except the multiplication sign 215. *)
Definition char_lower (c : ascii) : ascii :=
  let n := code c in
  if ((65 <=? n) && (n <=? 90)
      || (192 <=? n) && (n <=? 222) && negb (n =? 215))%N
  then ascii_of_N (n + 32) else c.

Definition lower (s : list ascii) : list ascii := map char_lower s.

Fixpoint lstrip (s : list ascii) : list ascii :=
  match s with
  | [] => []
  | c :: s' => if is_space c then lstrip s' else s
  end.

Definition rstrip (s : list ascii) : list ascii := rev (lstrip (rev s)).

Definition strip (s : list ascii) : list ascii := rstrip (lstrip s).

Definition endswith (s suffix : list ascii) : bool :=
  bool_decide (drop (length s - length suffix) s = suffix).

(** [str.split()] without argument: maximal runs of non-blank code points. *)
Fixpoint split_go (cur : list ascii) (s : list ascii) : list (list ascii) :=
  match s with
  | [] => if cur is [] then [] else [rev cur]
  | c :: s' =>
      if is_space c
      then (if cur is [] then [] else [rev cur]) ++ split_go [] s'
      else split_go (c :: cur) s'
  end.

Definition split (s : list ascii) : list string := map text_of (split_go [] s).

(** ** Regular expressions, as far as [QUESTION_PATTERNS] uses them *)

Inductive regex : Type :=
| Lit (c : ascii)          (* one literal code point *)
| Cat (r1 r2 : regex)      (* concatenation *)
| Alt (r1 r2 : regex)      (* r1|r2 *)
| Eps                      (* the empty pattern *)
| Void                     (* the empty alternation *)
| Bol                      (* ^ *)
| Eol.                     (* $ *)

(** One literal against one code point, under [re.IGNORECASE] or not. *)
Definition lit_matches (ignorecase : bool) (c x : ascii) : bool :=
  if ignorecase then bool_decide (char_lower c = char_lower x)
  else bool_decide (c = x).

(** [$] without [re.MULTILINE]: the end of the text, or just before a
    newline that is the last code point. *)
Definition at_eol (s : list ascii) (i : nat) : bool :=
  bool_decide (i = length s)
  || bool_decide (S i = length s) && bool_decide (s !! i = Some "010"%char).

(** The positions at which a match of [r] that starts at [i] can end. *)
Fixpoint match_ends (ignorecase : bool) (r : regex) (s : list ascii) (i : nat)
  : list nat :=
  match r with
  | Lit c =>
      match s !! i with
      | Some x => if lit_matches ignorecase c x then [S i] else []
      | None => []
      end
  | Cat r1 r2 =>
      flat_map (match_ends ignorecase r2 s) (match_ends ignorecase r1 s i)
  | Alt r1 r2 => match_ends ignorecase r1 s i ++ match_ends ignorecase r2 s i
  | Eps => [i]
  | Void => []
  | Bol => if bool_decide (i = 0%nat) then [i] else []
  | Eol => if at_eol s i then [i] else []
  end.

Definition matches_at (ignorecase : bool) (r : regex) (s : list ascii) (i : nat)
  : bool :=
  if match_ends ignorecase r s i is [] then false else true.

(** [re.search(pattern, text, flags)] as a truth value. *)
Definition re_search (ignorecase : bool) (r : regex) (s : list ascii) : bool :=
  existsb (matches_at ignorecase r s) (seq 0 (S (length s))).

(** A literal word, and an alternation of literal words. *)
Definition word (w : string) : regex := foldr (fun c r => Cat (Lit c) r) Eps (chars w).
Definition one_of (ws : list string) : regex := foldr (fun w r => Alt (word w) r) Void ws.

(** ** config.py *)

Definition interrogative_openers : list string :=
  ["what"; "who"; "where"; "when"; "why"; "how"; "can"; "could"; "would";
   "is"; "are"; "do"; "does"].

Definition request_phrases : list string :=
  ["tell me"; "explain"; "show me"; "help"].

Record config : Type := {
  KEYFRAME_THRESHOLD : Q;
  SPEAKER_ID_THRESHOLD : Q;
  AUDIO_SAMPLE_RATE : Z;
  AUDIO_CHUNK_SIZE : Z;
  SUMMARY_INTERVAL_SECONDS : Q;
  MAX_MEMORY_CHUNKS : nat;
  QUESTION_PATTERNS : list regex
}.

Definition default_config : config := {|
  KEYFRAME_THRESHOLD := 85 # 100;
  SPEAKER_ID_THRESHOLD := 75 # 100;
  AUDIO_SAMPLE_RATE := 16000;
  AUDIO_CHUNK_SIZE := 1024;
  SUMMARY_INTERVAL_SECONDS := 180 # 1;
  MAX_MEMORY_CHUNKS := 100;
  QUESTION_PATTERNS :=
    [ Cat (Lit "?") Eol;                       (* \?$ *)
      Cat Bol (one_of interrogative_openers);  (* ^(what|who|...|does) *)
      one_of request_phrases ]                 (* (tell me|explain|show me|help) *)
|}.

(** ** Containers: [collections.deque(maxlen=...)] and list slices *)

(** [deque.append] on a bounded deque: the item goes to the right end, and
    when that makes the deque longer than [maxlen] one item leaves from the
    left end. *)
Definition deque_append {A : Type} (maxlen : nat) (d : list A) (x : A) : list A :=
  let d' := d ++ [x] in
  if (maxlen <? length d')%nat then drop 1 d' else d'.

(** [l[start:]] for an integer [start] of either sign. *)
Definition slice_from {A : Type} (start : Z) (l : list A) : list A :=
  if start <? 0
  then drop (Z.to_nat (Z.max 0 (Z.of_nat (length l) + start))) l
  else drop (Z.to_nat start) l.

(** [l[:stop]] for a non-negative [stop]. *)
Definition slice_to {A : Type} (stop : nat) (l : list A) : list A := take stop l.

(** ** memory_subsystem.py *)

(** The value of [summary] built by [create_summary]. *)
Record Summary : Type := {
  timeframe_start : Q;
  timeframe_end : Q;
  duration_seconds : Q;
  questions_asked : nat;
  keyframes_captured : nat;
  ocr_events : nat;
  questions : list string;
  detected_text : list string;
  summary_text : string
}.

(** The [content] dictionary of a chunk.  The constructor stands for the
    chunk's type tag, which the code always sets together with the keys of
    the dictionary. *)
Inductive Content : Type :=
| KeyframeContent (description ocr_text : string) (confidence : Q)
| QuestionContent (text : string) (confidence : Q)
| AnswerContent (text question : string)
| OcrContent (text : string) (confidence : Q) (word_count : Z)
| SummaryContent (summary : Summary).

Record MemoryChunk : Type := {
  content : Content;
  timestamp : Q
}.

Definition chunk_type (c : MemoryChunk) : string :=
  match content c with
  | KeyframeContent _ _ _ => "keyframe"
  | QuestionContent _ _ => "question"
  | AnswerContent _ _ => "answer"
  | OcrContent _ _ _ => "ocr"
  | SummaryContent _ => "summary"
  end.

(** Truth value of a Python float: every value but zero. *)
Definition truthy (t : Q) : bool := negb (Qnum t =? 0).

(** [MemoryChunk.__init__]: [timestamp or time.time()]; [now] is the reading
    of the clock, used when no timestamp (or a zero one) is passed. *)
Definition MemoryChunk_init (c : Content) (ts : option Q) (now : Q) : MemoryChunk :=
  {| content := c;
     timestamp := match ts with
                  | Some t => if truthy t then t else now
                  | None => now
                  end |}.

(** The dictionary made by [to_dict]. *)
Record ChunkDict : Type := {
  d_type : string;
  d_content : Content;
  d_timestamp : Q;
  d_time_str : string
}.

(** The arguments of the [add_*] methods; an optional field is a key read
    with [dict.get]. *)
Record FrameData : Type := {
  fd_ocr_text : option string;
  fd_confidence : option Q
}.

Record QuestionData : Type := {
  qd_text : string;
  qd_confidence : option Q
}.

Record AnswerData : Type := {
  ad_text : string;
  ad_question : option string
}.

Record OcrData : Type := {
  od_text : option string;
  od_confidence : option Q;
  od_word_count : option Z
}.

Record MemorySubsystem : Type := {
  memory_chunks : list MemoryChunk;
  summaries : list MemoryChunk;
  last_summary_time : Q;
  session_start_time : Q;
  total_interactions : Z
}.

(** The context package handed to the answer generator. *)
Record Context : Type := {
  session_duration : Q;
  ctx_total_interactions : Z;
  latest_summary : option ChunkDict;
  recent_events : list ChunkDict
}.

(** The persisted document; a key may be missing from a file that this
    program did not write. *)
Record Document : Type := {
  doc_session_start : option Q;
  doc_total_interactions : option Z;
  doc_memory_chunks : option (list ChunkDict);
  doc_summaries : option (list ChunkDict)
}.

(** What [open] and [json.load] find at the path, and how far the two loops
    of [load_from_file] get.  An entry that lacks a key makes [from_dict]
    raise while it is rebuilt; the entries read before it are already in the
    store by then. *)
Inductive FileContent : Type :=
| Missing                  (* FileNotFoundError *)
| Unreadable               (* any other exception before the store is touched *)
| Parsed (data : Document) (* every entry is a complete dictionary *)
| FailsInChunks (read : Document)
    (* an entry of [memory_chunks] raises; [doc_memory_chunks read] holds the
       entries before it *)
| FailsInSummaries (read : Document).
    (* [memory_chunks] is complete and an entry of [summaries] raises;
       [doc_summaries read] holds the entries before it *)

(** The four clock readings of one [create_summary], in evaluation order. *)
Record SummaryClock : Type := {
  t_end : Q;
  t_duration : Q;
  t_chunk : Q;
  t_reset : Q
}.

Section Memory.

Variable cfg : config.
(** [time.strftime('%Y-%m-%d %H:%M:%S', time.localtime(t))] *)
Variable strftime : Q -> string.

Definition to_dict (c : MemoryChunk) : ChunkDict :=
  {| d_type := chunk_type c;
     d_content := content c;
     d_timestamp := timestamp c;
     d_time_str := strftime (timestamp c) |}.

(** [from_dict]: [cls(data['type'], data['content'], data['timestamp'])].  The
    type tag travels with the content, whose constructor it is. *)
Definition from_dict (data : ChunkDict) (now : Q) : MemoryChunk :=
  MemoryChunk_init (d_content data) (Some (d_timestamp data)) now.

(** [MemorySubsystem.__init__]; the two readings of the clock. *)
Definition MemorySubsystem_init (now1 now2 : Q) : MemorySubsystem :=
  {| memory_chunks := [];
     summaries := [];
     last_summary_time := now1;
     session_start_time := now2;
     total_interactions := 0 |}.

Definition append_chunk (m : MemorySubsystem) (chunk : MemoryChunk) : MemorySubsystem :=
  {| memory_chunks := deque_append (MAX_MEMORY_CHUNKS cfg) (memory_chunks m) chunk;
     summaries := summaries m;
     last_summary_time := last_summary_time m;
     session_start_time := session_start_time m;
     total_interactions := total_interactions m |}.

Definition add_keyframe (m : MemorySubsystem) (frame_data : FrameData) (now : Q)
  : MemorySubsystem :=
  let chunk := MemoryChunk_init
    (KeyframeContent "Visual keyframe captured"
       (default EmptyString (fd_ocr_text frame_data))
       (default 0%Q (fd_confidence frame_data))) None now in
  append_chunk m chunk.

Definition add_question (m : MemorySubsystem) (question_data : QuestionData) (now : Q)
  : MemorySubsystem :=
  let chunk := MemoryChunk_init
    (QuestionContent (qd_text question_data)
       (default 1%Q (qd_confidence question_data))) None now in
  let m' := append_chunk m chunk in
  {| memory_chunks := memory_chunks m';
     summaries := summaries m';
     last_summary_time := last_summary_time m';
     session_start_time := session_start_time m';
     total_interactions := total_interactions m' + 1 |}.

Definition add_answer (m : MemorySubsystem) (answer_data : AnswerData) (now : Q)
  : MemorySubsystem :=
  let chunk := MemoryChunk_init
    (AnswerContent (ad_text answer_data)
       (default EmptyString (ad_question answer_data))) None now in
  append_chunk m chunk.

(** Truth value of [ocr_data.get('text')]: the key is there and the string
    is not empty. *)
Definition ocr_text_present (ocr_data : OcrData) : option string :=
  match od_text ocr_data with
  | Some EmptyString => None
  | Some t => Some t
  | None => None
  end.

Definition add_ocr_event (m : MemorySubsystem) (ocr_data : OcrData) (now : Q)
  : MemorySubsystem :=
  match ocr_text_present ocr_data with
  | Some t =>
      let chunk := MemoryChunk_init
        (OcrContent t
           (default 0%Q (od_confidence ocr_data))
           (default 0 (od_word_count ocr_data))) None now in
      append_chunk m chunk
  | None => m
  end.

Definition should_create_summary (m : MemorySubsystem) (now : Q) : bool :=
  let elapsed := (now - last_summary_time m)%Q in
  Qle_bool (SUMMARY_INTERVAL_SECONDS cfg) elapsed.

(** The loop of [create_summary] over the live buffer. *)
Definition recent_questions (l : list MemoryChunk) : list string :=
  omap (fun chunk => match content chunk with
                     | QuestionContent t _ => Some t
                     | _ => None
                     end) l.

Definition recent_ocr (l : list MemoryChunk) : list string :=
  omap (fun chunk => match content chunk with
                     | OcrContent t _ _ => Some t
                     | _ => None
                     end) l.

Definition recent_keyframes (l : list MemoryChunk) : nat :=
  length (filter (fun chunk => chunk_type chunk = "keyframe") l).

(** [set(texts)]; the order in which Python lists a set is not fixed, the
    order of [elements] stands for it. *)
Definition unique (texts : list string) : gset string := list_to_set texts.

Definition join (sep : string) (parts : list string) : string :=
  match parts with
  | [] => EmptyString
  | p :: ps => foldl (fun acc q => acc +:+ sep +:+ q) p ps
  end.

Definition _generate_summary_text (qs ocr_texts : list string) : string :=
  let parts1 :=
    if qs is [] then []
    else ["Received " +:+ pretty (length qs) +:+ " questions about code and errors"] in
  let parts2 :=
    if ocr_texts is [] then parts1
    else parts1 ++ ["Detected " +:+ pretty (size (unique ocr_texts))
                    +:+ " unique text segments on screen"] in
  let parts3 :=
    if parts2 is [] then ["Monitoring session with no significant activity"]
    else parts2 in
  join ". " parts3 +:+ ".".

Definition build_summary (m : MemorySubsystem) (clk : SummaryClock) : Summary :=
  let qs := recent_questions (memory_chunks m) in
  let ocr := recent_ocr (memory_chunks m) in
  {| timeframe_start := last_summary_time m;
     timeframe_end := t_end clk;
     duration_seconds := (t_duration clk - last_summary_time m)%Q;
     questions_asked := length qs;
     keyframes_captured := recent_keyframes (memory_chunks m);
     ocr_events := length ocr;
     questions := slice_from (-5) qs;
     detected_text := slice_to 3 (elements (unique ocr));
     summary_text := _generate_summary_text qs ocr |}.

(** [create_summary]: the returned dictionary ([None] for the empty [{}])
    and the state afterwards. *)
Definition create_summary (m : MemorySubsystem) (clk : SummaryClock)
  : option Summary * MemorySubsystem :=
  if memory_chunks m is [] then (None, m)
  else
    let summary := build_summary m clk in
    let summary_chunk := MemoryChunk_init (SummaryContent summary) None (t_chunk clk) in
    (Some summary,
     {| memory_chunks := memory_chunks m;
        summaries := summaries m ++ [summary_chunk];
        last_summary_time := t_reset clk;
        session_start_time := session_start_time m;
        total_interactions := total_interactions m |}).

Definition get_recent_context (m : MemorySubsystem) (max_chunks : Z) : list ChunkDict :=
  let recent := slice_from (- max_chunks) (memory_chunks m) in
  map to_dict recent.

Definition get_latest_summary (m : MemorySubsystem) : option ChunkDict :=
  if summaries m is [] then None
  else to_dict <$> last (summaries m).

Definition get_context_for_llm (m : MemorySubsystem) (now : Q) : Context :=
  {| session_duration := (now - session_start_time m)%Q;
     ctx_total_interactions := total_interactions m;
     latest_summary := get_latest_summary m;
     recent_events := get_recent_context m 5 |}.

(** The document that [save_to_file] hands to [json.dump]. *)
Definition save_to_file (m : MemorySubsystem) : Document :=
  {| doc_session_start := Some (session_start_time m);
     doc_total_interactions := Some (total_interactions m);
     doc_memory_chunks := Some (map to_dict (memory_chunks m));
     doc_summaries := Some (map to_dict (summaries m)) |}.

(** The two loops of [load_from_file]; [now_at i] is the reading of the clock
    while entry [i] is rebuilt. *)
Fixpoint load_chunks (now_at : nat -> Q) (i : nat) (acc : list MemoryChunk)
    (entries : list ChunkDict) : list MemoryChunk :=
  match entries with
  | [] => acc
  | chunk_data :: rest =>
      load_chunks now_at (S i)
        (deque_append (MAX_MEMORY_CHUNKS cfg) acc (from_dict chunk_data (now_at i)))
        rest
  end.

Fixpoint load_summaries (now_at : nat -> Q) (i : nat) (acc : list MemoryChunk)
    (entries : list ChunkDict) : list MemoryChunk :=
  match entries with
  | [] => acc
  | summary_data :: rest =>
      load_summaries now_at (S i) (acc ++ [from_dict summary_data (now_at i)]) rest
  end.

(** [load_from_file]: whether it succeeded, and the state afterwards.  The
    session start and the interaction count are overwritten and the buffer
    is cleared before the first entry is rebuilt, and [summaries] is cleared
    only after the last entry of [memory_chunks]: an exception raised by an
    entry is caught like any other, the method returns [False], and what was
    assigned until then stays. *)
Definition load_from_file (m : MemorySubsystem) (file : FileContent)
    (now : Q) (now_at : nat -> Q) : bool * MemorySubsystem :=
  match file with
  | Missing => (false, m)
  | Unreadable => (false, m)
  | Parsed data =>
      let entries := default [] (doc_memory_chunks data) in
      (true,
       {| memory_chunks := load_chunks now_at 0 [] entries;
          summaries := load_summaries now_at (length entries) []
                         (default [] (doc_summaries data));
          last_summary_time := last_summary_time m;
          session_start_time := default now (doc_session_start data);
          total_interactions := default 0 (doc_total_interactions data) |})
  | FailsInChunks read =>
      (false,
       {| memory_chunks := load_chunks now_at 0 []
                             (default [] (doc_memory_chunks read));
          summaries := summaries m;
          last_summary_time := last_summary_time m;
          session_start_time := default now (doc_session_start read);
          total_interactions := default 0 (doc_total_interactions read) |})
  | FailsInSummaries read =>
      let entries := default [] (doc_memory_chunks read) in
      (false,
       {| memory_chunks := load_chunks now_at 0 [] entries;
          summaries := load_summaries now_at (length entries) []
                         (default [] (doc_summaries read));
          last_summary_time := last_summary_time m;
          session_start_time := default now (doc_session_start read);
          total_interactions := default 0 (doc_total_interactions read) |})
  end.

Definition clear (m : MemorySubsystem) (now : Q) : MemorySubsystem :=
  {| memory_chunks := [];
     summaries := [];
     last_summary_time := now;
     session_start_time := session_start_time m;
     total_interactions := 0 |}.

End Memory.

(** ** Comparisons of scores *)

(** [x < y] on scores, as a truth value. *)
Definition Qltb (x y : Q) : bool :=
  match (x ?= y)%Q with
  | Lt => true
  | _ => false
  end.

(** ** camera_subsystem.py *)

Record CameraSubsystem (Frame : Type) : Type := {
  previous_frame : option Frame;
  frame_count : nat;
  keyframe_count : nat;
  last_keyframe_time : Q
}.
Arguments previous_frame {Frame} _.
Arguments frame_count {Frame} _.
Arguments keyframe_count {Frame} _.
Arguments last_keyframe_time {Frame} _.

Section Camera.

Variable cfg : config.
Variable Frame : Type.
(** [ssim(gray_current, gray_previous)], the grey conversion and the resize
    of the reference included: first argument the current frame, second the
    reference. *)
Variable similarity : Frame -> Frame -> Q.

Definition CameraSubsystem_init : CameraSubsystem Frame :=
  {| previous_frame := None;
     frame_count := 0;
     keyframe_count := 0;
     last_keyframe_time := 0%Q |}.

(** [capture_frame]; [captured] is what the device delivers, if anything. *)
Definition capture_frame (cam : CameraSubsystem Frame) (captured : option Frame)
  : option Frame * CameraSubsystem Frame :=
  match captured with
  | None => (None, cam)
  | Some frame =>
      (Some frame,
       {| previous_frame := previous_frame cam;
          frame_count := S (frame_count cam);
          keyframe_count := keyframe_count cam;
          last_keyframe_time := last_keyframe_time cam |})
  end.

Definition is_keyframe (cam : CameraSubsystem Frame) (current_frame : Frame) (now : Q)
  : (bool * Q) * CameraSubsystem Frame :=
  match previous_frame cam with
  | None =>
      ((true, 0%Q),
       {| previous_frame := Some current_frame;
          frame_count := frame_count cam;
          keyframe_count := S (keyframe_count cam);
          last_keyframe_time := now |})
  | Some previous =>
      let sim := similarity current_frame previous in
      let is_kf := Qltb sim (KEYFRAME_THRESHOLD cfg) in
      ((is_kf, sim),
       if is_kf
       then {| previous_frame := Some current_frame;
               frame_count := frame_count cam;
               keyframe_count := S (keyframe_count cam);
               last_keyframe_time := now |}
       else cam)
  end.

Definition get_frame_with_keyframe_detection (cam : CameraSubsystem Frame)
    (captured : option Frame) (now : Q)
  : option (Frame * bool) * CameraSubsystem Frame :=
  match capture_frame cam captured with
  | (None, cam') => (None, cam')
  | (Some frame, cam') =>
      let '((is_kf, _), cam'') := is_keyframe cam' frame now in
      (Some (frame, is_kf), cam'')
  end.

(** The gate run over a sequence of frames, from a given state; the verdicts
    in order and the final state. *)
Fixpoint evaluate_all (cam : CameraSubsystem Frame) (frames : list (Frame * Q))
  : list bool * CameraSubsystem Frame :=
  match frames with
  | [] => ([], cam)
  | (frame, now) :: rest =>
      let '((is_kf, _), cam') := is_keyframe cam frame now in
      let '(verdicts, cam'') := evaluate_all cam' rest in
      (is_kf :: verdicts, cam'')
  end.

End Camera.

(** ** ocr_subsystem.py *)

Record OCRSubsystem : Type := {
  previous_text : string;
  text_changes : nat
}.

(** The dictionary returned by [extract_text]. *)
Record OcrResult : Type := {
  or_text : string;
  or_confidence : Q;
  or_changed : bool;
  or_word_count : Z
}.

Definition OCRSubsystem_init : OCRSubsystem :=
  {| previous_text := EmptyString; text_changes := 0 |}.

(** [set(text.split())] *)
Definition tokens (t : string) : gset string := list_to_set (split (chars t)).

(** [len(set(new.split()) & set(previous.split())) / max(len(set(new.split())), 1)] *)
Definition token_overlap (new_text previous : string) : Q :=
  Z.of_nat (size (tokens new_text ∩ tokens previous))
  # Pos.of_nat (Nat.max (size (tokens new_text)) 1).

Definition _text_changed (ocr : OCRSubsystem) (new_text : string)
  : bool * OCRSubsystem :=
  if previous_text ocr is EmptyString
  then (negb (bool_decide (strip (chars new_text) = [])),
        {| previous_text := new_text; text_changes := text_changes ocr |})
  else
    let sim := token_overlap new_text (previous_text ocr) in
    let changed := Qltb sim (7 # 10) in
    (changed,
     if changed
     then {| previous_text := new_text; text_changes := S (text_changes ocr) |}
     else ocr).

Section OCR.

Variable Frame : Type.
(** The recogniser in use with its fall-backs: the text it extracts from a
    frame and the average confidence. *)
Variable recognize : Frame -> string * Q.

Definition extract_text (ocr : OCRSubsystem) (frame : Frame)
  : OcrResult * OCRSubsystem :=
  let '(extracted_text, avg_confidence) := recognize frame in
  let '(changed, ocr') := _text_changed ocr extracted_text in
  ({| or_text := extracted_text;
      or_confidence := avg_confidence;
      or_changed := changed;
      or_word_count := Z.of_nat (length (split (chars extracted_text))) |},
   ocr').

End OCR.

(** ** audio_subsystem.py *)

(** The result of a call that may raise. *)
Inductive outcome (A : Type) : Type :=
| Returns (a : A)
| Raises.
Arguments Returns {A} a.
Arguments Raises {A}.

(** [webrtcvad.Vad.is_speech(frame, sample_rate)]; [None] when it raises. *)
Definition Vad : Type := list byte -> Z -> option bool.

Record AudioSubsystem : Type := {
  vad : option Vad;
  user_voiceprint : option (list Q);
  is_recording : bool;
  speech_count : Z;
  non_user_speech_count : Z
}.

(** The dictionary returned by [transcribe_speech]. *)
Record Transcription : Type := {
  tr_text : string;
  tr_is_question : bool;
  tr_confidence : Q;
  tr_timestamp : Q
}.

(** What one pass of the pipeline takes from outside: the device, the random
    generator and the clock. *)
Record AudioInputs : Type := {
  mock_chunk : list byte;             (* np.random.randint(...).tobytes() *)
  stream_read : option (list byte);   (* stream.read(...); None when it raises *)
  vad_draw : Q;                       (* np.random.random() *)
  embedding : list Q;                 (* extract_speaker_embedding *)
  transcript_choice : nat;            (* np.random.choice *)
  transcript_confidence : Q;          (* np.random.uniform(0.85, 0.98) *)
  transcript_time : Q                 (* time.time() *)
}.

(** The stages of the pipeline that were entered, for the order of calls. *)
Inductive Stage : Type :=
| CaptureStage
| VoiceActivityStage
| SpeakerStage
| TranscribeStage.

(** [np.frombuffer(chunk, dtype=np.int16)], little-endian; raises on an odd
    number of bytes. *)
Definition int16_of_bytes (lo hi : byte) : Z :=
  let u := Z.of_N (Byte.to_N lo) + 256 * Z.of_N (Byte.to_N hi) in
  if u <? 32768 then u else u - 65536.

Fixpoint frombuffer_int16 (chunk : list byte) : outcome (list Z) :=
  match chunk with
  | [] => Returns []
  | [_] => Raises
  | lo :: hi :: rest =>
      match frombuffer_int16 rest with
      | Returns arr => Returns (int16_of_bytes lo hi :: arr)
      | Raises => Raises
      end
  end.

(** [np.mean(arr.astype(float) ** 2)]; [None] is the not-a-number that numpy
    gives for an empty array. *)
Definition sum_squares (arr : list Z) : Z := foldr (fun x acc => x * x + acc) 0 arr.

Definition mean_square (arr : list Z) : option Q :=
  if arr is [] then None
  else Some (sum_squares arr # Pos.of_nat (length arr)).

(** [np.sqrt(mean_square) > threshold], for a threshold that is not negative:
    the root exceeds the threshold exactly when the mean square exceeds its
    square; a comparison with not-a-number is false. *)
Definition energy_exceeds (arr : list Z) (threshold : Z) : bool :=
  match mean_square arr with
  | None => false
  | Some m => Qltb (inject_Z (threshold * threshold)) m
  end.

(** [np.dot] of two vectors; raises when the lengths differ. *)
Fixpoint dot (a b : list Q) : outcome Q :=
  match a, b with
  | [], [] => Returns 0%Q
  | x :: a', y :: b' =>
      match dot a' b' with
      | Returns r => Returns (x * y + r)%Q
      | Raises => Raises
      end
  | _, _ => Raises
  end.

Definition mock_transcriptions : list string :=
  ["What does this function do?";
   "Can you explain this error message?";
   "How do I fix this bug?";
   "Why is this not working?";
   "Show me how to use this API";
   "What's the purpose of this code?";
   "This looks good";
   "I see what you mean";
   "That makes sense now"].

Section Audio.

Variable cfg : config.
(** The flag set when [pyaudio] and [webrtcvad] were imported. *)
Variable AUDIO_AVAILABLE : bool.

Definition AudioSubsystem_init (detector : option Vad) : AudioSubsystem :=
  {| vad := if AUDIO_AVAILABLE then detector else None;
     user_voiceprint := None;
     is_recording := false;
     speech_count := 0;
     non_user_speech_count := 0 |}.

(** [load_user_voiceprint]: the stored file, or else a random vector. *)
Definition load_user_voiceprint (a : AudioSubsystem) (loaded : option (list Q))
    (random_voiceprint : list Q) : AudioSubsystem :=
  {| vad := vad a;
     user_voiceprint := Some (default random_voiceprint loaded);
     is_recording := is_recording a;
     speech_count := speech_count a;
     non_user_speech_count := non_user_speech_count a |}.

Definition capture_audio_chunk (a : AudioSubsystem) (inp : AudioInputs)
  : option (list byte) :=
  if negb (is_recording a) then None
  else if negb AUDIO_AVAILABLE then Some (mock_chunk inp)
  else stream_read inp.

Definition detect_voice_activity (a : AudioSubsystem) (inp : AudioInputs)
    (audio_chunk : list byte) : outcome bool * AudioSubsystem :=
  match (if AUDIO_AVAILABLE then vad a else None) with
  | None => (Returns (Qltb (vad_draw inp) (2 # 10)), a)
  | Some detector =>
      let frame_duration := 30 in
      let sample_count := AUDIO_SAMPLE_RATE cfg * frame_duration / 1000 in
      if Z.of_nat (length audio_chunk) <? sample_count * 2
      then (Returns false, a)
      else
        let frame := take (Z.to_nat (sample_count * 2)) audio_chunk in
        match detector frame (AUDIO_SAMPLE_RATE cfg) with
        | Some is_speech =>
            (Returns is_speech,
             if is_speech
             then {| vad := vad a;
                     user_voiceprint := user_voiceprint a;
                     is_recording := is_recording a;
                     speech_count := speech_count a + 1;
                     non_user_speech_count := non_user_speech_count a |}
             else a)
        | None =>
            match frombuffer_int16 audio_chunk with
            | Returns audio_array => (Returns (energy_exceeds audio_array 500), a)
            | Raises => (Raises, a)
            end
        end
  end.

Definition is_user_speaking (a : AudioSubsystem) (inp : AudioInputs)
  : outcome bool * AudioSubsystem :=
  match user_voiceprint a with
  | None => (Returns false, a)
  | Some voiceprint =>
      let current_embedding := embedding inp in
      match dot current_embedding voiceprint with
      | Raises => (Raises, a)
      | Returns sim =>
          let is_user := Qltb (SPEAKER_ID_THRESHOLD cfg) sim in
          (Returns is_user,
           if is_user then a
           else {| vad := vad a;
                   user_voiceprint := user_voiceprint a;
                   is_recording := is_recording a;
                   speech_count := speech_count a;
                   non_user_speech_count := non_user_speech_count a + 1 |})
      end
  end.

Definition _is_question (text : string) : bool :=
  let text_lower := strip (lower (chars text)) in
  if endswith text_lower (chars "?") then true
  else existsb (fun pattern => re_search true pattern text_lower)
         (QUESTION_PATTERNS cfg).

Definition transcribe_speech (inp : AudioInputs) : Transcription :=
  let text := default EmptyString
    (mock_transcriptions !! (transcript_choice inp `mod` length mock_transcriptions)%nat) in
  {| tr_text := text;
     tr_is_question := _is_question text;
     tr_confidence := transcript_confidence inp;
     tr_timestamp := transcript_time inp |}.

(** [process_audio_stream]: the stages entered, the value returned (or the
    exception) and the state afterwards. *)
Definition process_audio_stream (a : AudioSubsystem) (inp : AudioInputs)
  : list Stage * outcome (option Transcription) * AudioSubsystem :=
  match capture_audio_chunk a inp with
  | None => ([CaptureStage], Returns None, a)
  | Some audio_chunk =>
      match detect_voice_activity a inp audio_chunk with
      | (Raises, a1) => ([CaptureStage; VoiceActivityStage], Raises, a1)
      | (Returns false, a1) => ([CaptureStage; VoiceActivityStage], Returns None, a1)
      | (Returns true, a1) =>
          match is_user_speaking a1 inp with
          | (Raises, a2) =>
              ([CaptureStage; VoiceActivityStage; SpeakerStage], Raises, a2)
          | (Returns true, a2) =>
              ([CaptureStage; VoiceActivityStage; SpeakerStage], Returns None, a2)
          | (Returns false, a2) =>
              let transcription := transcribe_speech inp in
              ([CaptureStage; VoiceActivityStage; SpeakerStage; TranscribeStage],
               Returns (if tr_is_question transcription
                        then Some transcription else None),
               a2)
          end
      end
  end.

End Audio.

(** ** main.py: the visual step of the orchestrator *)

Record MultimodalAssistant (Frame : Type) : Type := {
  camera : CameraSubsystem Frame;
  ocr : OCRSubsystem;
  memory : MemorySubsystem;
  current_keyframe : option Frame;
  current_ocr_text : string
}.
Arguments camera {Frame} _.
Arguments ocr {Frame} _.
Arguments memory {Frame} _.
Arguments current_keyframe {Frame} _.
Arguments current_ocr_text {Frame} _.

(** The clock readings of one [process_camera_frame]. *)
Record FrameClock : Type := {
  t_keyframe : Q;        (* is_keyframe *)
  t_ocr_chunk : Q;       (* the chunk made by add_ocr_event *)
  t_keyframe_chunk : Q   (* the chunk made by add_keyframe *)
}.

Section Orchestrator.

Variable cfg : config.
Variable Frame : Type.
Variable similarity : Frame -> Frame -> Q.
Variable recognize : Frame -> string * Q.

Definition process_camera_frame (s : MultimodalAssistant Frame)
    (captured : option Frame) (clk : FrameClock)
  : (option Frame * bool) * MultimodalAssistant Frame :=
  match get_frame_with_keyframe_detection cfg Frame similarity
          (camera s) captured (t_keyframe clk) with
  | (None, cam') =>
      ((None, false),
       {| camera := cam'; ocr := ocr s; memory := memory s;
          current_keyframe := current_keyframe s;
          current_ocr_text := current_ocr_text s |})
  | (Some (frame, false), cam') =>
      ((Some frame, false),
       {| camera := cam'; ocr := ocr s; memory := memory s;
          current_keyframe := current_keyframe s;
          current_ocr_text := current_ocr_text s |})
  | (Some (frame, true), cam') =>
      let '(ocr_result, ocr') := extract_text Frame recognize (ocr s) frame in
      if or_changed ocr_result
      then
        let m1 := add_ocr_event cfg (memory s)
                    {| od_text := Some (or_text ocr_result);
                       od_confidence := Some (or_confidence ocr_result);
                       od_word_count := Some (or_word_count ocr_result) |}
                    (t_ocr_chunk clk) in
        let m2 := add_keyframe cfg m1
                    {| fd_ocr_text := Some (or_text ocr_result);
                       fd_confidence := Some (or_confidence ocr_result) |}
                    (t_keyframe_chunk clk) in
        ((Some frame, true),
         {| camera := cam'; ocr := ocr'; memory := m2;
            current_keyframe := Some frame;
            current_ocr_text := or_text ocr_result |})
      else
        ((Some frame, true),
         {| camera := cam'; ocr := ocr'; memory := memory s;
            current_keyframe := Some frame;
            current_ocr_text := current_ocr_text s |})
  end.

End Orchestrator.

(** ** Runs of the memory store *)

(** One call of a method of [MemorySubsystem] that can change the store. *)
Inductive Operation : Type :=
| AddKeyframe (frame_data : FrameData) (now : Q)
| AddQuestion (question_data : QuestionData) (now : Q)
| AddAnswer (answer_data : AnswerData) (now : Q)
| AddOcrEvent (ocr_data : OcrData) (now : Q)
| CreateSummary (clk : SummaryClock)
| LoadFromFile (file : FileContent) (now : Q) (now_at : nat -> Q)
| Clear (now : Q).

Definition run_operation (cfg : config) (m : MemorySubsystem) (op : Operation)
  : MemorySubsystem :=
  match op with
  | AddKeyframe frame_data now => add_keyframe cfg m frame_data now
  | AddQuestion question_data now => add_question cfg m question_data now
  | AddAnswer answer_data now => add_answer cfg m answer_data now
  | AddOcrEvent ocr_data now => add_ocr_event cfg m ocr_data now
  | CreateSummary clk => (create_summary m clk).2
  | LoadFromFile file now now_at => (load_from_file cfg m file now now_at).2
  | Clear now => clear m now
  end.

Definition run_operations (cfg : config) (m : MemorySubsystem) (ops : list Operation)
  : MemorySubsystem :=
  foldl (run_operation cfg) m ops.

(** The chunk that an operation hands to [memory_chunks.append], if it
    appends one. *)
Definition appended_chunk (op : Operation) : option MemoryChunk :=
  match op with
  | AddKeyframe frame_data now =>
      Some (MemoryChunk_init
              (KeyframeContent "Visual keyframe captured"
                 (default EmptyString (fd_ocr_text frame_data))
                 (default 0%Q (fd_confidence frame_data))) None now)
  | AddQuestion question_data now =>
      Some (MemoryChunk_init
              (QuestionContent (qd_text question_data)
                 (default 1%Q (qd_confidence question_data))) None now)
  | AddAnswer answer_data now =>
      Some (MemoryChunk_init
              (AnswerContent (ad_text answer_data)
                 (default EmptyString (ad_question answer_data))) None now)
  | AddOcrEvent ocr_data now =>
      match ocr_text_present ocr_data with
      | Some t =>
          Some (MemoryChunk_init
                  (OcrContent t (default 0%Q (od_confidence ocr_data))
                     (default 0 (od_word_count ocr_data))) None now)
      | None => None
      end
  | CreateSummary _ | LoadFromFile _ _ _ | Clear _ => None
  end.

(** The capacity invariant of the store. *)
Definition within_capacity (cfg : config) (m : MemorySubsystem) : Prop :=
  (length (memory_chunks m) <= MAX_MEMORY_CHUNKS cfg)%nat.

(** Every clock reading that an operation stamps on a chunk is a time after
    the epoch, hence not zero. *)
Definition clock_nonzero (op : Operation) : Prop :=
  match op with
  | AddKeyframe _ now | AddQuestion _ now | AddAnswer _ now | AddOcrEvent _ now =>
      truthy now = true
  | CreateSummary clk => truthy (t_chunk clk) = true
  | LoadFromFile _ _ now_at => forall i, truthy (now_at i) = true
  | Clear _ => True
  end.

(** All chunks of the store carry a timestamp that is not zero. *)
Definition stamped (m : MemorySubsystem) : Prop :=
  Forall (fun c => truthy (timestamp c) = true) (memory_chunks m)
  /\ Forall (fun c => truthy (timestamp c) = true) (summaries m).

(** ** The speaker filter as the specification words it *)

(** The square of the length of a vector. *)
Definition norm_squared (v : list Q) : Q :=
  foldr (fun x acc => (x * x + acc)%Q) 0%Q v.

(** A vector of unit length: a normalized embedding. *)
Definition unit_length (v : list Q) : Prop := (norm_squared v == 1)%Q.

(** [c] is the cosine similarity of [a] and [b], their inner product
    divided by the product of their lengths.  Without square roots: [c] has
    the sign of the inner product, and its square times the squared lengths
    is the square of the inner product. *)
Definition cosine_similarity (a b : list Q) (c : Q) : Prop :=
  exists d,
    dot a b = Returns d
    /\ (0 < norm_squared a * norm_squared b)%Q
    /\ (0 <= c * d)%Q
    /\ (c * c * (norm_squared a * norm_squared b) == d * d)%Q.

(** ** The question classifier as the specification words it *)

(** [w] occurs in [t] as a contiguous run. *)
Definition infix_of (w t : list ascii) : Prop :=
  exists pre post, t = pre ++ w ++ post.

(** The transcript itself ends with the question mark, or one of the
    configured patterns, taken case-insensitively, is found in it. *)
Definition stated_is_question (cfg : config) (text : string) : bool :=
  endswith (chars text) (chars "?")
  || existsb (fun pattern => re_search true pattern (chars text))
       (QUESTION_PATTERNS cfg).

(** ** Sample values for the worked examples *)

Definition set_speaker_threshold (t : Q) (cfg : config) : config :=
  {| KEYFRAME_THRESHOLD := KEYFRAME_THRESHOLD cfg;
     SPEAKER_ID_THRESHOLD := t;
     AUDIO_SAMPLE_RATE := AUDIO_SAMPLE_RATE cfg;
     AUDIO_CHUNK_SIZE := AUDIO_CHUNK_SIZE cfg;
     SUMMARY_INTERVAL_SECONDS := SUMMARY_INTERVAL_SECONDS cfg;
     MAX_MEMORY_CHUNKS := MAX_MEMORY_CHUNKS cfg;
     QUESTION_PATTERNS := QUESTION_PATTERNS cfg |}.

(** A unit vector and one orthogonal to it. *)
Definition unit_voiceprint : list Q := [1; 0]%Q.
Definition orthogonal_embedding : list Q := [0; 1]%Q.

(** A voiceprint of length one half, in the direction of [unit_voiceprint]. *)
Definition short_voiceprint : list Q := [1 # 2; 0]%Q.

(** 30 ms of a square wave of amplitude 1000 (bytes e8 03 = 1000, 18 fc =
    -1000), and 30 ms of silence. *)
Definition loud_chunk : list byte := concat (replicate 240 [xe8; x03; x18; xfc]).
Definition silent_chunk : list byte := replicate 960 x00.

(** A recording subsystem without a voice detector, with the given
    voiceprint. *)
Definition listening (voiceprint : option (list Q)) : AudioSubsystem :=
  {| vad := None;
     user_voiceprint := voiceprint;
     is_recording := true;
     speech_count := 0;
     non_user_speech_count := 0 |}.

(** A recording subsystem whose detector raises on every frame. *)
Definition failing_detector : Vad := fun _ _ => None.

Definition listening_with (detector : Vad) : AudioSubsystem :=
  {| vad := Some detector;
     user_voiceprint := None;
     is_recording := true;
     speech_count := 0;
     non_user_speech_count := 0 |}.

(** One pass of the audio pipeline: the chunk delivered, the draw of the
    mock detector and the speaker embedding; the transcriber picks "What
    does this function do?". *)
Definition heard (chunk : list byte) (draw : Q) (emb : list Q) : AudioInputs :=
  {| mock_chunk := chunk;
     stream_read := Some chunk;
     vad_draw := draw;
     embedding := emb;
     transcript_choice := 0;
     transcript_confidence := 9 # 10;
     transcript_time := 1000 # 1 |}.

(** [MultimodalAssistant.__init__], as far as the visual step goes. *)
Definition MultimodalAssistant_init (Frame : Type) (now1 now2 : Q)
  : MultimodalAssistant Frame :=
  {| camera := CameraSubsystem_init Frame;
     ocr := OCRSubsystem_init;
     memory := MemorySubsystem_init now1 now2;
     current_keyframe := None;
     current_ocr_text := EmptyString |}.

(** The chunks that the visual step hands to the store. *)
Definition ocr_chunk_of (res : OcrResult) (now : Q) : MemoryChunk :=
  MemoryChunk_init
    (OcrContent (or_text res) (or_confidence res) (or_word_count res)) None now.

Definition keyframe_chunk_of (res : OcrResult) (now : Q) : MemoryChunk :=
  MemoryChunk_init
    (KeyframeContent "Visual keyframe captured" (or_text res) (or_confidence res))
    None now.

(** Frames named by numbers, alike only when equal; a recogniser that reads
    the same line on every frame; one clock reading for a whole step. *)
Definition same_frame_similarity (a b : nat) : Q :=
  if (a =? b)%nat then 1%Q else 0%Q.

Definition reads_hello (frame : nat) : string * Q := ("hello world", 95 # 100).

Definition frame_clock (t : Q) : FrameClock :=
  {| t_keyframe := t; t_ocr_chunk := t; t_keyframe_chunk := t |}.

(** Answers recorded at the times 1, 2, ..., n, and the chunks they make. *)
Definition answer_at (i : nat) : Operation :=
  AddAnswer {| ad_text := "It adds two numbers";
               ad_question := Some "What does this do?" |}
    (inject_Z (Z.of_nat i)).

Definition numbered_answer (i : nat) : MemoryChunk :=
  {| content := AnswerContent "It adds two numbers" "What does this do?";
     timestamp := inject_Z (Z.of_nat i) |}.

Definition answers (n : nat) : list Operation := map answer_at (seq 1 n).

Definition numbered_answers (n : nat) : list MemoryChunk :=
  map numbered_answer (seq 1 n).

(** A store that holds one question, asked at time 1001. *)
Definition store_with_question : MemorySubsystem :=
  add_question default_config (MemorySubsystem_init (1000 # 1) (1000 # 1))
    {| qd_text := "What does this do?"; qd_confidence := Some (95 # 100) |}
    (1001 # 1).

(** One reading of the clock for a whole [create_summary]. *)
Definition summary_clock (t : Q) : SummaryClock :=
  {| t_end := t; t_duration := t; t_chunk := t; t_reset := t |}.

(** A camera whose reference is frame 1. *)
Definition camera_at_frame_1 : CameraSubsystem nat :=
  {| previous_frame := Some 1%nat;
     frame_count := 1;
     keyframe_count := 1;
     last_keyframe_time := 1000 # 1 |}.

(** A word of a pattern that is lowered already and neither begins nor ends
    with a blank. *)
Definition solid_word (w : string) : Prop :=
  lower (chars w) = chars w
  /\ exists c1 c2, head (chars w) = Some c1 /\ last (chars w) = Some c2
                   /\ is_space c1 = false /\ is_space c2 = false.

(** * The rest of the subsystems *)

(** ** config.py: constants read by the functions below *)

Definition OCR_CONFIDENCE_THRESHOLD : Q := 5 # 10.
Definition LLM_MODEL : string := "gpt-5".

(** ** memory_subsystem.py: statistics *)

(** The dictionary returned by [MemorySubsystem.get_stats]. *)
Record MemoryStats : Type := {
  ms_session_duration : Q;
  ms_total_interactions : Z;
  ms_memory_chunks_stored : nat;
  ms_summaries_created : nat;
  ms_time_since_last_summary : Q
}.

(** [get_stats]; the two readings of the clock. *)
Definition MemorySubsystem_get_stats (m : MemorySubsystem) (now1 now2 : Q)
  : MemoryStats :=
  {| ms_session_duration := (now1 - session_start_time m)%Q;
     ms_total_interactions := total_interactions m;
     ms_memory_chunks_stored := length (memory_chunks m);
     ms_summaries_created := length (summaries m);
     ms_time_since_last_summary := (now2 - last_summary_time m)%Q |}.

(** The operations that replace the store wholesale. *)
Definition resets_store (op : Operation) : bool :=
  match op with
  | LoadFromFile _ _ _ | Clear _ => true
  | _ => false
  end.

Definition is_create_summary (op : Operation) : bool :=
  match op with
  | CreateSummary _ => true
  | _ => false
  end.

Definition is_add_question (op : Operation) : bool :=
  match op with
  | AddQuestion _ _ => true
  | _ => false
  end.

(** ** camera_subsystem.py: statistics and runs *)

(** The dictionary returned by [CameraSubsystem.get_stats]. *)
Record CameraStats : Type := {
  cs_total_frames : nat;
  cs_keyframes : nat;
  cs_keyframe_ratio : Q;
  cs_time_since_last_keyframe : Q
}.

Definition CameraSubsystem_get_stats {Frame : Type} (cam : CameraSubsystem Frame)
    (now : Q) : CameraStats :=
  {| cs_total_frames := frame_count cam;
     cs_keyframes := keyframe_count cam;
     cs_keyframe_ratio :=
       (inject_Z (Z.of_nat (keyframe_count cam))
        / inject_Z (Z.of_nat (Nat.max 1 (frame_count cam))))%Q;
     cs_time_since_last_keyframe := (now - last_keyframe_time cam)%Q |}.

Section CameraRuns.

Variable cfg : config.
Variable Frame : Type.
Variable similarity : Frame -> Frame -> Q.

(** Polls of [get_frame_with_keyframe_detection], one per entry: what the
    device delivered and the reading of the clock; the results in order and
    the final state. *)
Fixpoint poll_all (cam : CameraSubsystem Frame) (polls : list (option Frame * Q))
  : list (option (Frame * bool)) * CameraSubsystem Frame :=
  match polls with
  | [] => ([], cam)
  | (captured, now) :: rest =>
      let '(result, cam') :=
        get_frame_with_keyframe_detection cfg Frame similarity cam captured now in
      let '(results, cam'') := poll_all cam' rest in
      (result :: results, cam'')
  end.

End CameraRuns.

(** The frames of a run that were judged keyframes, with their clock
    readings. *)
Definition keyframes_of {Frame : Type}
    (results : list (option (Frame * bool))) (polls : list (option Frame * Q))
  : list (Frame * Q) :=
  omap (fun '(result, (_, now)) =>
          match result with
          | Some (frame, true) => Some (frame, now)
          | _ => None
          end) (zip results polls).

(** ** ocr_subsystem.py: the two recognisers and the statistics *)

(** The part of [extract_text] run when [pytesseract] is there: [data] is the
    result of [pytesseract.image_to_data], the confidence and the text of
    each box, or [Raises]. *)
Definition tesseract_kept (data : list (Q * string)) : list (Q * string) :=
  omap (fun '(conf, t) =>
          if Qltb (OCR_CONFIDENCE_THRESHOLD * 100) conf
          then
            let stripped := text_of (strip (chars t)) in
            if stripped is EmptyString then None else Some (conf, stripped)
          else None) data.

Definition mean (values : list Q) : Q :=
  (foldr Qplus 0 values / inject_Z (Z.of_nat (length values)))%Q.

Definition tesseract_extract (data : outcome (list (Q * string))) : string * Q :=
  match data with
  | Raises => (EmptyString, 0%Q)
  | Returns boxes =>
      let kept := tesseract_kept boxes in
      let text_parts := map snd kept in
      let confidences := map fst kept in
      (join " " text_parts,
       if confidences is [] then 0%Q else (mean confidences / 100)%Q)
  end.

(** [_mock_ocr]; [brightness] is [np.mean(frame)]. *)
Definition _mock_ocr (brightness : Q) : string :=
  if Qltb 150 brightness then "def calculate_sum(a, b): return a + b"
  else if Qltb 100 brightness then "Error: NullPointerException at line 42"
  else "Console output: Processing complete".

(** The branch of [extract_text] taken without [pytesseract], on the
    brightness of the frame. *)
Definition mock_recognize (brightness : Q) : string * Q :=
  (_mock_ocr brightness, 95 # 100).

(** Calls of [extract_text], one per frame: the dictionaries returned in
    order and the state afterwards. *)
Fixpoint extract_all {Frame : Type} (recognize : Frame -> string * Q)
    (ocr : OCRSubsystem) (frames : list Frame) : list OcrResult * OCRSubsystem :=
  match frames with
  | [] => ([], ocr)
  | frame :: rest =>
      let '(result, ocr') := extract_text Frame recognize ocr frame in
      let '(results, ocr'') := extract_all recognize ocr' rest in
      (result :: results, ocr'')
  end.

(** The dictionary returned by [OCRSubsystem.get_stats]. *)
Record OcrStats : Type := {
  os_text_changes : nat;
  os_last_text_length : nat
}.

Definition OCRSubsystem_get_stats (o : OCRSubsystem) : OcrStats :=
  {| os_text_changes := text_changes o;
     os_last_text_length := length (chars (previous_text o)) |}.

(** ** audio_subsystem.py: start, stop, statistics and runs *)

(** [start]; [stream_opened] tells whether [pyaudio] could open the input
    stream.  The result and the state afterwards. *)
Definition AudioSubsystem_start (AUDIO_AVAILABLE : bool) (a : AudioSubsystem)
    (stream_opened : bool) : bool * AudioSubsystem :=
  if negb AUDIO_AVAILABLE || stream_opened
  then (true,
        {| vad := vad a;
           user_voiceprint := user_voiceprint a;
           is_recording := true;
           speech_count := speech_count a;
           non_user_speech_count := non_user_speech_count a |})
  else (false, a).

Definition AudioSubsystem_stop (a : AudioSubsystem) : AudioSubsystem :=
  {| vad := vad a;
     user_voiceprint := user_voiceprint a;
     is_recording := false;
     speech_count := speech_count a;
     non_user_speech_count := non_user_speech_count a |}.

(** The dictionary returned by [AudioSubsystem.get_stats]. *)
Record AudioStats : Type := {
  as_total_speech_detected : Z;
  as_non_user_speech : Z;
  as_user_speech_filtered : Z
}.

Definition AudioSubsystem_get_stats (a : AudioSubsystem) : AudioStats :=
  {| as_total_speech_detected := speech_count a;
     as_non_user_speech := non_user_speech_count a;
     as_user_speech_filtered := speech_count a - non_user_speech_count a |}.

Section AudioRuns.

Variable cfg : config.
Variable AUDIO_AVAILABLE : bool.

(** Passes of [process_audio_stream], one per entry, as [_audio_loop] makes
    them: an exception ends the pass and the loop goes on.  The values
    returned in order and the final state. *)
Fixpoint listen_all (a : AudioSubsystem) (passes : list AudioInputs)
  : list (outcome (option Transcription)) * AudioSubsystem :=
  match passes with
  | [] => ([], a)
  | inp :: rest =>
      let '(_, result, a') := process_audio_stream cfg AUDIO_AVAILABLE a inp in
      let '(results, a'') := listen_all a' rest in
      (result :: results, a'')
  end.

End AudioRuns.

(** ** llm_integration.py *)

(** [needle in hay] on strings. *)
Definition contains (needle hay : list ascii) : bool :=
  existsb (fun i => bool_decide (take (length needle) (drop i hay) = needle))
    (seq 0 (S (length hay))).

Definition newline : string := String "010"%char EmptyString.

Record LLMIntegration : Type := {
  api_key : option string;
  use_mock : bool;
  total_calls : Z;
  total_tokens_used : Z
}.

(** The dictionary returned by [generate_answer]. *)
Record LLMAnswer : Type := {
  answer : string;
  la_confidence : Q;
  tokens_used : Z;
  model : string;
  la_timestamp : Q
}.

(** What one call takes from the random generator and the clock. *)
Record LLMInputs : Type := {
  answer_choice : nat;       (* random.choice *)
  answer_confidence : Q;     (* random.uniform(0.85, 0.98) *)
  answer_time : Q            (* time.time() *)
}.

(** The dictionary returned by [LLMIntegration.get_stats]. *)
Record LLMStats : Type := {
  ls_total_calls : Z;
  ls_total_tokens_used : Z;
  ls_average_tokens_per_call : Q;
  ls_mode : string
}.

Definition LLMIntegration_init (key : option string) (mock : bool) : LLMIntegration :=
  {| api_key := key; use_mock := mock; total_calls := 0; total_tokens_used := 0 |}.

Definition error_answers : list string :=
  ["This error typically occurs when a null value is passed to a function expecting a valid object. Check the variable initialization before this line.";
   "The NullPointerException suggests that you're trying to access a property on an undefined object. Add null checking before accessing the property.";
   "To fix this error, ensure that the object is properly initialized before use. You can add defensive checks or use optional chaining."].

Definition function_answers : list string :=
  ["This function takes two parameters and returns their sum. It's a basic arithmetic operation commonly used in calculations.";
   "Based on the code visible, this function appears to process input data and return a transformed result.";
   "This function implements a core algorithm that handles the main business logic of the application."].

Definition usage_answers : list string :=
  ["To use this API, first import the module, then call the function with the required parameters. Here's an example: `result = api_function(param1, param2)`";
   "You can implement this by following these steps: 1) Initialize the object, 2) Set the configuration, 3) Call the main method.";
   "The recommended approach is to use the builder pattern. Create an instance, configure it, and then execute."].

Definition what_answers : list string :=
  ["This code implements a data processing pipeline that transforms input through several stages before returning the result.";
   "The purpose of this code is to handle user authentication and session management in a secure manner.";
   "This is a utility function designed to validate input data and ensure it meets the required constraints."].

Definition general_answers : list string :=
  ["Based on the current context and code visible, this appears to be handling data transformation.";
   "This implementation follows best practices for the framework you're using.";
   "The code structure suggests this is part of a larger system for processing user requests."].

(** The [if]/[elif] chain of [_mock_generate_answer] over the lowered
    question. *)
Definition answers_for (question_lower : list ascii) : list string :=
  if contains (chars "error") question_lower || contains (chars "fix") question_lower
  then error_answers
  else if contains (chars "function") question_lower
          || contains (chars "does") question_lower
  then function_answers
  else if contains (chars "how") question_lower || contains (chars "use") question_lower
  then usage_answers
  else if contains (chars "what") question_lower
  then what_answers
  else general_answers.

(** [random.choice(answers)] for the draw [choice]. *)
Definition choose (answers : list string) (choice : nat) : string :=
  default EmptyString (answers !! (choice `mod` length answers)%nat).

(** Truth value of an optional string: there, and not empty. *)
Definition nonempty_text (t : option string) : option string :=
  match t with
  | Some EmptyString => None
  | Some s => Some s
  | None => None
  end.

Definition _mock_generate_answer (l : LLMIntegration) (question : string)
    (context : Context) (keyframe_data : option FrameData)
    (ocr_text : option string) (inp : LLMInputs) : LLMAnswer * LLMIntegration :=
  let question_lower := lower (chars question) in
  let base_answer := choose (answers_for question_lower) (answer_choice inp) in
  let base_answer1 :=
    match nonempty_text ocr_text with
    | Some t =>
        base_answer +:+ newline +:+ newline +:+ "I can see the code: `"
        +:+ text_of (take 50 (chars t)) +:+ "...`"
    | None => base_answer
    end in
  let recent := recent_events context in
  let base_answer2 :=
    if (1 <? length recent)%nat
    then base_answer1 +:+ newline +:+ newline +:+ "Based on your previous "
         +:+ pretty (length recent)
         +:+ " interactions, I'm providing context-aware assistance."
    else base_answer1 in
  let used := Z.of_nat (length (split (chars base_answer2)))
              + Z.of_nat (length (split (chars question))) + 100 in
  ({| answer := base_answer2;
      la_confidence := answer_confidence inp;
      tokens_used := used;
      model := LLM_MODEL;
      la_timestamp := answer_time inp |},
   {| api_key := api_key l;
      use_mock := use_mock l;
      total_calls := total_calls l;
      total_tokens_used := total_tokens_used l + used |}).

(** [_real_generate_answer]: the call of the service is not written yet, the
    method goes to the mock. *)
Definition _real_generate_answer (l : LLMIntegration) (question : string)
    (context : Context) (keyframe_data : option FrameData)
    (ocr_text : option string) (inp : LLMInputs) : LLMAnswer * LLMIntegration :=
  _mock_generate_answer l question context keyframe_data ocr_text inp.

Definition generate_answer (l : LLMIntegration) (question : string)
    (context : Context) (keyframe_data : option FrameData)
    (ocr_text : option string) (inp : LLMInputs) : LLMAnswer * LLMIntegration :=
  let l1 := {| api_key := api_key l;
               use_mock := use_mock l;
               total_calls := total_calls l + 1;
               total_tokens_used := total_tokens_used l |} in
  if use_mock l1
  then _mock_generate_answer l1 question context keyframe_data ocr_text inp
  else _real_generate_answer l1 question context keyframe_data ocr_text inp.

(** [latest_summary.get('content', {}).get('summary_text', '')] *)
Definition content_summary_text (c : Content) : string :=
  match c with
  | SummaryContent s => summary_text s
  | _ => EmptyString
  end.

Definition _build_prompt (question : string) (context : Context)
    (ocr_text : option string) : string :=
  let parts1 :=
    match latest_summary context with
    | Some latest =>
        match content_summary_text (d_content latest) with
        | EmptyString => []
        | summary => ["Recent session summary: " +:+ summary]
        end
    | None => []
    end in
  let parts2 :=
    match nonempty_text ocr_text with
    | Some t => parts1 ++ ["Current screen shows: " +:+ t]
    | None => parts1
    end in
  let parts3 :=
    if recent_events context is [] then parts2
    else parts2 ++ ["Recent events: " +:+ pretty (length (recent_events context))
                    +:+ " interactions"] in
  join (newline +:+ newline) (parts3 ++ [newline +:+ "Question: " +:+ question]).

Definition LLMIntegration_get_stats (l : LLMIntegration) : LLMStats :=
  {| ls_total_calls := total_calls l;
     ls_total_tokens_used := total_tokens_used l;
     ls_average_tokens_per_call :=
       (inject_Z (total_tokens_used l) / inject_Z (Z.max 1 (total_calls l)))%Q;
     ls_mode := if use_mock l then "MOCK" else "REAL" |}.

(** Calls of [generate_answer], one per entry. *)
Fixpoint answer_all (l : LLMIntegration)
    (calls : list (string * Context * option string * LLMInputs))
  : list LLMAnswer * LLMIntegration :=
  match calls with
  | [] => ([], l)
  | (question, context, ocr_text, inp) :: rest =>
      let '(a, l') := generate_answer l question context None ocr_text inp in
      let '(answers, l'') := answer_all l' rest in
      (a :: answers, l'')
  end.

(** ** main.py: the audio step, the summary check, start and stop *)

Record Assistant (Frame : Type) : Type := {
  visual : MultimodalAssistant Frame;   (* camera, ocr, memory, keyframe, text *)
  audio : AudioSubsystem;
  llm : LLMIntegration;
  is_running : bool;
  answer_overlay : string;
  questions_answered : Z;
  start_time : option Q
}.
Arguments visual {Frame} _.
Arguments audio {Frame} _.
Arguments llm {Frame} _.
Arguments is_running {Frame} _.
Arguments answer_overlay {Frame} _.
Arguments questions_answered {Frame} _.
Arguments start_time {Frame} _.

(** The clock readings of one audio step of the orchestrator. *)
Record AnswerClock : Type := {
  t_question_chunk : Q;   (* the chunk made by add_question *)
  t_context : Q;          (* get_context_for_llm *)
  t_answer_chunk : Q      (* the chunk made by add_answer *)
}.

Definition with_memory {Frame : Type} (v : MultimodalAssistant Frame)
    (m : MemorySubsystem) : MultimodalAssistant Frame :=
  {| camera := camera v; ocr := ocr v; memory := m;
     current_keyframe := current_keyframe v;
     current_ocr_text := current_ocr_text v |}.

Section OrchestratorAudio.

Variable cfg : config.
Variable AUDIO_AVAILABLE : bool.
Variable strftime : Q -> string.
Variable Frame : Type.

(** [MultimodalAssistant.__init__] *)
Definition Assistant_init (use_mock_llm : bool) (detector : option Vad)
    (now1 now2 : Q) : Assistant Frame :=
  {| visual := MultimodalAssistant_init Frame now1 now2;
     audio := AudioSubsystem_init AUDIO_AVAILABLE detector;
     llm := LLMIntegration_init None use_mock_llm;
     is_running := false;
     answer_overlay := EmptyString;
     questions_answered := 0;
     start_time := None |}.

(** [MultimodalAssistant.process_audio_stream]: the value returned (or the
    exception of the audio pipeline) and the state afterwards. *)
Definition MultimodalAssistant_process_audio_stream (s : Assistant Frame) (inp : AudioInputs)
    (llm_inp : LLMInputs) (clk : AnswerClock) : outcome bool * Assistant Frame :=
  let '(_, result, audio') := process_audio_stream cfg AUDIO_AVAILABLE (audio s) inp in
  match result with
  | Raises =>
      (Raises,
       {| visual := visual s; audio := audio'; llm := llm s;
          is_running := is_running s; answer_overlay := answer_overlay s;
          questions_answered := questions_answered s;
          start_time := start_time s |})
  | Returns None =>
      (Returns false,
       {| visual := visual s; audio := audio'; llm := llm s;
          is_running := is_running s; answer_overlay := answer_overlay s;
          questions_answered := questions_answered s;
          start_time := start_time s |})
  | Returns (Some transcription) =>
      let question := tr_text transcription in
      let m1 := add_question cfg (memory (visual s))
                  {| qd_text := tr_text transcription;
                     qd_confidence := Some (tr_confidence transcription) |}
                  (t_question_chunk clk) in
      let context := get_context_for_llm strftime m1 (t_context clk) in
      let '(answer_result, llm') :=
        generate_answer (llm s) question context None
          (Some (current_ocr_text (visual s))) llm_inp in
      let m2 := add_answer cfg m1
                  {| ad_text := answer answer_result;
                     ad_question := Some question |}
                  (t_answer_chunk clk) in
      (Returns true,
       {| visual := with_memory (visual s) m2;
          audio := audio';
          llm := llm';
          is_running := is_running s;
          answer_overlay :=
            "Q: " +:+ text_of (take 40 (chars question)) +:+ "..." +:+ newline
            +:+ "A: " +:+ text_of (take 100 (chars (answer answer_result)))
            +:+ "...";
          questions_answered := questions_answered s + 1;
          start_time := start_time s |})
  end.

(** [check_and_create_summary]: indexing the empty dictionary that
    [create_summary] returns for an empty buffer raises [KeyError]. *)
Definition check_and_create_summary (s : Assistant Frame) (now : Q)
    (clk : SummaryClock) : outcome unit * Assistant Frame :=
  if should_create_summary cfg (memory (visual s)) now
  then
    match create_summary (memory (visual s)) clk with
    | (Some summary, m') =>
        (Returns tt,
         {| visual := with_memory (visual s) m'; audio := audio s; llm := llm s;
            is_running := is_running s; answer_overlay := answer_overlay s;
            questions_answered := questions_answered s;
            start_time := start_time s |})
    | (None, m') =>
        (Raises,
         {| visual := with_memory (visual s) m'; audio := audio s; llm := llm s;
            is_running := is_running s; answer_overlay := answer_overlay s;
            questions_answered := questions_answered s;
            start_time := start_time s |})
    end
  else (Returns tt, s).

(** What [start] meets outside: whether the camera opens, the stored
    voiceprint if there is one and the random one made otherwise, whether
    the audio stream opens, the memory file, and the clock. *)
Record StartInputs : Type := {
  camera_opened : bool;
  stored_voiceprint : option (list Q);
  random_voiceprint : list Q;
  stream_opened : bool;
  memory_file : FileContent;
  t_load : Q;
  t_load_at : nat -> Q;
  t_start : Q
}.

Definition start (s : Assistant Frame) (inp : StartInputs) : bool * Assistant Frame :=
  if negb (camera_opened inp) then (false, s)
  else
    let audio1 := load_user_voiceprint (audio s) (stored_voiceprint inp)
                    (random_voiceprint inp) in
    match AudioSubsystem_start AUDIO_AVAILABLE audio1 (stream_opened inp) with
    | (false, audio2) =>
        (false,
         {| visual := visual s; audio := audio2; llm := llm s;
            is_running := is_running s; answer_overlay := answer_overlay s;
            questions_answered := questions_answered s;
            start_time := start_time s |})
    | (true, audio2) =>
        let m := (load_from_file cfg (memory (visual s)) (memory_file inp)
                    (t_load inp) (t_load_at inp)).2 in
        (true,
         {| visual := with_memory (visual s) m; audio := audio2; llm := llm s;
            is_running := true; answer_overlay := answer_overlay s;
            questions_answered := questions_answered s;
            start_time := Some (t_start inp) |})
    end.

(** [stop]: the document handed to [json.dump] and the state afterwards. *)
Definition stop (s : Assistant Frame) : Document * Assistant Frame :=
  (save_to_file strftime (memory (visual s)),
   {| visual := visual s;
      audio := AudioSubsystem_stop (audio s);
      llm := llm s;
      is_running := false;
      answer_overlay := answer_overlay s;
      questions_answered := questions_answered s;
      start_time := start_time s |}).

(** [_audio_loop], on its own: steps of [process_audio_stream] for as long as
    the assistant is running; an exception ends the step and the loop goes
    on.  The values returned in order and the final state. *)
Fixpoint _audio_loop (s : Assistant Frame)
    (steps : list (AudioInputs * LLMInputs * AnswerClock))
  : list (outcome bool) * Assistant Frame :=
  match steps with
  | [] => ([], s)
  | (inp, llm_inp, clk) :: rest =>
      if is_running s
      then
        let '(result, s') := MultimodalAssistant_process_audio_stream s inp llm_inp clk in
        let '(results, s'') := _audio_loop s' rest in
        (result :: results, s'')
      else ([], s)
  end.

End OrchestratorAudio.

(** A step of the audio loop that answered a question. *)
Definition answered (result : outcome bool) : bool :=
  match result with
  | Returns true => true
  | _ => false
  end.

(** ** Sample values for the further examples *)

(** A short exchange: a question, its answer, a keyframe, another question. *)
Definition exchange : list Operation :=
  [ AddQuestion {| qd_text := "What does this do?"; qd_confidence := None |} (1 # 1);
    AddAnswer {| ad_text := "It adds two numbers";
                 ad_question := Some "What does this do?" |} (2 # 1);
    AddKeyframe {| fd_ocr_text := Some "def f(x):"; fd_confidence := None |} (3 # 1);
    AddQuestion {| qd_text := "How do I fix this?"; qd_confidence := None |} (4 # 1) ].

(** A clock that prints every reading alike. *)
Definition fixed_strftime : Q -> string := fun _ => "2026-01-01 00:00:00".

(** A start in mock mode at time 1000 with the camera there, a stored
    voiceprint and no memory file, and the assistant it gives. *)
Definition plain_start : StartInputs :=
  {| camera_opened := true;
     stored_voiceprint := Some unit_voiceprint;
     random_voiceprint := unit_voiceprint;
     stream_opened := true;
     memory_file := Missing;
     t_load := 1000 # 1;
     t_load_at := fun _ => 1000 # 1;
     t_start := 1000 # 1 |}.

Definition new_assistant : Assistant unit :=
  Assistant_init false unit true None (1000 # 1) (1000 # 1).

Definition running_assistant : Assistant unit :=
  (start default_config false unit new_assistant plain_start).2.

(** An audio step in which another speaker asks "What does this function
    do?" at time 1001, answered at time 1002. *)
Definition question_step : AudioInputs * LLMInputs * AnswerClock :=
  (heard loud_chunk (1 # 10) orthogonal_embedding,
   {| answer_choice := 0; answer_confidence := 9 # 10; answer_time := 1002 # 1 |},
   {| t_question_chunk := 1001 # 1; t_context := 1001 # 1;
      t_answer_chunk := 1002 # 1 |}).

(** An audio step in which nothing is heard. *)
Definition quiet_step : AudioInputs * LLMInputs * AnswerClock :=
  (heard silent_chunk (9 # 10) orthogonal_embedding,
   {| answer_choice := 0; answer_confidence := 9 # 10; answer_time := 1002 # 1 |},
   {| t_question_chunk := 1001 # 1; t_context := 1001 # 1;
      t_answer_chunk := 1002 # 1 |}).

(** What was read of a document whose second entry of [memory_chunks] lacks
    its timestamp: the session start, the interaction count and the first
    entry, an answer recorded at time 501. *)
Definition interrupted_document : Document :=
  {| doc_session_start := Some (500 # 1);
     doc_total_interactions := Some 7;
     doc_memory_chunks :=
       Some [ {| d_type := "answer";
                 d_content := AnswerContent "It adds two numbers" "What does this do?";
                 d_timestamp := 501 # 1;
                 d_time_str := "2026-01-01 00:00:00" |} ];
     doc_summaries := None |}.

(** * Properties *)

(** ** The bounded deque *)

Section DequeFacts.

Context {A : Type}.
Implicit Types (d xs : list A) (x : A) (maxlen : nat).

Lemma deque_append_room maxlen d x :
  (length d < maxlen)%nat -> deque_append maxlen d x = d ++ [x].
Proof.
  intros Hlt. unfold deque_append. rewrite length_app. simpl.
  destruct (Nat.ltb_spec maxlen (length d + 1)); [lia | reflexivity].
Qed.

Lemma deque_append_full maxlen d x :
  (0 < maxlen)%nat -> length d = maxlen ->
  deque_append maxlen d x = drop 1 d ++ [x].
Proof.
  intros Hpos Hlen. unfold deque_append. rewrite length_app. simpl.
  destruct (Nat.ltb_spec maxlen (length d + 1)); [| lia].
  destruct d as [| y d']; [simpl in Hlen; lia | reflexivity].
Qed.

Lemma deque_append_suffix maxlen d x :
  (length d <= maxlen)%nat ->
  deque_append maxlen d x = drop (length (d ++ [x]) - maxlen) (d ++ [x]).
Proof.
  intros Hle. unfold deque_append. rewrite length_app. simpl.
  destruct (Nat.ltb_spec maxlen (length d + 1)) as [Hlt | Hge].
  - replace (length d + 1 - maxlen)%nat with 1%nat by lia. reflexivity.
  - replace (length d + 1 - maxlen)%nat with 0%nat by lia. reflexivity.
Qed.

Lemma deque_append_length maxlen d x :
  (length d <= maxlen)%nat -> (length (deque_append maxlen d x) <= maxlen)%nat.
Proof.
  intros Hle. rewrite deque_append_suffix by assumption.
  rewrite length_drop, length_app. simpl. lia.
Qed.

(** A run of appends keeps the newest [maxlen] items of everything that was
    ever in the deque, in their order of arrival. *)
Lemma foldl_deque_append maxlen xs : forall d,
  (length d <= maxlen)%nat ->
  foldl (deque_append maxlen) d xs
  = drop (length (d ++ xs) - maxlen) (d ++ xs).
Proof.
  induction xs as [| x xs IH]; intros d Hle; simpl.
  - rewrite app_nil_r. replace (length d - maxlen)%nat with 0%nat by lia.
    reflexivity.
  - rewrite IH by (apply deque_append_length; assumption).
    rewrite deque_append_suffix by assumption.
    set (k := (length (d ++ [x]) - maxlen)%nat).
    assert (Hk : (k <= length (d ++ [x]))%nat) by (unfold k; lia).
    rewrite <- (drop_app_le (d ++ [x]) xs k) by exact Hk.
    rewrite drop_drop. rewrite <- app_assoc. simpl.
    f_equal. rewrite length_app, length_drop.
    unfold k. rewrite !length_app. simpl. lia.
Qed.

End DequeFacts.

(** ** The event store *)

Section StoreFacts.

Variable cfg : config.
Local Abbreviation C := (MAX_MEMORY_CHUNKS cfg).
Local Abbreviation within_capacity := (within_capacity cfg).

Lemma append_chunk_capacity m chunk :
  within_capacity m -> within_capacity (append_chunk cfg m chunk).
Proof. unfold within_capacity. simpl. apply deque_append_length. Qed.

Lemma load_chunks_capacity now_at entries : forall i acc,
  (length acc <= C)%nat ->
  (length (load_chunks cfg now_at i acc entries) <= C)%nat.
Proof.
  induction entries as [| e entries IH]; intros i acc Hacc; simpl.
  - exact Hacc.
  - apply IH. apply deque_append_length. exact Hacc.
Qed.

Lemma run_operation_capacity m op :
  within_capacity m -> within_capacity (run_operation cfg m op).
Proof.
  intros Hm. destruct op; simpl.
  - apply append_chunk_capacity, Hm.
  - unfold add_question, within_capacity. simpl.
    apply deque_append_length, Hm.
  - apply append_chunk_capacity, Hm.
  - unfold add_ocr_event. destruct (ocr_text_present ocr_data).
    + apply append_chunk_capacity, Hm.
    + exact Hm.
  - unfold create_summary, within_capacity in *.
    destruct (memory_chunks m) eqn:E; simpl; rewrite ?E; exact Hm.
  - destruct file; simpl; try exact Hm;
      unfold within_capacity; simpl; apply load_chunks_capacity; simpl; lia.
  - unfold within_capacity. simpl. lia.
Qed.

Lemma run_operations_capacity ops : forall m,
  within_capacity m -> within_capacity (run_operations cfg m ops).
Proof.
  induction ops as [| op ops IH]; intros m Hm; simpl; [exact Hm |].
  apply IH, run_operation_capacity, Hm.
Qed.

Lemma run_operation_appended m op chunk :
  appended_chunk op = Some chunk ->
  memory_chunks (run_operation cfg m op)
  = deque_append C (memory_chunks m) chunk.
Proof.
  destruct op; simpl; try discriminate.
  - intros H. injection H as <-. reflexivity.
  - intros H. injection H as <-. reflexivity.
  - intros H. injection H as <-. reflexivity.
  - unfold add_ocr_event. destruct (ocr_text_present ocr_data); [| discriminate].
    intros H. injection H as <-. reflexivity.
Qed.

Lemma run_operations_appended ops : forall m chunks,
  Forall2 (fun op chunk => appended_chunk op = Some chunk) ops chunks ->
  memory_chunks (run_operations cfg m ops)
  = foldl (deque_append C) (memory_chunks m) chunks.
Proof.
  induction ops as [| op ops IH]; intros m chunks Hall.
  - inversion Hall; subst. reflexivity.
  - inversion Hall as [| ? c ? chunks' Hop Hrest]; subst.
    change (run_operations cfg m (op :: ops))
      with (run_operations cfg (run_operation cfg m op) ops).
    rewrite (IH _ chunks' Hrest).
    rewrite (run_operation_appended m op c Hop). reflexivity.
Qed.

Lemma run_operations_last ops m chunks :
  Forall2 (fun op chunk => appended_chunk op = Some chunk) ops chunks ->
  within_capacity m ->
  memory_chunks (run_operations cfg m ops)
  = drop (length (memory_chunks m ++ chunks) - C) (memory_chunks m ++ chunks).
Proof.
  intros Hall Hm. rewrite (run_operations_appended ops m chunks Hall).
  apply foldl_deque_append. exact Hm.
Qed.

End StoreFacts.

(** C1.  The event store never holds more than [MAX_MEMORY_CHUNKS] chunks,
    whatever operations are run on it; an operation that appends to a full
    store drops exactly the oldest chunk and puts the new one last; and
    after a run of more than [MAX_MEMORY_CHUNKS] appends the store is
    exactly the last [MAX_MEMORY_CHUNKS] appended chunks, in the order of
    their arrival. *)
Theorem event_store_capacity_fifo (cfg : config) :
  (0 < MAX_MEMORY_CHUNKS cfg)%nat ->
  (forall now1 now2 ops,
     (length (memory_chunks
        (run_operations cfg (MemorySubsystem_init now1 now2) ops))
      <= MAX_MEMORY_CHUNKS cfg)%nat)
  /\ (forall m op,
        (length (memory_chunks m) <= MAX_MEMORY_CHUNKS cfg)%nat ->
        (length (memory_chunks (run_operation cfg m op))
         <= MAX_MEMORY_CHUNKS cfg)%nat)
  /\ (forall m op chunk,
        appended_chunk op = Some chunk ->
        (length (memory_chunks m) < MAX_MEMORY_CHUNKS cfg)%nat ->
        memory_chunks (run_operation cfg m op) = memory_chunks m ++ [chunk])
  /\ (forall m op chunk,
        appended_chunk op = Some chunk ->
        length (memory_chunks m) = MAX_MEMORY_CHUNKS cfg ->
        memory_chunks (run_operation cfg m op)
        = drop 1 (memory_chunks m) ++ [chunk])
  /\ (forall m ops chunks,
        Forall2 (fun op chunk => appended_chunk op = Some chunk) ops chunks ->
        (length (memory_chunks m) <= MAX_MEMORY_CHUNKS cfg)%nat ->
        (MAX_MEMORY_CHUNKS cfg < length chunks)%nat ->
        let stored := memory_chunks (run_operations cfg m ops) in
        stored = drop (length chunks - MAX_MEMORY_CHUNKS cfg) chunks
        /\ length stored = MAX_MEMORY_CHUNKS cfg).
Proof.
  intros Hpos. split; [| split; [| split; [| split]]].
  - intros now1 now2 ops. apply run_operations_capacity.
    unfold within_capacity. simpl. lia.
  - intros m op. apply run_operation_capacity.
  - intros m op chunk Hop Hroom.
    rewrite (run_operation_appended cfg m op chunk Hop).
    apply deque_append_room; assumption.
  - intros m op chunk Hop Hfull.
    rewrite (run_operation_appended cfg m op chunk Hop).
    apply deque_append_full; assumption.
  - intros m ops chunks Hall Hm Hlen stored. subst stored.
    rewrite (run_operations_last cfg ops m chunks Hall Hm). split.
    + rewrite length_app, drop_app_ge by lia. f_equal. lia.
    + rewrite length_drop, length_app. lia.
Qed.

Lemma answers_appended n :
  Forall2 (fun op chunk => appended_chunk op = Some chunk)
    (answers n) (numbered_answers n).
Proof.
  unfold answers, numbered_answers.
  apply Forall2_fmap, Forall_Forall2_diag, Forall_forall.
  intros i _. reflexivity.
Qed.

Lemma event_store_capacity_fifo_default :
  (0 < MAX_MEMORY_CHUNKS default_config)%nat
  /\ let stored :=
       memory_chunks
         (run_operations default_config (MemorySubsystem_init 0 0) (answers 101)) in
     stored = drop (length (numbered_answers 101) - 100) (numbered_answers 101)
     /\ length stored = 100%nat.
Proof.
  split; [simpl; lia |].
  apply (event_store_capacity_fifo default_config).
  - simpl; lia.
  - apply answers_appended.
  - simpl; lia.
  - vm_compute; lia.
Defined.

(** ** The summarization scheduler *)

Section SchedulerFacts.

Variable cfg : config.

Lemma should_create_summary_iff m now :
  should_create_summary cfg m now = true
  <-> (SUMMARY_INTERVAL_SECONDS cfg <= now - last_summary_time m)%Q.
Proof. unfold should_create_summary. apply Qle_bool_iff. Qed.

Lemma should_create_summary_early m now :
  (now - last_summary_time m < SUMMARY_INTERVAL_SECONDS cfg)%Q ->
  should_create_summary cfg m now = false.
Proof.
  intros Hlt. destruct (should_create_summary cfg m now) eqn:E; [| reflexivity].
  apply should_create_summary_iff in E. lra.
Qed.

Lemma create_summary_nonempty m clk :
  memory_chunks m <> [] ->
  create_summary m clk
  = (Some (build_summary m clk),
     {| memory_chunks := memory_chunks m;
        summaries := summaries m
          ++ [MemoryChunk_init (SummaryContent (build_summary m clk)) None (t_chunk clk)];
        last_summary_time := t_reset clk;
        session_start_time := session_start_time m;
        total_interactions := total_interactions m |}).
Proof.
  intros Hne. unfold create_summary.
  destruct (memory_chunks m); [congruence | reflexivity].
Qed.

Lemma create_summary_empty m clk :
  memory_chunks m = [] -> create_summary m clk = (None, m).
Proof. intros He. unfold create_summary. rewrite He. reflexivity. Qed.

End SchedulerFacts.

(** C2, as the code has it.  Right after construction or [clear], and right
    after a summary was made, [should_create_summary] is false, and stays so
    while less than the interval has elapsed; it is true exactly when the
    elapsed time has reached the interval.  On a store that holds at least
    one chunk [create_summary] appends exactly one summary chunk to
    [summaries], leaves the buffer alone and sets [last_summary_time] to the
    clock reading, so that the check is false again at that reading.  On an
    empty store [create_summary] returns the empty dictionary and changes
    nothing. *)
Theorem summary_scheduler (cfg : config) :
  (0 < SUMMARY_INTERVAL_SECONDS cfg)%Q ->
  (forall now1 now2,
     should_create_summary cfg (MemorySubsystem_init now1 now2) now1 = false)
  /\ (forall now1 now2 now,
        (now - now1 < SUMMARY_INTERVAL_SECONDS cfg)%Q ->
        should_create_summary cfg (MemorySubsystem_init now1 now2) now = false)
  /\ (forall m now, should_create_summary cfg (clear m now) now = false)
  /\ (forall m now,
        should_create_summary cfg m now = true
        <-> (SUMMARY_INTERVAL_SECONDS cfg <= now - last_summary_time m)%Q)
  /\ (forall m clk,
        memory_chunks m <> [] ->
        let m' := (create_summary m clk).2 in
        (create_summary m clk).1 = Some (build_summary m clk)
        /\ summaries m'
           = summaries m
             ++ [MemoryChunk_init (SummaryContent (build_summary m clk)) None
                   (t_chunk clk)]
        /\ length (summaries m') = S (length (summaries m))
        /\ memory_chunks m' = memory_chunks m
        /\ last_summary_time m' = t_reset clk
        /\ should_create_summary cfg m' (t_reset clk) = false
        /\ (forall now,
              (now - t_reset clk < SUMMARY_INTERVAL_SECONDS cfg)%Q ->
              should_create_summary cfg m' now = false))
  /\ (forall m clk,
        memory_chunks m = [] -> create_summary m clk = (None, m)).
Proof.
  intros Hpos. split; [| split; [| split; [| split; [| split]]]].
  - intros now1 now2. apply should_create_summary_early. simpl. lra.
  - intros now1 now2 now Hnow. apply should_create_summary_early. exact Hnow.
  - intros m now. apply should_create_summary_early. simpl. lra.
  - intros m now. apply should_create_summary_iff.
  - intros m clk Hne. rewrite (create_summary_nonempty m clk Hne). simpl.
    repeat split.
    + rewrite length_app. simpl. lia.
    + apply should_create_summary_early. simpl. lra.
    + intros now Hnow. apply should_create_summary_early. simpl. exact Hnow.
  - intros m clk. apply create_summary_empty.
Qed.

Lemma summary_scheduler_default :
  (0 < SUMMARY_INTERVAL_SECONDS default_config)%Q
  /\ memory_chunks store_with_question <> []
  /\ should_create_summary default_config store_with_question (1200 # 1) = true
  /\ let m' := (create_summary store_with_question (summary_clock (1200 # 1))).2 in
     length (summaries m') = 1%nat
     /\ last_summary_time m' = (1200 # 1)%Q
     /\ should_create_summary default_config m' (1200 # 1) = false.
Proof.
  split; [unfold Qlt; simpl; lia |]. split; [discriminate |].
  split; [reflexivity |].
  pose proof (summary_scheduler default_config ltac:(unfold Qlt; simpl; lia))
    as (_ & _ & _ & _ & H & _).
  specialize (H store_with_question (summary_clock (1200 # 1)) ltac:(discriminate)).
  cbv zeta in H. destruct H as (_ & _ & H3 & _ & H5 & H6 & _).
  cbv zeta. split; [exact H3 |]. split; [exact H5 | exact H6].
Defined.

(** C2 as stated fails on the empty store: 200 seconds after construction
    the check is true, yet [create_summary] appends no summary and does not
    move [last_summary_time], so the check stays true. *)
Lemma trigger_on_empty_store :
  let m := MemorySubsystem_init (1000 # 1) (1000 # 1) in
  let now := (1200 # 1)%Q in
  let clk := {| t_end := now; t_duration := now; t_chunk := now; t_reset := now |} in
  let m' := (create_summary m clk).2 in
  should_create_summary default_config m now = true
  /\ (create_summary m clk).1 = None
  /\ length (summaries m') <> S (length (summaries m))
  /\ ~ (last_summary_time m' == now)%Q
  /\ should_create_summary default_config m' now = true.
Proof.
  cbv zeta. repeat split; try reflexivity; simpl.
  - lia.
  - intros H. discriminate H.
Qed.

(** ** The context package *)

Lemma slice_from_last {A : Type} (k : nat) (l : list A) :
  (0 < k)%nat -> slice_from (- Z.of_nat k) l = drop (length l - k) l.
Proof.
  intros Hk. unfold slice_from.
  destruct (Z.ltb_spec (- Z.of_nat k) 0) as [_ | Hge]; [| lia].
  f_equal. lia.
Qed.

Section ContextFacts.

Variable cfg : config.
Variable strftime : Q -> string.

Lemma get_recent_context_5 m :
  get_recent_context strftime m 5
  = map (to_dict strftime) (drop (length (memory_chunks m) - 5) (memory_chunks m)).
Proof.
  unfold get_recent_context. f_equal.
  apply (slice_from_last 5 (memory_chunks m)). lia.
Qed.

Lemma get_latest_summary_last m :
  get_latest_summary strftime m = to_dict strftime <$> last (summaries m).
Proof. unfold get_latest_summary. destruct (summaries m); reflexivity. Qed.

Lemma last_deque_append {A : Type} maxlen (d : list A) x :
  (1 <= maxlen)%nat -> last (deque_append maxlen d x) = Some x.
Proof.
  intros Hcap. unfold deque_append.
  destruct (Nat.ltb_spec maxlen (length (d ++ [x]))) as [Hlt | Hge].
  - destruct d as [| y d]; [simpl in Hlt; lia |].
    cbn [app drop]. rewrite drop_0. apply last_snoc.
  - apply last_snoc.
Qed.

Lemma last_suffix {A : Type} (l : list A) k x :
  (0 < k)%nat -> last l = Some x -> last (drop (length l - k) l) = Some x.
Proof.
  intros Hk Hlast. apply last_Some in Hlast as [l' ->].
  rewrite length_app. cbn [length].
  rewrite drop_app_le by lia. apply last_snoc.
Qed.

(** The newest entry of the recent events is the newest chunk of the
    buffer, field by field. *)
Lemma newest_recent_event m now c :
  last (memory_chunks m) = Some c ->
  last (recent_events (get_context_for_llm strftime m now))
  = Some {| d_type := chunk_type c;
            d_content := content c;
            d_timestamp := timestamp c;
            d_time_str := strftime (timestamp c) |}.
Proof.
  intros Hlast. unfold get_context_for_llm. cbn [recent_events].
  rewrite get_recent_context_5.
  change (map (to_dict strftime)) with (fmap (M := list) (to_dict strftime)).
  rewrite fmap_last, (last_suffix _ 5 c) by (lia || exact Hlast).
  reflexivity.
Qed.

End ContextFacts.

(** C5.  The context package is the record of exactly the four fields
    session duration, total interactions, latest summary and recent events.
    The latest summary is the dictionary of the last chunk of [summaries]
    (the one appended most recently, by [create_summary]) and is absent when
    there is none; the recent events are the dictionaries of the last five
    chunks of the buffer, or of all of them when it holds fewer, oldest
    first; after a run of at least five appends they are the last five
    chunks appended.  Every dictionary carries the type tag, the content and
    the timestamp of its chunk, and the timestamp printed: the newest
    recent event after an [add_*] call is the event just recorded, tagged
    "keyframe", "question", "answer" or "ocr", and the latest summary after
    [create_summary] is tagged "summary" and holds the summary made. *)
Theorem context_package (cfg : config) (strftime : Q -> string) :
  (5 <= MAX_MEMORY_CHUNKS cfg)%nat ->
  (forall m now,
     get_context_for_llm strftime m now
     = {| session_duration := (now - session_start_time m)%Q;
          ctx_total_interactions := total_interactions m;
          latest_summary := to_dict strftime <$> last (summaries m);
          recent_events :=
            map (to_dict strftime)
              (drop (length (memory_chunks m) - 5) (memory_chunks m)) |})
  /\ (forall m now,
        length (recent_events (get_context_for_llm strftime m now))
        = Nat.min 5 (length (memory_chunks m)))
  /\ (forall m now,
        (length (memory_chunks m) <= 5)%nat ->
        recent_events (get_context_for_llm strftime m now)
        = map (to_dict strftime) (memory_chunks m))
  /\ (forall m now older newest,
        memory_chunks m = older ++ newest -> length newest = 5%nat ->
        recent_events (get_context_for_llm strftime m now)
        = map (to_dict strftime) newest)
  /\ (forall m now,
        summaries m = [] ->
        latest_summary (get_context_for_llm strftime m now) = None)
  /\ (forall m now earlier s,
        summaries m = earlier ++ [s] ->
        latest_summary (get_context_for_llm strftime m now)
        = Some (to_dict strftime s))
  /\ (forall m clk now,
        memory_chunks m <> [] ->
        latest_summary
          (get_context_for_llm strftime (create_summary m clk).2 now)
        = Some (to_dict strftime
                  (MemoryChunk_init (SummaryContent (build_summary m clk)) None
                     (t_chunk clk))))
  /\ (forall m ops chunks now,
        Forall2 (fun op chunk => appended_chunk op = Some chunk) ops chunks ->
        within_capacity cfg m -> (5 <= length chunks)%nat ->
        recent_events
          (get_context_for_llm strftime (run_operations cfg m ops) now)
        = map (to_dict strftime) (drop (length chunks - 5) chunks))
  /\ (forall m now i c,
        drop (length (memory_chunks m) - 5) (memory_chunks m) !! i = Some c ->
        recent_events (get_context_for_llm strftime m now) !! i
        = Some {| d_type := chunk_type c;
                  d_content := content c;
                  d_timestamp := timestamp c;
                  d_time_str := strftime (timestamp c) |})
  /\ (forall m now i,
        drop (length (memory_chunks m) - 5) (memory_chunks m) !! i = None ->
        recent_events (get_context_for_llm strftime m now) !! i = None)
  /\ (forall m now earlier s,
        summaries m = earlier ++ [s] ->
        latest_summary (get_context_for_llm strftime m now)
        = Some {| d_type := chunk_type s;
                  d_content := content s;
                  d_timestamp := timestamp s;
                  d_time_str := strftime (timestamp s) |})
  /\ (forall m clk now,
        memory_chunks m <> [] ->
        latest_summary
          (get_context_for_llm strftime (create_summary m clk).2 now)
        = Some {| d_type := "summary";
                  d_content := SummaryContent (build_summary m clk);
                  d_timestamp := t_chunk clk;
                  d_time_str := strftime (t_chunk clk) |})
  /\ (forall m frame_data t now,
        last (recent_events
                (get_context_for_llm strftime (add_keyframe cfg m frame_data t) now))
        = Some {| d_type := "keyframe";
                  d_content :=
                    KeyframeContent "Visual keyframe captured"
                      (default EmptyString (fd_ocr_text frame_data))
                      (default 0%Q (fd_confidence frame_data));
                  d_timestamp := t;
                  d_time_str := strftime t |})
  /\ (forall m question_data t now,
        last (recent_events
                (get_context_for_llm strftime (add_question cfg m question_data t) now))
        = Some {| d_type := "question";
                  d_content :=
                    QuestionContent (qd_text question_data)
                      (default 1%Q (qd_confidence question_data));
                  d_timestamp := t;
                  d_time_str := strftime t |})
  /\ (forall m answer_data t now,
        last (recent_events
                (get_context_for_llm strftime (add_answer cfg m answer_data t) now))
        = Some {| d_type := "answer";
                  d_content :=
                    AnswerContent (ad_text answer_data)
                      (default EmptyString (ad_question answer_data));
                  d_timestamp := t;
                  d_time_str := strftime t |})
  /\ (forall m ocr_data text t now,
        ocr_text_present ocr_data = Some text ->
        last (recent_events
                (get_context_for_llm strftime (add_ocr_event cfg m ocr_data t) now))
        = Some {| d_type := "ocr";
                  d_content :=
                    OcrContent text
                      (default 0%Q (od_confidence ocr_data))
                      (default 0 (od_word_count ocr_data));
                  d_timestamp := t;
                  d_time_str := strftime t |}).
Proof.
  intros Hcap.
  assert (Hshape : forall m now,
     get_context_for_llm strftime m now
     = {| session_duration := (now - session_start_time m)%Q;
          ctx_total_interactions := total_interactions m;
          latest_summary := to_dict strftime <$> last (summaries m);
          recent_events :=
            map (to_dict strftime)
              (drop (length (memory_chunks m) - 5) (memory_chunks m)) |}).
  { intros m now. unfold get_context_for_llm.
    rewrite get_recent_context_5, get_latest_summary_last. reflexivity. }
  assert (Hnewest : forall m chunk now,
            last (recent_events
                    (get_context_for_llm strftime (append_chunk cfg m chunk) now))
            = Some {| d_type := chunk_type chunk;
                      d_content := content chunk;
                      d_timestamp := timestamp chunk;
                      d_time_str := strftime (timestamp chunk) |}).
  { intros m chunk now. apply newest_recent_event.
    cbn [append_chunk memory_chunks]. apply last_deque_append. lia. }
  repeat apply conj.
  - exact Hshape.
  - intros m now. rewrite Hshape; cbn [recent_events latest_summary].
    rewrite length_map, length_drop. lia.
  - intros m now Hle. rewrite Hshape; cbn [recent_events latest_summary].
    replace (length (memory_chunks m) - 5)%nat with 0%nat by lia. reflexivity.
  - intros m now older newest Hsplit Hlen. rewrite Hshape; cbn [recent_events latest_summary].
    rewrite Hsplit, length_app, Hlen.
    rewrite drop_app_length' by lia. reflexivity.
  - intros m now He. rewrite Hshape; cbn [recent_events latest_summary]. rewrite He. reflexivity.
  - intros m now earlier s Hs. rewrite Hshape; cbn [recent_events latest_summary].
    rewrite Hs, last_snoc. reflexivity.
  - intros m clk now Hne. rewrite Hshape.
    rewrite (create_summary_nonempty m clk Hne).
    cbn [recent_events latest_summary snd summaries].
    rewrite last_snoc. reflexivity.
  - intros m ops chunks now Hall Hm Hlen.
    rewrite Hshape; cbn [recent_events latest_summary]. f_equal.
    rewrite (run_operations_last cfg ops m chunks Hall Hm).
    rewrite length_drop, drop_drop.
    rewrite !length_app.
    rewrite drop_app_ge by lia. f_equal. lia.
  - intros m now i c Hc. rewrite Hshape; cbn [recent_events].
    change (map (to_dict strftime)) with (fmap (M := list) (to_dict strftime)).
    rewrite list_lookup_fmap, Hc. reflexivity.
  - intros m now i Hc. rewrite Hshape; cbn [recent_events].
    change (map (to_dict strftime)) with (fmap (M := list) (to_dict strftime)).
    rewrite list_lookup_fmap, Hc. reflexivity.
  - intros m now earlier s Hs. rewrite Hshape; cbn [latest_summary].
    rewrite Hs, last_snoc. reflexivity.
  - intros m clk now Hne. rewrite Hshape.
    rewrite (create_summary_nonempty m clk Hne).
    cbn [latest_summary snd summaries].
    rewrite last_snoc. reflexivity.
  - intros m frame_data t now.
    exact (Hnewest m
             (MemoryChunk_init
                (KeyframeContent "Visual keyframe captured"
                   (default EmptyString (fd_ocr_text frame_data))
                   (default 0%Q (fd_confidence frame_data))) None t) now).
  - intros m question_data t now.
    apply (newest_recent_event strftime _ now
             (MemoryChunk_init
                (QuestionContent (qd_text question_data)
                   (default 1%Q (qd_confidence question_data))) None t)).
    cbn [add_question memory_chunks append_chunk].
    apply last_deque_append. lia.
  - intros m answer_data t now.
    exact (Hnewest m
             (MemoryChunk_init
                (AnswerContent (ad_text answer_data)
                   (default EmptyString (ad_question answer_data))) None t) now).
  - intros m ocr_data text t now Htext. unfold add_ocr_event.
    rewrite Htext.
    exact (Hnewest m
             (MemoryChunk_init
                (OcrContent text
                   (default 0%Q (od_confidence ocr_data))
                   (default 0 (od_word_count ocr_data))) None t) now).
Qed.

Lemma context_package_default :
  (5 <= MAX_MEMORY_CHUNKS default_config)%nat
  /\ let m := run_operations default_config (MemorySubsystem_init 0 0)
                (answers 6) in
     recent_events (get_context_for_llm fixed_strftime m (10 # 1))
     = map (fun i =>
              {| d_type := "answer";
                 d_content := AnswerContent "It adds two numbers" "What does this do?";
                 d_timestamp := inject_Z i;
                 d_time_str := "2026-01-01 00:00:00" |})
         [2; 3; 4; 5; 6].
Proof.
  split; [simpl; lia |].
  assert (Hcap : (5 <= MAX_MEMORY_CHUNKS default_config)%nat) by (simpl; lia).
  destruct (context_package default_config fixed_strftime Hcap)
    as (_ & _ & _ & _ & _ & _ & _ & Hrun & _).
  cbv zeta. rewrite (Hrun (MemorySubsystem_init 0 0) (answers 6) (numbered_answers 6)).
  - reflexivity.
  - apply answers_appended.
  - unfold within_capacity. simpl; lia.
  - simpl; lia.
Defined.

(** ** Comparison of scores *)

(** Closed comparisons of rationals, by evaluation. *)
Ltac q_eval := unfold Qlt, Qle, Qeq; simpl; lia.

Lemma Qltb_lt (x y : Q) : Qltb x y = true <-> (x < y)%Q.
Proof.
  unfold Qltb. rewrite Qlt_alt.
  destruct (x ?= y)%Q; split; intros H; congruence.
Qed.

Lemma Qltb_ge (x y : Q) : Qltb x y = false <-> (y <= x)%Q.
Proof.
  split; intros H.
  - apply Qnot_lt_le. intros Hlt. apply Qltb_lt in Hlt. congruence.
  - destruct (Qltb x y) eqn:E; [| reflexivity].
    apply Qltb_lt in E. lra.
Qed.

(** ** The keyframe gate *)

Section GateFacts.

Variable cfg : config.
Variable Frame : Type.
Variable similarity : Frame -> Frame -> Q.

Local Abbreviation gate := (is_keyframe cfg Frame similarity).
Local Abbreviation gate_run := (evaluate_all cfg Frame similarity).

Lemma is_keyframe_cold cam frame now :
  previous_frame cam = None ->
  gate cam frame now
  = ((true, 0%Q),
     {| previous_frame := Some frame;
        frame_count := frame_count cam;
        keyframe_count := S (keyframe_count cam);
        last_keyframe_time := now |}).
Proof. intros Hnone. unfold is_keyframe. rewrite Hnone. reflexivity. Qed.

Lemma is_keyframe_warm cam ref frame now :
  previous_frame cam = Some ref ->
  (gate cam frame now).1
  = (Qltb (similarity frame ref) (KEYFRAME_THRESHOLD cfg), similarity frame ref)
  /\ previous_frame (gate cam frame now).2
     = Some (if Qltb (similarity frame ref) (KEYFRAME_THRESHOLD cfg)
             then frame else ref).
Proof.
  intros Href. unfold is_keyframe. rewrite Href. simpl.
  destruct (Qltb (similarity frame ref) (KEYFRAME_THRESHOLD cfg)); simpl; auto.
Qed.

Lemma is_keyframe_reference cam frame now :
  exists ref, previous_frame (gate cam frame now).2 = Some ref.
Proof.
  destruct (previous_frame cam) as [ref |] eqn:E.
  - destruct (is_keyframe_warm cam ref frame now E) as [_ ->]. eauto.
  - rewrite (is_keyframe_cold cam frame now E). simpl. eauto.
Qed.

Lemma evaluate_all_snoc before : forall cam frame now,
  gate_run cam (before ++ [(frame, now)])
  = ((gate_run cam before).1
       ++ [(gate (gate_run cam before).2 frame now).1.1],
     (gate (gate_run cam before).2 frame now).2).
Proof.
  induction before as [| [f t] before IH]; intros cam frame now; simpl.
  - destruct (gate cam frame now) as [[kf sim] cam']. reflexivity.
  - destruct (gate cam f t) as [[kf sim] cam'].
    rewrite IH.
    destruct (gate_run cam' before) as [verdicts cam'']. reflexivity.
Qed.

Lemma evaluate_all_reference frames : forall cam,
  (frames <> [] \/ previous_frame cam <> None) ->
  exists ref, previous_frame (gate_run cam frames).2 = Some ref.
Proof.
  induction frames as [| [f t] frames IH]; intros cam Hor; simpl.
  - destruct Hor as [H | H]; [congruence |].
    destruct (previous_frame cam); [eauto | congruence].
  - destruct (is_keyframe_reference cam f t) as [ref Href].
    destruct (gate cam f t) as [[kf sim] cam'].
    destruct (IH cam') as [ref' Href'].
    { right. simpl in Href. congruence. }
    destruct (gate_run cam' frames) as [verdicts cam'']. eauto.
Qed.

End GateFacts.

(** C7.  For a threshold in (0, 1], the default 0.85 included: the first
    frame evaluated is a keyframe whatever it shows and becomes the
    reference; afterwards a frame is a keyframe exactly when its similarity
    to the reference is strictly below the threshold; a frame with
    similarity 1 does not trigger and leaves the reference in place; a frame
    with similarity 0 or less triggers; every keyframe becomes the new
    reference; and in a run over a sequence of frames each verdict after the
    first is the verdict of [is_keyframe] against the reference left by the
    frames before it. *)
Theorem keyframe_gate (cfg : config) (Frame : Type)
    (similarity : Frame -> Frame -> Q) :
  (0 < KEYFRAME_THRESHOLD cfg)%Q -> (KEYFRAME_THRESHOLD cfg <= 1)%Q ->
  (forall frame now,
     (is_keyframe cfg Frame similarity (CameraSubsystem_init Frame) frame now).1.1
     = true
     /\ previous_frame
          (is_keyframe cfg Frame similarity (CameraSubsystem_init Frame) frame now).2
        = Some frame)
  /\ (forall cam ref frame now,
        previous_frame cam = Some ref ->
        let r := is_keyframe cfg Frame similarity cam frame now in
        r.1.2 = similarity frame ref
        /\ (r.1.1 = true <-> (similarity frame ref < KEYFRAME_THRESHOLD cfg)%Q)
        /\ previous_frame r.2 = Some (if r.1.1 then frame else ref)
        /\ ((similarity frame ref == 1)%Q ->
            r.1.1 = false /\ previous_frame r.2 = Some ref)
        /\ ((similarity frame ref <= 0)%Q ->
            r.1.1 = true /\ previous_frame r.2 = Some frame))
  /\ (forall frame now rest,
        exists verdicts,
          (evaluate_all cfg Frame similarity (CameraSubsystem_init Frame)
             ((frame, now) :: rest)).1
          = true :: verdicts)
  /\ (forall first before frame now,
        let cam := (evaluate_all cfg Frame similarity (CameraSubsystem_init Frame)
                      (first :: before)).2 in
        exists ref,
          previous_frame cam = Some ref
          /\ (evaluate_all cfg Frame similarity (CameraSubsystem_init Frame)
                ((first :: before) ++ [(frame, now)])).1
             = (evaluate_all cfg Frame similarity (CameraSubsystem_init Frame)
                  (first :: before)).1
               ++ [Qltb (similarity frame ref) (KEYFRAME_THRESHOLD cfg)]).
Proof.
  intros Hpos Hle1. split; [| split; [| split]].
  - intros frame now. rewrite is_keyframe_cold by reflexivity. auto.
  - intros cam ref frame now Href r.
    destruct (is_keyframe_warm cfg Frame similarity cam ref frame now Href)
      as [H1 H2].
    fold r in H1, H2. rewrite H2. destruct r as [[kf sim] cam']. simpl in *.
    injection H1 as -> ->. repeat split.
    + apply Qltb_lt.
    + apply Qltb_lt.
    + apply Qltb_ge. lra.
    + rewrite (proj2 (Qltb_ge _ _)) by lra. reflexivity.
    + apply Qltb_lt. lra.
    + rewrite (proj2 (Qltb_lt _ _)) by lra. reflexivity.
  - intros frame now rest. simpl.
    destruct (evaluate_all cfg Frame similarity _ rest) as [verdicts cam'].
    exists verdicts. reflexivity.
  - intros first before frame now cam.
    destruct (evaluate_all_reference cfg Frame similarity (first :: before)
                (CameraSubsystem_init Frame)) as [ref Href].
    { left. discriminate. }
    exists ref. split; [exact Href |].
    rewrite evaluate_all_snoc. cbn [fst]. f_equal. f_equal.
    destruct (is_keyframe_warm cfg Frame similarity _ ref frame now Href)
      as [H1 _].
    rewrite H1. reflexivity.
Qed.

Lemma keyframe_gate_default :
  (0 < KEYFRAME_THRESHOLD default_config)%Q
  /\ (KEYFRAME_THRESHOLD default_config <= 1)%Q
  /\ (same_frame_similarity 1 1 == 1)%Q
  /\ (same_frame_similarity 2 1 <= 0)%Q
  /\ (is_keyframe default_config nat same_frame_similarity camera_at_frame_1
        1%nat (1001 # 1)).1.1 = false
  /\ (is_keyframe default_config nat same_frame_similarity camera_at_frame_1
        2%nat (1001 # 1)).1.1 = true
  /\ previous_frame
       (is_keyframe default_config nat same_frame_similarity camera_at_frame_1
          2%nat (1001 # 1)).2 = Some 2%nat.
Proof.
  split; [q_eval |]. split; [q_eval |]. split; [q_eval |]. split; [q_eval |].
  pose proof (keyframe_gate default_config nat same_frame_similarity
                ltac:(q_eval) ltac:(q_eval)) as (_ & H & _).
  pose proof (H camera_at_frame_1 1%nat 1%nat (1001 # 1) eq_refl) as H1.
  pose proof (H camera_at_frame_1 1%nat 2%nat (1001 # 1) eq_refl) as H2.
  cbv zeta in H1, H2.
  destruct H1 as (_ & _ & _ & H1 & _). destruct H2 as (_ & _ & _ & _ & H2).
  split; [apply H1; q_eval |]. apply H2; q_eval.
Defined.

(** ** Persistence *)

Lemma Forall_deque_append {A : Type} (P : A -> Prop) maxlen (d : list A) x :
  Forall P d -> P x -> Forall P (deque_append maxlen d x).
Proof.
  intros Hd Hx. unfold deque_append.
  assert (Hall : Forall P (d ++ [x])) by (apply Forall_app; auto).
  destruct (maxlen <? length (d ++ [x]))%nat; [apply Forall_drop |]; exact Hall.
Qed.

Section PersistenceFacts.

Variable cfg : config.
Variable strftime : Q -> string.

Lemma from_dict_to_dict c now :
  truthy (timestamp c) = true -> from_dict (to_dict strftime c) now = c.
Proof.
  intros Ht. destruct c as [c t]. unfold from_dict, to_dict, MemoryChunk_init.
  simpl in *. rewrite Ht. reflexivity.
Qed.

Lemma from_dict_stamped data now :
  truthy now = true -> truthy (timestamp (from_dict data now)) = true.
Proof.
  intros Hnow. unfold from_dict, MemoryChunk_init. simpl.
  destruct (truthy (d_timestamp data)) eqn:E; assumption.
Qed.

(** The first loop of [load_from_file] is a run of appends of the rebuilt
    entries. *)
Lemma load_chunks_foldl now_at entries : forall i acc,
  load_chunks cfg now_at i acc entries
  = foldl (deque_append (MAX_MEMORY_CHUNKS cfg)) acc
      (imap (fun k data => from_dict data (now_at (i + k)%nat)) entries).
Proof.
  induction entries as [| e entries IH]; intros i acc; simpl; [reflexivity |].
  rewrite IH. rewrite Nat.add_0_r. f_equal.
  apply imap_ext. intros k x _. simpl. f_equal. f_equal. lia.
Qed.

Lemma load_summaries_app now_at entries : forall i acc,
  load_summaries now_at i acc entries
  = acc ++ imap (fun k data => from_dict data (now_at (i + k)%nat)) entries.
Proof.
  induction entries as [| e entries IH]; intros i acc; simpl.
  - rewrite app_nil_r. reflexivity.
  - rewrite IH, <- app_assoc, Nat.add_0_r. simpl. f_equal. f_equal.
    apply imap_ext. intros k x _. simpl. f_equal. f_equal. lia.
Qed.

Lemma imap_from_dict_to_dict now_at (l : list MemoryChunk) : forall i,
  Forall (fun c => truthy (timestamp c) = true) l ->
  imap (fun k data => from_dict data (now_at (i + k)%nat)) (map (to_dict strftime) l)
  = l.
Proof.
  induction l as [| c l IH]; intros i Hall; simpl; [reflexivity |].
  inversion Hall as [| ? ? Hc Hl]; subst.
  rewrite from_dict_to_dict by exact Hc. f_equal.
  rewrite <- (IH (S i) Hl) at 2.
  apply imap_ext. intros k x _. simpl. f_equal. f_equal. lia.
Qed.

Lemma imap_from_dict_stamped now_at (entries : list ChunkDict) : forall i,
  (forall k, truthy (now_at k) = true) ->
  Forall (fun c => truthy (timestamp c) = true)
    (imap (fun k data => from_dict data (now_at (i + k)%nat)) entries).
Proof.
  induction entries as [| e entries IH]; intros i Hclock; simpl.
  - constructor.
  - constructor; [apply from_dict_stamped, Hclock |].
    specialize (IH (S i) Hclock).
    erewrite imap_ext; [exact IH |].
    intros k x _. simpl. f_equal. f_equal. lia.
Qed.

Lemma Forall_foldl_deque_append {A : Type} (P : A -> Prop) maxlen (xs : list A) :
  forall d, Forall P d -> Forall P xs ->
  Forall P (foldl (deque_append maxlen) d xs).
Proof.
  induction xs as [| x xs IH]; intros d Hd Hxs; simpl; [exact Hd |].
  inversion Hxs; subst. apply IH; [apply Forall_deque_append |]; assumption.
Qed.

Lemma run_operation_stamped m op :
  clock_nonzero op -> stamped m -> stamped (run_operation cfg m op).
Proof.
  intros Hclk [Hc Hs]. destruct op; simpl in *.
  - split; [apply Forall_deque_append |]; assumption.
  - split; [apply Forall_deque_append |]; assumption.
  - split; [apply Forall_deque_append |]; assumption.
  - unfold add_ocr_event. destruct (ocr_text_present ocr_data).
    + split; [apply Forall_deque_append |]; assumption.
    + split; assumption.
  - assert (Hcase : memory_chunks m = [] \/ memory_chunks m <> []).
    { destruct (memory_chunks m); [left; reflexivity | right; discriminate]. }
    destruct Hcase as [He | Hne].
    + rewrite (create_summary_empty m clk He). split; assumption.
    + rewrite (create_summary_nonempty m clk Hne). split; simpl; [assumption |].
      apply Forall_app. split; [assumption |]. constructor; [| constructor].
      exact Hclk.
  - assert (Hchunks : forall entries,
              Forall (fun c => truthy (timestamp c) = true)
                (load_chunks cfg now_at 0 [] entries)).
    { intros entries. rewrite load_chunks_foldl.
      apply Forall_foldl_deque_append; [constructor |].
      apply imap_from_dict_stamped, Hclk. }
    assert (Hsummaries : forall i entries,
              Forall (fun c => truthy (timestamp c) = true)
                (load_summaries now_at i [] entries)).
    { intros i entries. rewrite load_summaries_app. simpl.
      apply imap_from_dict_stamped, Hclk. }
    destruct file; simpl; try (split; assumption); split; simpl;
      solve [apply Hchunks | apply Hsummaries | assumption].
  - split; constructor.
Qed.

Lemma run_operations_stamped ops : forall m,
  Forall clock_nonzero ops -> stamped m -> stamped (run_operations cfg m ops).
Proof.
  induction ops as [| op ops IH]; intros m Hops Hm; simpl; [exact Hm |].
  inversion Hops; subst. apply IH; [| apply run_operation_stamped]; assumption.
Qed.

End PersistenceFacts.

(** C8.  For a store within capacity (whose chunks carry the timestamps the
    constructor gave them, which are never zero), loading the document
    written by [save_to_file] into any other store gives back the same
    buffer and the same summaries, chunk for chunk with content and
    timestamp, and the same session start and interaction count.  Loading a
    document with more than [MAX_MEMORY_CHUNKS] events keeps exactly the
    last [MAX_MEMORY_CHUNKS] of them, in order.  Stores reached from a new
    one by operations whose clock readings are not zero always carry such
    timestamps and are within capacity. *)
Theorem save_load_roundtrip (cfg : config) (strftime : Q -> string) :
  (forall m fresh now now_at,
     within_capacity cfg m -> stamped m ->
     let r := load_from_file cfg fresh (Parsed (save_to_file strftime m)) now now_at in
     r.1 = true
     /\ memory_chunks r.2 = memory_chunks m
     /\ summaries r.2 = summaries m
     /\ session_start_time r.2 = session_start_time m
     /\ total_interactions r.2 = total_interactions m)
  /\ (forall fresh data entries now now_at,
        doc_memory_chunks data = Some entries ->
        (MAX_MEMORY_CHUNKS cfg < length entries)%nat ->
        let r := load_from_file cfg fresh (Parsed data) now now_at in
        memory_chunks r.2
        = drop (length entries - MAX_MEMORY_CHUNKS cfg)
            (imap (fun i chunk_data => from_dict chunk_data (now_at i)) entries)
        /\ length (memory_chunks r.2) = MAX_MEMORY_CHUNKS cfg)
  /\ (forall now1 now2 ops,
        Forall clock_nonzero ops ->
        let m := run_operations cfg (MemorySubsystem_init now1 now2) ops in
        within_capacity cfg m /\ stamped m)
  /\ (forall now1 now2 ops fresh now now_at,
        Forall clock_nonzero ops ->
        let m := run_operations cfg (MemorySubsystem_init now1 now2) ops in
        let r := load_from_file cfg fresh (Parsed (save_to_file strftime m)) now now_at in
        r.1 = true
        /\ memory_chunks r.2 = memory_chunks m
        /\ summaries r.2 = summaries m).
Proof.
  assert (Hreach : forall now1 now2 ops,
            Forall clock_nonzero ops ->
            let m := run_operations cfg (MemorySubsystem_init now1 now2) ops in
            within_capacity cfg m /\ stamped m).
  { intros now1 now2 ops Hops m. split.
    - apply run_operations_capacity. unfold within_capacity. simpl. lia.
    - apply run_operations_stamped; [exact Hops |]. split; constructor. }
  assert (Hround : forall m fresh now now_at,
            within_capacity cfg m -> stamped m ->
            let r := load_from_file cfg fresh (Parsed (save_to_file strftime m))
                       now now_at in
            r.1 = true
            /\ memory_chunks r.2 = memory_chunks m
            /\ summaries r.2 = summaries m
            /\ session_start_time r.2 = session_start_time m
            /\ total_interactions r.2 = total_interactions m);
    [| split; [exact Hround | split; [| split; [exact Hreach |]]]].
  - intros m fresh now now_at Hcap [Hc Hs]. simpl. repeat split.
    + rewrite load_chunks_foldl.
      rewrite (imap_from_dict_to_dict strftime now_at _ 0 Hc).
      rewrite foldl_deque_append by (simpl; lia). simpl.
      unfold within_capacity in Hcap.
      replace (length (memory_chunks m) - MAX_MEMORY_CHUNKS cfg)%nat
        with 0%nat by lia.
      reflexivity.
    + rewrite load_summaries_app. simpl.
      apply (imap_from_dict_to_dict strftime). exact Hs.
  - intros fresh data entries now now_at Hentries Hlen. simpl.
    rewrite Hentries. simpl.
    rewrite load_chunks_foldl, foldl_deque_append by (simpl; lia). simpl.
    rewrite length_drop, !length_imap. split; [reflexivity | lia].
  - intros now1 now2 ops fresh now now_at Hops m r.
    destruct (Hreach now1 now2 ops Hops) as [Hcap Hst].
    destruct (Hround m fresh now now_at Hcap Hst) as (H1 & H2 & H3 & _).
    auto.
Qed.

Lemma save_load_roundtrip_example :
  let strftime : Q -> string := fun _ => "2026-01-01 00:00:00" in
  let m0 := MemorySubsystem_init (1000 # 1) (1000 # 1) in
  let m1 := add_keyframe default_config m0
              {| fd_ocr_text := Some "def f(x):"; fd_confidence := Some (9 # 10) |}
              (1001 # 1) in
  let m := add_question default_config m1
             {| qd_text := "What does this do?"; qd_confidence := None |}
             (1002 # 1) in
  let fresh := MemorySubsystem_init (2000 # 1) (2000 # 1) in
  let r := load_from_file default_config fresh (Parsed (save_to_file strftime m))
             (2000 # 1) (fun _ => 2000 # 1) in
  within_capacity default_config m
  /\ stamped m
  /\ memory_chunks r.2 = memory_chunks m
  /\ summaries r.2 = summaries m.
Proof.
  cbv zeta.
  assert (Hcap : within_capacity default_config
            (add_question default_config
               (add_keyframe default_config
                  (MemorySubsystem_init (1000 # 1) (1000 # 1))
                  {| fd_ocr_text := Some "def f(x):"; fd_confidence := Some (9 # 10) |}
                  (1001 # 1))
               {| qd_text := "What does this do?"; qd_confidence := None |}
               (1002 # 1))).
  { unfold within_capacity. simpl. lia. }
  assert (Hst : stamped
            (add_question default_config
               (add_keyframe default_config
                  (MemorySubsystem_init (1000 # 1) (1000 # 1))
                  {| fd_ocr_text := Some "def f(x):"; fd_confidence := Some (9 # 10) |}
                  (1001 # 1))
               {| qd_text := "What does this do?"; qd_confidence := None |}
               (1002 # 1))).
  { split; simpl; repeat constructor. }
  split; [exact Hcap |]. split; [exact Hst |].
  pose proof (proj1 (save_load_roundtrip default_config
                       (fun _ => "2026-01-01 00:00:00")) _
                (MemorySubsystem_init (2000 # 1) (2000 # 1)) (2000 # 1)
                (fun _ => 2000 # 1) Hcap Hst) as H.
  cbv zeta in H. destruct H as (_ & H1 & H2 & _).
  split; [exact H1 | exact H2].
Defined.

(** ** The audio pipeline *)

Section AudioFacts.

Variable cfg : config.
Variable AUDIO_AVAILABLE : bool.

Local Abbreviation detect := (detect_voice_activity cfg AUDIO_AVAILABLE).
Local Abbreviation pipeline := (process_audio_stream cfg AUDIO_AVAILABLE).
Local Abbreviation capture := (capture_audio_chunk AUDIO_AVAILABLE).

Lemma detect_keeps_voiceprint a inp chunk :
  user_voiceprint (detect a inp chunk).2 = user_voiceprint a.
Proof.
  unfold detect_voice_activity.
  destruct (if AUDIO_AVAILABLE then vad a else None) as [detector |];
    [| reflexivity].
  destruct (_ <? _); [reflexivity |].
  destruct (detector _ _) as [[|] |]; try reflexivity.
  destruct (frombuffer_int16 chunk); reflexivity.
Qed.

Lemma detect_unavailable a inp chunk :
  AUDIO_AVAILABLE = false \/ vad a = None ->
  detect a inp chunk = (Returns (Qltb (vad_draw inp) (2 # 10)), a).
Proof.
  intros H. unfold detect_voice_activity.
  destruct H as [-> | ->]; [reflexivity |].
  destruct AUDIO_AVAILABLE; reflexivity.
Qed.

Lemma pipeline_no_speech a inp chunk a1 :
  capture a inp = Some chunk ->
  detect a inp chunk = (Returns false, a1) ->
  pipeline a inp = ([CaptureStage; VoiceActivityStage], Returns None, a1).
Proof.
  intros Hcap Hdet. unfold process_audio_stream. rewrite Hcap, Hdet. reflexivity.
Qed.

Lemma pipeline_user a inp chunk a1 a2 :
  capture a inp = Some chunk ->
  detect a inp chunk = (Returns true, a1) ->
  is_user_speaking cfg a1 inp = (Returns true, a2) ->
  pipeline a inp
  = ([CaptureStage; VoiceActivityStage; SpeakerStage], Returns None, a2).
Proof.
  intros Hcap Hdet Husr. unfold process_audio_stream.
  rewrite Hcap, Hdet, Husr. reflexivity.
Qed.

Lemma pipeline_other a inp chunk a1 a2 :
  capture a inp = Some chunk ->
  detect a inp chunk = (Returns true, a1) ->
  is_user_speaking cfg a1 inp = (Returns false, a2) ->
  pipeline a inp
  = ([CaptureStage; VoiceActivityStage; SpeakerStage; TranscribeStage],
     Returns (if tr_is_question (transcribe_speech cfg inp)
              then Some (transcribe_speech cfg inp) else None),
     a2).
Proof.
  intros Hcap Hdet Husr. unfold process_audio_stream.
  rewrite Hcap, Hdet, Husr. reflexivity.
Qed.

Lemma is_user_speaking_verdict a inp voiceprint sim :
  user_voiceprint a = Some voiceprint ->
  dot (embedding inp) voiceprint = Returns sim ->
  (is_user_speaking cfg a inp).1
  = Returns (Qltb (SPEAKER_ID_THRESHOLD cfg) sim)
  /\ (Qltb (SPEAKER_ID_THRESHOLD cfg) sim = true ->
      (is_user_speaking cfg a inp).2 = a).
Proof.
  intros Hv Hdot. unfold is_user_speaking. rewrite Hv, Hdot. simpl.
  split; [reflexivity |]. intros ->. reflexivity.
Qed.

Lemma is_user_speaking_no_voiceprint a inp :
  user_voiceprint a = None -> is_user_speaking cfg a inp = (Returns false, a).
Proof. intros Hv. unfold is_user_speaking. rewrite Hv. reflexivity. Qed.

End AudioFacts.

(** C10.  Without a stored voiceprint [is_user_speaking] answers "not the
    user" for every input and leaves the state alone, so a chunk in which
    voice activity was detected always reaches the transcriber. *)
Theorem no_voiceprint_never_filters (cfg : config) (AUDIO_AVAILABLE : bool)
    (a : AudioSubsystem) (inp : AudioInputs) :
  user_voiceprint a = None ->
  is_user_speaking cfg a inp = (Returns false, a)
  /\ (forall audio_chunk a1,
        capture_audio_chunk AUDIO_AVAILABLE a inp = Some audio_chunk ->
        detect_voice_activity cfg AUDIO_AVAILABLE a inp audio_chunk
        = (Returns true, a1) ->
        process_audio_stream cfg AUDIO_AVAILABLE a inp
        = ([CaptureStage; VoiceActivityStage; SpeakerStage; TranscribeStage],
           Returns (if tr_is_question (transcribe_speech cfg inp)
                    then Some (transcribe_speech cfg inp) else None),
           a1)).
Proof.
  intros Hv. split; [apply is_user_speaking_no_voiceprint, Hv |].
  intros chunk a1 Hcap Hdet.
  apply (pipeline_other cfg AUDIO_AVAILABLE a inp chunk a1 a1 Hcap Hdet).
  apply is_user_speaking_no_voiceprint.
  pose proof (detect_keeps_voiceprint cfg AUDIO_AVAILABLE a inp chunk) as Hk.
  rewrite Hdet in Hk. simpl in Hk. congruence.
Qed.

Lemma no_voiceprint_never_filters_example :
  user_voiceprint (listening None) = None
  /\ is_user_speaking default_config (listening None)
       (heard loud_chunk (1 # 10) unit_voiceprint)
     = (Returns false, listening None).
Proof.
  split; [reflexivity |].
  apply (no_voiceprint_never_filters default_config false (listening None)
           (heard loud_chunk (1 # 10) unit_voiceprint)).
  reflexivity.
Defined.

(** *** Cosine similarity of normalized vectors *)

Lemma dot_self (v : list Q) : dot v v = Returns (norm_squared v).
Proof.
  induction v as [| x v IH]; [reflexivity |].
  cbn [dot norm_squared foldr]. rewrite IH. reflexivity.
Qed.

Lemma dot_same_length (a : list Q) : forall b,
  length a = length b -> exists d, dot a b = Returns d.
Proof.
  induction a as [| x a IH]; intros [| y b] Hlen; try discriminate.
  - exists 0%Q. reflexivity.
  - injection Hlen as Hlen. destruct (IH b Hlen) as [r Hr].
    exists (x * y + r)%Q. cbn [dot]. rewrite Hr. reflexivity.
Qed.

(** For two vectors of unit length the cosine similarity is the inner
    product. *)
Lemma cosine_of_unit_vectors (a b : list Q) (c d : Q) :
  unit_length a -> unit_length b ->
  dot a b = Returns d ->
  (cosine_similarity a b c <-> (c == d)%Q).
Proof.
  unfold unit_length. intros Ha Hb Hdot. split.
  - intros (d' & Hd' & _ & Hs & Hc).
    rewrite Hdot in Hd'. injection Hd' as <-.
    rewrite Ha, Hb in Hc.
    assert (Hprod : ((c - d) * (c + d) == 0)%Q)
      by (ring_simplify; ring_simplify in Hc; lra).
    destruct (Qmult_integral _ _ Hprod) as [H | H]; [lra |].
    assert (Hd : (d * d == 0)%Q).
    { assert (Hcd : (c * d == - (d * d))%Q).
      { assert (Hc' : (c == - d)%Q) by lra. rewrite Hc'. ring. }
      assert (0 <= d * d)%Q by nra.
      lra. }
    destruct (Qmult_integral _ _ Hd) as [H0 | H0]; lra.
  - intros Hcd. exists d. split; [exact Hdot |].
    rewrite Ha, Hb, Hcd. split; [lra |]. split; [nra | ring].
Qed.

(** C3, as the code has it.  For a stored voiceprint of unit length, a
    normalized embedding and every threshold in [0, 1), the default 0.75
    included: the speaker is classified as the user exactly when the cosine
    similarity of the embedding and the voiceprint is strictly above the
    threshold; an embedding with cosine similarity 1, such as the voiceprint
    itself, is classified as the user, the state is left alone and the
    pipeline returns nothing without entering the transcriber; an embedding
    with cosine similarity 0 is classified as not the user.  The cosine
    similarity exists whenever the two vectors have the same size. *)
Theorem speaker_filter (cfg : config) (AUDIO_AVAILABLE : bool) :
  (0 <= SPEAKER_ID_THRESHOLD cfg)%Q -> (SPEAKER_ID_THRESHOLD cfg < 1)%Q ->
  forall a inp voiceprint,
    user_voiceprint a = Some voiceprint ->
    unit_length voiceprint ->
    unit_length (embedding inp) ->
    (forall c,
       cosine_similarity (embedding inp) voiceprint c ->
       ((is_user_speaking cfg a inp).1 = Returns true
        <-> (SPEAKER_ID_THRESHOLD cfg < c)%Q)
       /\ ((c == 1)%Q -> is_user_speaking cfg a inp = (Returns true, a))
       /\ ((c == 0)%Q -> (is_user_speaking cfg a inp).1 = Returns false)
       /\ ((SPEAKER_ID_THRESHOLD cfg < c)%Q ->
           forall a0 audio_chunk,
             capture_audio_chunk AUDIO_AVAILABLE a0 inp = Some audio_chunk ->
             detect_voice_activity cfg AUDIO_AVAILABLE a0 inp audio_chunk
             = (Returns true, a) ->
             process_audio_stream cfg AUDIO_AVAILABLE a0 inp
             = ([CaptureStage; VoiceActivityStage; SpeakerStage], Returns None, a)))
    /\ (embedding inp = voiceprint ->
        cosine_similarity (embedding inp) voiceprint 1
        /\ is_user_speaking cfg a inp = (Returns true, a))
    /\ (length (embedding inp) = length voiceprint ->
        exists c, cosine_similarity (embedding inp) voiceprint c).
Proof.
  intros Hlo Hhi a inp voiceprint Hv Hvp Hemb.
  assert (Hcos : forall c,
            cosine_similarity (embedding inp) voiceprint c ->
            exists sim,
              dot (embedding inp) voiceprint = Returns sim /\ (c == sim)%Q).
  { intros c Hc. destruct Hc as (d & Hdot & Hrest).
    exists d. split; [exact Hdot |].
    apply (cosine_of_unit_vectors (embedding inp) voiceprint c d Hemb Hvp Hdot).
    exists d. split; [exact Hdot | exact Hrest]. }
  assert (Huser : forall c,
            cosine_similarity (embedding inp) voiceprint c ->
            (SPEAKER_ID_THRESHOLD cfg < c)%Q ->
            is_user_speaking cfg a inp = (Returns true, a)).
  { intros c Hc Hlt. destruct (Hcos c Hc) as (sim & Hdot & Heq).
    destruct (is_user_speaking_verdict cfg a inp voiceprint sim Hv Hdot)
      as [Hverdict Hstate].
    assert (Hb : Qltb (SPEAKER_ID_THRESHOLD cfg) sim = true)
      by (apply Qltb_lt; lra).
    specialize (Hstate Hb). rewrite Hb in Hverdict.
    destruct (is_user_speaking cfg a inp) as [v a']. simpl in *. congruence. }
  split; [| split].
  - intros c Hc. destruct (Hcos c Hc) as (sim & Hdot & Heq).
    destruct (is_user_speaking_verdict cfg a inp voiceprint sim Hv Hdot)
      as [Hverdict _].
    split; [| split; [| split]].
    + rewrite Hverdict. split.
      * intros H. injection H as H. apply Qltb_lt in H. lra.
      * intros H. assert (Hb : Qltb (SPEAKER_ID_THRESHOLD cfg) sim = true)
          by (apply Qltb_lt; lra).
        rewrite Hb. reflexivity.
    + intros H1. apply (Huser c Hc). lra.
    + intros H0. rewrite Hverdict. f_equal. apply Qltb_ge. lra.
    + intros Hlt a0 chunk Hcap Hdet.
      apply (pipeline_user cfg AUDIO_AVAILABLE a0 inp chunk a a Hcap Hdet).
      apply (Huser c Hc Hlt).
  - intros Hsame.
    assert (Hone : cosine_similarity (embedding inp) voiceprint 1).
    { apply (cosine_of_unit_vectors (embedding inp) voiceprint 1
               (norm_squared voiceprint) Hemb Hvp).
      - rewrite Hsame. apply dot_self.
      - unfold unit_length in Hvp. rewrite Hvp. reflexivity. }
    split; [exact Hone |]. apply (Huser 1%Q Hone Hhi).
  - intros Hlen. destruct (dot_same_length _ _ Hlen) as [d Hdot].
    exists d.
    apply (cosine_of_unit_vectors (embedding inp) voiceprint d d Hemb Hvp Hdot).
    reflexivity.
Qed.

Lemma speaker_filter_default :
  (0 <= SPEAKER_ID_THRESHOLD default_config)%Q
  /\ (SPEAKER_ID_THRESHOLD default_config < 1)%Q
  /\ unit_length unit_voiceprint
  /\ unit_length orthogonal_embedding
  /\ cosine_similarity unit_voiceprint unit_voiceprint 1
  /\ cosine_similarity orthogonal_embedding unit_voiceprint 0
  /\ is_user_speaking default_config (listening (Some unit_voiceprint))
       (heard loud_chunk (1 # 10) unit_voiceprint)
     = (Returns true, listening (Some unit_voiceprint))
  /\ (is_user_speaking default_config (listening (Some unit_voiceprint))
        (heard loud_chunk (1 # 10) orthogonal_embedding)).1
     = Returns false.
Proof.
  assert (Hlo : (0 <= SPEAKER_ID_THRESHOLD default_config)%Q) by q_eval.
  assert (Hhi : (SPEAKER_ID_THRESHOLD default_config < 1)%Q) by q_eval.
  assert (Hu : unit_length unit_voiceprint) by (unfold unit_length; q_eval).
  assert (Ho : unit_length orthogonal_embedding) by (unfold unit_length; q_eval).
  assert (Hsame : cosine_similarity unit_voiceprint unit_voiceprint 1).
  { eexists. split; [reflexivity |]. repeat split; q_eval. }
  assert (Horth : cosine_similarity orthogonal_embedding unit_voiceprint 0).
  { eexists. split; [reflexivity |]. repeat split; q_eval. }
  split; [exact Hlo |]. split; [exact Hhi |]. split; [exact Hu |].
  split; [exact Ho |]. split; [exact Hsame |]. split; [exact Horth |]. split.
  - apply (speaker_filter default_config false Hlo Hhi
             (listening (Some unit_voiceprint))
             (heard loud_chunk (1 # 10) unit_voiceprint)
             unit_voiceprint eq_refl Hu Hu).
    reflexivity.
  - destruct (speaker_filter default_config false Hlo Hhi
                (listening (Some unit_voiceprint))
                (heard loud_chunk (1 # 10) orthogonal_embedding)
                unit_voiceprint eq_refl Hu Ho) as (Hgeneral & _).
    apply (Hgeneral 0%Q Horth). reflexivity.
Defined.

(** C3 as stated fails at the threshold 1.0: the comparison is strict, so an
    embedding identical to the voiceprint (cosine similarity 1) is not
    classified as the user, and its question goes through the pipeline. *)
Lemma identical_voice_at_threshold_one :
  let cfg := set_speaker_threshold 1 default_config in
  let a := listening (Some unit_voiceprint) in
  let inp := heard loud_chunk (1 # 10) unit_voiceprint in
  (SPEAKER_ID_THRESHOLD cfg <= 1)%Q
  /\ embedding inp = unit_voiceprint
  /\ cosine_similarity (embedding inp) unit_voiceprint 1
  /\ (is_user_speaking cfg a inp).1 = Returns false
  /\ (process_audio_stream cfg false a inp).1
     = ([CaptureStage; VoiceActivityStage; SpeakerStage; TranscribeStage],
        Returns (Some {| tr_text := "What does this function do?";
                         tr_is_question := true;
                         tr_confidence := 9 # 10;
                         tr_timestamp := 1000 # 1 |})).
Proof.
  cbv zeta. split; [q_eval |]. split; [reflexivity |]. split; [| split].
  - eexists. split; [reflexivity |]. repeat split; q_eval.
  - reflexivity.
  - vm_compute. reflexivity.
Qed.

(** The comparison is made on the inner product, which [is_user_speaking]
    calls the cosine similarity.  The embedding is normalized where it is
    extracted, the voiceprint is not: for a voiceprint that is not of unit
    length the two differ.  A voiceprint half as long as the embedding and
    in its direction has cosine similarity 1 with it and is compared as 0.5,
    below the default threshold. *)
Lemma inner_product_of_short_voiceprint :
  cosine_similarity unit_voiceprint short_voiceprint 1
  /\ dot unit_voiceprint short_voiceprint = Returns (1 * (1 # 2) + (0 * 0 + 0))%Q
  /\ (is_user_speaking default_config (listening (Some short_voiceprint))
        (heard loud_chunk (1 # 10) unit_voiceprint)).1
     = Returns false.
Proof.
  split; [| split; reflexivity].
  eexists. split; [reflexivity |]. repeat split; q_eval.
Qed.

(** ** Voice activity *)

Lemma energy_exceeds_iff (arr : list Z) (threshold : Z) :
  energy_exceeds arr threshold = true
  <-> threshold * threshold * Z.of_nat (length arr) < sum_squares arr.
Proof.
  unfold energy_exceeds, mean_square. destruct arr as [| x arr].
  - simpl. split; [discriminate | lia].
  - rewrite Qltb_lt. unfold Qlt. cbn [Qnum Qden inject_Z].
    rewrite Z.mul_1_r.
    replace (Z.pos (Pos.of_nat (length (x :: arr))))
      with (Z.of_nat (length (x :: arr))).
    + reflexivity.
    + simpl length. rewrite <- Pos.of_nat_succ. lia.
Qed.

(** C9, as the code has it.  When the detector is missing (the audio
    libraries were not imported, or no detector was built) the verdict is
    the draw of the random mock, speech when the draw is below 0.2, whatever
    the frame holds.  When the detector is there: a chunk shorter than one
    30 ms frame is no speech; otherwise the detector's verdict is returned;
    and when the detector raises on the frame the energy heuristic decides,
    speech exactly when the mean square of the 16-bit samples exceeds the
    square of 500, that is when the root-mean-square amplitude exceeds 500.
    A chunk without speech makes the pipeline return nothing after the
    capture and voice-activity stages only. *)
Theorem voice_activity_fallback (cfg : config) (AUDIO_AVAILABLE : bool) :
  (forall a inp chunk,
     AUDIO_AVAILABLE = false \/ vad a = None ->
     detect_voice_activity cfg AUDIO_AVAILABLE a inp chunk
     = (Returns (Qltb (vad_draw inp) (2 # 10)), a))
  /\ (forall a inp chunk detector,
        AUDIO_AVAILABLE = true -> vad a = Some detector ->
        let frame_bytes := AUDIO_SAMPLE_RATE cfg * 30 / 1000 * 2 in
        let frame := take (Z.to_nat frame_bytes) chunk in
        (Z.of_nat (length chunk) < frame_bytes ->
         detect_voice_activity cfg AUDIO_AVAILABLE a inp chunk = (Returns false, a))
        /\ (frame_bytes <= Z.of_nat (length chunk) ->
            (forall is_speech,
               detector frame (AUDIO_SAMPLE_RATE cfg) = Some is_speech ->
               (detect_voice_activity cfg AUDIO_AVAILABLE a inp chunk).1
               = Returns is_speech)
            /\ (detector frame (AUDIO_SAMPLE_RATE cfg) = None ->
                forall audio_array,
                  frombuffer_int16 chunk = Returns audio_array ->
                  detect_voice_activity cfg AUDIO_AVAILABLE a inp chunk
                  = (Returns (energy_exceeds audio_array 500), a))
            /\ (detector frame (AUDIO_SAMPLE_RATE cfg) = None ->
                frombuffer_int16 chunk = Raises ->
                detect_voice_activity cfg AUDIO_AVAILABLE a inp chunk
                = (Raises, a))))
  /\ (forall audio_array,
        energy_exceeds audio_array 500 = true
        <-> 500 * 500 * Z.of_nat (length audio_array) < sum_squares audio_array)
  /\ (forall a inp chunk a1,
        capture_audio_chunk AUDIO_AVAILABLE a inp = Some chunk ->
        detect_voice_activity cfg AUDIO_AVAILABLE a inp chunk = (Returns false, a1) ->
        process_audio_stream cfg AUDIO_AVAILABLE a inp
        = ([CaptureStage; VoiceActivityStage], Returns None, a1)).
Proof.
  split; [| split; [| split]].
  - intros a inp chunk. apply detect_unavailable.
  - intros a inp chunk detector Hav Hvad frame_bytes frame.
    unfold detect_voice_activity. rewrite Hav, Hvad.
    fold frame_bytes. fold frame. split.
    + intros Hshort.
      destruct (Z.ltb_spec (Z.of_nat (length chunk)) frame_bytes); [reflexivity | lia].
    + intros Hlong.
      destruct (Z.ltb_spec (Z.of_nat (length chunk)) frame_bytes); [lia |].
      split; [| split].
      * intros is_speech ->. reflexivity.
      * intros -> audio_array ->. reflexivity.
      * intros -> ->. reflexivity.
  - intros audio_array. apply energy_exceeds_iff.
  - intros a inp chunk a1. apply pipeline_no_speech.
Qed.

Lemma voice_activity_fallback_example :
  let a := listening_with failing_detector in
  detect_voice_activity default_config true a
    (heard loud_chunk (1 # 2) unit_voiceprint) loud_chunk
  = (Returns true, a)
  /\ detect_voice_activity default_config true a
       (heard silent_chunk (1 # 10) unit_voiceprint) silent_chunk
     = (Returns false, a).
Proof.
  cbv zeta.
  pose proof (voice_activity_fallback default_config true) as (_ & H & _).
  split.
  - specialize (H (listening_with failing_detector)
                  (heard loud_chunk (1 # 2) unit_voiceprint) loud_chunk
                  failing_detector eq_refl eq_refl).
    cbv zeta in H. destruct H as [_ H].
    destruct (H ltac:(vm_compute; discriminate)) as (_ & H2 & _).
    erewrite (H2 eq_refl); [| vm_compute; reflexivity].
    vm_compute. reflexivity.
  - specialize (H (listening_with failing_detector)
                  (heard silent_chunk (1 # 10) unit_voiceprint) silent_chunk
                  failing_detector eq_refl eq_refl).
    cbv zeta in H. destruct H as [_ H].
    destruct (H ltac:(vm_compute; discriminate)) as (_ & H2 & _).
    erewrite (H2 eq_refl); [| vm_compute; reflexivity].
    vm_compute. reflexivity.
Defined.

(** C9 as stated fails when the detector is missing: a loud frame
    (root-mean-square amplitude 1000) is speech for the energy heuristic,
    but the mock detector with the draw 0.5 reports no speech and the
    pipeline drops the frame; a silent frame with the draw 0.1 is reported
    as speech. *)
Lemma missing_detector_ignores_energy :
  let a := listening None in
  (exists audio_array,
     frombuffer_int16 loud_chunk = Returns audio_array
     /\ energy_exceeds audio_array 500 = true)
  /\ detect_voice_activity default_config false a
       (heard loud_chunk (1 # 2) unit_voiceprint) loud_chunk
     = (Returns false, a)
  /\ detect_voice_activity default_config true a
       (heard loud_chunk (1 # 2) unit_voiceprint) loud_chunk
     = (Returns false, a)
  /\ process_audio_stream default_config false a
       (heard loud_chunk (1 # 2) unit_voiceprint)
     = ([CaptureStage; VoiceActivityStage], Returns None, a)
  /\ (exists audio_array,
        frombuffer_int16 silent_chunk = Returns audio_array
        /\ energy_exceeds audio_array 500 = false)
  /\ detect_voice_activity default_config false a
       (heard silent_chunk (1 # 10) unit_voiceprint) silent_chunk
     = (Returns true, a).
Proof.
  cbv zeta. split; [| split; [| split; [| split; [| split]]]].
  - eexists. split; [vm_compute; reflexivity | vm_compute; reflexivity].
  - reflexivity.
  - reflexivity.
  - reflexivity.
  - eexists. split; [vm_compute; reflexivity | vm_compute; reflexivity].
  - reflexivity.
Qed.

(** ** The visual step *)

Lemma text_changed_first ocr new_text :
  previous_text ocr = EmptyString ->
  ((_text_changed ocr new_text).1 = true <-> strip (chars new_text) <> []).
Proof.
  intros Hprev. unfold _text_changed. rewrite Hprev. simpl.
  destruct (bool_decide_reflect (strip (chars new_text) = [])) as [He | Hne];
    simpl; split; intros H; congruence.
Qed.

Lemma text_changed_later ocr new_text :
  previous_text ocr <> EmptyString ->
  ((_text_changed ocr new_text).1 = true
   <-> (token_overlap new_text (previous_text ocr) < 7 # 10)%Q).
Proof.
  intros Hprev. unfold _text_changed.
  destruct (previous_text ocr) as [| c rest] eqn:E; [congruence |].
  simpl. apply Qltb_lt.
Qed.

Lemma add_ocr_event_chunks cfg m text conf wc now :
  memory_chunks
    (add_ocr_event cfg m
       {| od_text := Some text;
          od_confidence := Some conf;
          od_word_count := Some wc |} now)
  = if bool_decide (text = EmptyString)
    then memory_chunks m
    else deque_append (MAX_MEMORY_CHUNKS cfg) (memory_chunks m)
           (MemoryChunk_init (OcrContent text conf wc) None now).
Proof.
  unfold add_ocr_event, ocr_text_present. simpl.
  destruct text as [| c rest]; reflexivity.
Qed.

(** C6, as the code has it.  A step that does not report a keyframe (no
    frame, or a frame that is not a keyframe) leaves the store alone.  On a
    keyframe the recognised text is compared with the text retained by the
    OCR subsystem: with nothing retained it counts as changed when it is not
    blank, otherwise when the share of its distinct tokens that also occur in
    the retained text is below 70%.  Only when the text counts as changed is
    anything appended: an OCR chunk, if the text is not empty, and then a
    keyframe chunk; a keyframe whose text does not count as changed appends
    nothing. *)
Theorem visual_step_events (cfg : config) (Frame : Type)
    (similarity : Frame -> Frame -> Q) (recognize : Frame -> string * Q)
    (s : MultimodalAssistant Frame) (captured : option Frame) (clk : FrameClock) :
  let r := process_camera_frame cfg Frame similarity recognize s captured clk in
  (r.1.2 = false -> memory r.2 = memory s)
  /\ (forall frame,
        captured = Some frame -> r.1.2 = true ->
        let res := (extract_text Frame recognize (ocr s) frame).1 in
        or_text res = (recognize frame).1
        /\ or_changed res = (_text_changed (ocr s) (recognize frame).1).1
        /\ (or_changed res = false -> memory r.2 = memory s)
        /\ (or_changed res = true -> or_text res <> EmptyString ->
            memory_chunks (memory r.2)
            = deque_append (MAX_MEMORY_CHUNKS cfg)
                (deque_append (MAX_MEMORY_CHUNKS cfg) (memory_chunks (memory s))
                   (ocr_chunk_of res (t_ocr_chunk clk)))
                (keyframe_chunk_of res (t_keyframe_chunk clk)))
        /\ (or_changed res = true -> or_text res = EmptyString ->
            memory_chunks (memory r.2)
            = deque_append (MAX_MEMORY_CHUNKS cfg) (memory_chunks (memory s))
                (keyframe_chunk_of res (t_keyframe_chunk clk))))
  /\ (forall new_text,
        (previous_text (ocr s) = EmptyString ->
         ((_text_changed (ocr s) new_text).1 = true
          <-> strip (chars new_text) <> []))
        /\ (previous_text (ocr s) <> EmptyString ->
            ((_text_changed (ocr s) new_text).1 = true
             <-> (token_overlap new_text (previous_text (ocr s)) < 7 # 10)%Q))).
Proof.
  intros r. split; [| split].
  - subst r. unfold process_camera_frame, get_frame_with_keyframe_detection.
    destruct captured as [frame |]; simpl; [| reflexivity].
    destruct (is_keyframe cfg Frame similarity _ frame (t_keyframe clk))
      as [[kf sim] cam'].
    destruct kf; [| reflexivity].
    destruct (extract_text Frame recognize (ocr s) frame) as [res ocr'].
    destruct (or_changed res); simpl; [discriminate | reflexivity].
  - intros frame -> Hkf res. subst r res.
    unfold process_camera_frame, get_frame_with_keyframe_detection in *.
    simpl in *.
    destruct (is_keyframe cfg Frame similarity _ frame (t_keyframe clk))
      as [[kf sim] cam'].
    destruct kf; [| simpl in Hkf; discriminate].
    unfold extract_text in *.
    destruct (recognize frame) as [extracted_text avg_confidence].
    cbn [fst] in *.
    destruct (_text_changed (ocr s) extracted_text) as [changed ocr'].
    simpl in *.
    split; [reflexivity |]. split; [reflexivity |].
    destruct changed; simpl.
    + split; [discriminate |].
      rewrite add_ocr_event_chunks.
      unfold ocr_chunk_of, keyframe_chunk_of. simpl. split.
      * intros _ Hne. rewrite bool_decide_eq_false_2 by exact Hne. reflexivity.
      * intros _ He. rewrite bool_decide_eq_true_2 by exact He. reflexivity.
    + split; [reflexivity |]. split; discriminate.
  - intros new_text. split.
    + apply text_changed_first.
    + apply text_changed_later.
Qed.

Lemma visual_step_events_example :
  let r := process_camera_frame default_config nat same_frame_similarity
             reads_hello (MultimodalAssistant_init nat 0 0) (Some 1%nat)
             (frame_clock 1) in
  r.1.2 = true
  /\ map chunk_type (memory_chunks (memory r.2)) = ["ocr"; "keyframe"].
Proof.
  cbv zeta. split; [reflexivity |].
  pose proof (visual_step_events default_config nat same_frame_similarity
                reads_hello (MultimodalAssistant_init nat 0 0) (Some 1%nat)
                (frame_clock 1)) as H.
  cbv zeta in H. destruct H as (_ & H & _).
  specialize (H 1%nat eq_refl eq_refl). cbv zeta in H.
  destruct H as (_ & _ & _ & H & _).
  rewrite (H ltac:(vm_compute; reflexivity) ltac:(vm_compute; discriminate)).
  vm_compute. reflexivity.
Defined.

(** C6 as stated fails on a keyframe whose text did not change: the second
    frame below differs from the reference (similarity 0) and is reported as
    a keyframe, the recogniser reads the same line as on the first, and no
    keyframe chunk (nor any other) is appended. *)
Lemma keyframe_with_unchanged_text :
  let step := process_camera_frame default_config nat same_frame_similarity
                reads_hello in
  let s1 := (step (MultimodalAssistant_init nat 0 0) (Some 1%nat) (frame_clock 1)).2 in
  let r2 := step s1 (Some 2%nat) (frame_clock 2) in
  r2.1 = (Some 2%nat, true)
  /\ memory_chunks (memory r2.2) = memory_chunks (memory s1)
  /\ map chunk_type (memory_chunks (memory r2.2)) = ["ocr"; "keyframe"]
  /\ length (filter (fun c => chunk_type c = "keyframe")
               (memory_chunks (memory r2.2))) = 1%nat.
Proof. cbv zeta. vm_compute. repeat split. Qed.

(** ** Text and patterns *)

Lemma char_lower_idem c : char_lower (char_lower c) = char_lower c.
Proof. destruct c as [[] [] [] [] [] [] [] []]; reflexivity. Qed.

Lemma char_lower_question_mark x : char_lower x = "?"%char -> x = "?"%char.
Proof.
  destruct x as [[] [] [] [] [] [] [] []]; vm_compute; intros H;
    first [reflexivity | discriminate H].
Qed.

Lemma lower_idem s : lower (lower s) = lower s.
Proof.
  unfold lower. rewrite map_map. apply map_ext. intros c. apply char_lower_idem.
Qed.

Lemma lower_lookup s i x :
  lower s = s -> s !! i = Some x -> char_lower x = x.
Proof.
  intros Hs Hx. assert (H : lower s !! i = Some (char_lower x)).
  { unfold lower. change (map char_lower s) with (char_lower <$> s).
    rewrite list_lookup_fmap, Hx. reflexivity. }
  rewrite Hs, Hx in H. congruence.
Qed.

Lemma lstrip_suffix s : exists blanks, s = blanks ++ lstrip s.
Proof.
  induction s as [| c s [blanks IH]]; simpl.
  - exists []. reflexivity.
  - destruct (is_space c).
    + exists (c :: blanks). simpl. congruence.
    + exists []. reflexivity.
Qed.

Lemma lstrip_head s c rest : lstrip s = c :: rest -> is_space c = false.
Proof.
  induction s as [| d s IH]; simpl; [discriminate |].
  destruct (is_space d) eqn:E; [exact IH |].
  intros H. injection H as -> _. exact E.
Qed.

Lemma rstrip_prefix s : exists blanks, s = rstrip s ++ blanks.
Proof.
  unfold rstrip. destruct (lstrip_suffix (rev s)) as [blanks H].
  exists (rev blanks). rewrite <- rev_app_distr, <- H, rev_involutive. reflexivity.
Qed.

Lemma rstrip_last s pre c : rstrip s = pre ++ [c] -> is_space c = false.
Proof.
  unfold rstrip. intros H.
  apply (f_equal (@rev ascii)) in H.
  rewrite rev_involutive, rev_app_distr in H. simpl in H.
  apply lstrip_head in H. exact H.
Qed.

Lemma lower_strip s : lower s = s -> lower (strip s) = strip s.
Proof.
  intros Hs. unfold strip.
  destruct (lstrip_suffix s) as [b1 H1].
  destruct (rstrip_prefix (lstrip s)) as [b2 H2].
  rewrite H2 in H1. rewrite H1 in Hs. unfold lower in *.
  rewrite !map_app in Hs.
  apply app_inj_1 in Hs as [_ Hs]; [| apply length_map].
  apply app_inj_1 in Hs as [Hs _]; [| apply length_map].
  exact Hs.
Qed.

Lemma endswith_suffix s suf : endswith s suf = true <-> suf `suffix_of` s.
Proof.
  unfold endswith. rewrite bool_decide_eq_true. split.
  - intros H. exists (take (length s - length suf) s).
    rewrite <- H at 2. symmetry. apply take_drop.
  - intros [pre ->]. rewrite length_app.
    apply drop_app_length'. lia.
Qed.

(** Matching a literal word in lowered text. *)
Lemma match_ends_literals cs s :
  lower cs = cs -> lower s = s ->
  forall i j,
    In j (match_ends true (foldr (fun c r => Cat (Lit c) r) Eps cs) s i)
    <-> j = (i + length cs)%nat /\ take (length cs) (drop i s) = cs.
Proof.
  intros Hcs Hs. induction cs as [| c cs IH]; intros i j; simpl.
  - split.
    + intros [<- | []]. split; [lia | reflexivity].
    + intros [-> _]. left. lia.
  - assert (Hc : char_lower c = c) by (unfold lower in Hcs; simpl in Hcs; congruence).
    assert (Hcs' : lower cs = cs) by (unfold lower in *; simpl in Hcs; congruence).
    specialize (IH Hcs').
    destruct (s !! i) as [x |] eqn:Hx.
    + pose proof (lower_lookup s i x Hs Hx) as Hlx.
      rewrite (drop_S s x i Hx). simpl.
      unfold lit_matches. rewrite Hc, Hlx.
      destruct (bool_decide_reflect (c = x)) as [-> | Hne]; simpl.
      * rewrite app_nil_r, IH. split.
        -- intros [-> Ht]. split; [lia | congruence].
        -- intros [-> Ht]. split; [lia | congruence].
      * split; [intros [] |]. intros [_ Ht]. congruence.
    + simpl. split; [intros [] |]. intros [_ Ht].
      apply lookup_ge_None in Hx. rewrite drop_ge in Ht by exact Hx.
      discriminate Ht.
Qed.

Lemma match_ends_word w s :
  lower (chars w) = chars w -> lower s = s ->
  forall i j,
    In j (match_ends true (word w) s i)
    <-> j = (i + length (chars w))%nat
        /\ take (length (chars w)) (drop i s) = chars w.
Proof. intros Hw Hs. apply match_ends_literals; assumption. Qed.

Lemma match_ends_one_of ws s i j :
  In j (match_ends true (one_of ws) s i)
  <-> exists w, In w ws /\ In j (match_ends true (word w) s i).
Proof.
  induction ws as [| w ws IH]; simpl.
  - split; [intros [] | intros [w [[] _]]].
  - rewrite in_app_iff, IH. split.
    + intros [H | [w' [Hin H]]]; [exists w | exists w']; auto.
    + intros [w' [[<- | Hin] H]]; [left | right; exists w']; auto.
Qed.

Lemma matches_at_iff ic r s i :
  matches_at ic r s i = true <-> exists j, In j (match_ends ic r s i).
Proof.
  unfold matches_at. destruct (match_ends ic r s i) as [| j js]; simpl.
  - split; [discriminate | intros [j []]].
  - split; [intros _; exists j; auto | reflexivity].
Qed.

Lemma re_search_iff ic r s :
  re_search ic r s = true
  <-> exists i j, (i <= length s)%nat /\ In j (match_ends ic r s i).
Proof.
  unfold re_search. rewrite existsb_exists. split.
  - intros [i [Hin Hm]]. apply in_seq in Hin. apply matches_at_iff in Hm as [j Hj].
    exists i, j. split; [lia | exact Hj].
  - intros [i [j [Hi Hj]]]. exists i. split.
    + apply in_seq. lia.
    + apply matches_at_iff. exists j. exact Hj.
Qed.

Lemma take_drop_infix (w s : list ascii) i :
  take (length w) (drop i s) = w -> (i <= length s)%nat ->
  s = take i s ++ w ++ drop (i + length w) s.
Proof.
  intros H Hi. rewrite <- H at 1.
  rewrite <- drop_drop, take_drop, take_drop. reflexivity.
Qed.

Lemma infix_take_drop (w pre post : list ascii) :
  take (length w) (drop (length pre) (pre ++ w ++ post)) = w.
Proof. rewrite drop_app_length. apply take_app_length. Qed.

Section ClassifierFacts.

Variable t : list ascii.
Hypothesis t_lowered : lower t = t.

Lemma search_question_mark :
  (forall pre c, t = pre ++ [c] -> is_space c = false) ->
  re_search true (Cat (Lit "?") Eol) t = true -> chars "?" `suffix_of` t.
Proof.
  intros Hlast Hsearch. apply re_search_iff in Hsearch as [i [j [Hi Hj]]].
  cbn [match_ends] in Hj.
  destruct (t !! i) as [x |] eqn:Hx; [| simpl in Hj; destruct Hj].
  destruct (lit_matches true "?" x) eqn:Hm; [| simpl in Hj; destruct Hj].
  unfold lit_matches in Hm. apply bool_decide_eq_true in Hm.
  symmetry in Hm. apply char_lower_question_mark in Hm. subst x.
  cbn [flat_map] in Hj. rewrite app_nil_r in Hj.
  destruct (at_eol t (S i)) eqn:Heol; [| destruct Hj].
  unfold at_eol in Heol. apply orb_true_iff in Heol as [Hend | Hnl].
  - apply bool_decide_eq_true in Hend.
    exists (take i t). change (chars "?") with ["?"%char].
    rewrite <- (take_S_r t i _ Hx), Hend.
    symmetry. apply firstn_all.
  - apply andb_true_iff in Hnl as [Hlen Hnl].
    apply bool_decide_eq_true in Hlen. apply bool_decide_eq_true in Hnl.
    assert (Ht : t = take (S i) t ++ ["010"%char]).
    { rewrite <- (take_S_r t (S i) _ Hnl), Hlen. symmetry. apply firstn_all. }
    apply Hlast in Ht. vm_compute in Ht. discriminate Ht.
Qed.

Lemma search_openers ws :
  Forall (fun w => lower (chars w) = chars w) ws ->
  (re_search true (Cat Bol (one_of ws)) t = true
   <-> exists w, In w ws /\ chars w `prefix_of` t).
Proof.
  intros Hws. rewrite re_search_iff. split.
  - intros [i [j [Hi Hj]]]. cbn [match_ends] in Hj.
    destruct (bool_decide_reflect (i = 0%nat)) as [-> | Hne];
      [| simpl in Hj; destruct Hj].
    cbn [flat_map] in Hj. rewrite app_nil_r in Hj.
    apply match_ends_one_of in Hj as [w [Hin Hj]].
    exists w. split; [exact Hin |].
    rewrite List.Forall_forall in Hws.
    apply (match_ends_word w t (Hws w Hin) t_lowered) in Hj as [_ Htake].
    rewrite drop_0 in Htake. exists (drop (length (chars w)) t).
    rewrite <- (take_drop (length (chars w)) t) at 1. rewrite Htake. reflexivity.
  - intros [w [Hin [rest Hrest]]]. exists 0%nat, (0 + length (chars w))%nat.
    split; [lia |]. cbn [match_ends]. rewrite bool_decide_eq_true_2 by reflexivity.
    cbn [flat_map]. rewrite app_nil_r.
    apply match_ends_one_of. exists w. split; [exact Hin |].
    rewrite List.Forall_forall in Hws.
    apply (match_ends_word w t (Hws w Hin) t_lowered).
    split; [reflexivity |]. rewrite drop_0, Hrest. apply take_app_length.
Qed.

Lemma search_phrases ws :
  Forall (fun w => lower (chars w) = chars w) ws ->
  (re_search true (one_of ws) t = true
   <-> exists w, In w ws /\ infix_of (chars w) t).
Proof.
  intros Hws. rewrite List.Forall_forall in Hws. rewrite re_search_iff. split.
  - intros [i [j [Hi Hj]]].
    apply match_ends_one_of in Hj as [w [Hin Hj]].
    exists w. split; [exact Hin |].
    apply (match_ends_word w t (Hws w Hin) t_lowered) in Hj as [_ Htake].
    exists (take i t), (drop (i + length (chars w)) t).
    apply take_drop_infix; assumption.
  - intros [w [Hin [pre [post Ht]]]].
    exists (length pre), (length pre + length (chars w))%nat. split.
    + rewrite Ht, length_app. lia.
    + apply match_ends_one_of. exists w. split; [exact Hin |].
      apply (match_ends_word w t (Hws w Hin) t_lowered).
      split; [reflexivity |]. rewrite Ht. apply infix_take_drop.
Qed.

End ClassifierFacts.

Lemma openers_lowered :
  Forall (fun w => lower (chars w) = chars w) interrogative_openers.
Proof. repeat (constructor; [reflexivity |]). constructor. Qed.

Lemma phrases_lowered :
  Forall (fun w => lower (chars w) = chars w) request_phrases.
Proof. repeat (constructor; [reflexivity |]). constructor. Qed.

(** *** From the transcript as it stands to the normalised text *)

(** Matching a literal word case-insensitively in any text. *)
Lemma match_ends_literals_ci cs s : forall i j,
  In j (match_ends true (foldr (fun c r => Cat (Lit c) r) Eps cs) s i)
  <-> j = (i + length cs)%nat /\ lower (take (length cs) (drop i s)) = lower cs.
Proof.
  induction cs as [| c cs IH]; intros i j; simpl.
  - split.
    + intros [<- | []]. split; [lia | reflexivity].
    + intros [-> _]. left. lia.
  - destruct (s !! i) as [x |] eqn:Hx.
    + rewrite (drop_S s x i Hx). cbn [take length lower map].
      fold (lower (take (length cs) (drop (S i) s))). fold (lower cs).
      destruct (bool_decide_reflect (char_lower c = char_lower x)) as [He | Hne].
      * cbn [flat_map]. rewrite app_nil_r, IH. split.
        -- intros [-> Ht]. split; [lia | congruence].
        -- intros [-> Ht]. split; [lia | congruence].
      * simpl. split; [intros [] |]. intros [_ Ht]. congruence.
    + simpl. split; [intros [] |]. intros [_ Ht].
      apply lookup_ge_None in Hx. rewrite drop_ge in Ht by exact Hx.
      discriminate Ht.
Qed.

Lemma lstrip_app_solid a c r :
  is_space c = false -> lstrip (a ++ c :: r) = lstrip a ++ c :: r.
Proof.
  intros Hc. induction a as [| d a IH]; simpl.
  - rewrite Hc. reflexivity.
  - destruct (is_space d); [exact IH | reflexivity].
Qed.

Lemma rstrip_app_solid a c b :
  is_space c = false -> rstrip (a ++ c :: b) = a ++ c :: rstrip b.
Proof.
  intros Hc. unfold rstrip.
  rewrite rev_app_distr. simpl. rewrite <- app_assoc. simpl.
  rewrite (lstrip_app_solid (rev b) c (rev a) Hc).
  rewrite rev_app_distr. simpl. rewrite rev_involutive.
  rewrite <- app_assoc. reflexivity.
Qed.

(** A run that begins and ends with code points that are not blank survives
    [strip] where it stands. *)
Lemma strip_keeps a w b c1 c2 :
  head w = Some c1 -> last w = Some c2 ->
  is_space c1 = false -> is_space c2 = false ->
  strip (a ++ w ++ b) = lstrip a ++ w ++ rstrip b.
Proof.
  intros Hhead Hlast Hc1 Hc2. unfold strip.
  destruct w as [| c w']; [discriminate |].
  simpl in Hhead. injection Hhead as ->.
  change (a ++ (c1 :: w') ++ b) with (a ++ c1 :: (w' ++ b)).
  rewrite (lstrip_app_solid a c1 (w' ++ b) Hc1).
  apply last_Some in Hlast as [w'' Hw].
  change (lstrip a ++ c1 :: w' ++ b) with (lstrip a ++ (c1 :: w') ++ b).
  rewrite Hw, <- !app_assoc. simpl.
  rewrite !app_assoc. rewrite (rstrip_app_solid _ c2 b Hc2).
  reflexivity.
Qed.

Lemma lower_app a b : lower (a ++ b) = lower a ++ lower b.
Proof. unfold lower. apply map_app. Qed.

Lemma lower_infix s i n :
  lower s
  = lower (take i s) ++ lower (take n (drop i s)) ++ lower (drop (i + n) s).
Proof.
  rewrite <- !lower_app. f_equal.
  rewrite <- drop_drop, take_drop, take_drop. reflexivity.
Qed.

Lemma openers_solid : Forall solid_word interrogative_openers.
Proof.
  repeat (constructor;
          [split; [reflexivity | eexists _, _; repeat split; reflexivity] |]).
  constructor.
Qed.

Lemma phrases_solid : Forall solid_word request_phrases.
Proof.
  repeat (constructor;
          [split; [reflexivity | eexists _, _; repeat split; reflexivity] |]).
  constructor.
Qed.

Section RawText.

Variable s : list ascii.

(** Where [\?$] is found, the text ends with the question mark, or with the
    question mark and one newline. *)
Lemma search_question_mark_raw :
  re_search true (Cat (Lit "?") Eol) s = true ->
  exists pre b, s = pre ++ ["?"%char] ++ b /\ (b = [] \/ b = ["010"%char]).
Proof.
  intros Hsearch. apply re_search_iff in Hsearch as [i [j [Hi Hj]]].
  cbn [match_ends] in Hj.
  destruct (s !! i) as [x |] eqn:Hx; [| simpl in Hj; destruct Hj].
  destruct (lit_matches true "?" x) eqn:Hm; [| simpl in Hj; destruct Hj].
  unfold lit_matches in Hm. apply bool_decide_eq_true in Hm.
  symmetry in Hm. apply char_lower_question_mark in Hm. subst x.
  cbn [flat_map] in Hj. rewrite app_nil_r in Hj.
  destruct (at_eol s (S i)) eqn:Heol; [| destruct Hj].
  unfold at_eol in Heol. apply orb_true_iff in Heol as [Hend | Hnl].
  - apply bool_decide_eq_true in Hend.
    exists (take i s), []. split; [| left; reflexivity].
    simpl. rewrite <- (take_S_r s i _ Hx), Hend.
    symmetry. apply firstn_all.
  - apply andb_true_iff in Hnl as [Hlen Hnl].
    apply bool_decide_eq_true in Hlen. apply bool_decide_eq_true in Hnl.
    exists (take i s), ["010"%char]. split; [| right; reflexivity].
    change (take i s ++ ["?"%char] ++ ["010"%char])
      with (take i s ++ "?"%char :: ["010"%char]).
    rewrite cons_middle, app_assoc.
    rewrite <- (take_S_r s i _ Hx), <- (take_S_r s (S i) _ Hnl), Hlen.
    symmetry. apply firstn_all.
Qed.

Lemma search_openers_raw ws :
  Forall solid_word ws ->
  re_search true (Cat Bol (one_of ws)) s = true ->
  exists w post, In w ws /\ lower s = chars w ++ post.
Proof.
  intros Hws Hsearch. rewrite List.Forall_forall in Hws.
  apply re_search_iff in Hsearch as [i [j [Hi Hj]]]. cbn [match_ends] in Hj.
  destruct (bool_decide_reflect (i = 0%nat)) as [-> | Hne];
    [| simpl in Hj; destruct Hj].
  cbn [flat_map] in Hj. rewrite app_nil_r in Hj.
  apply match_ends_one_of in Hj as [w [Hin Hj]].
  apply match_ends_literals_ci in Hj as [_ Htake].
  destruct (Hws w Hin) as [Hlow _]. rewrite Hlow in Htake.
  exists w, (lower (drop (0 + length (chars w)) s)). split; [exact Hin |].
  rewrite (lower_infix s 0 (length (chars w))), Htake. reflexivity.
Qed.

Lemma search_phrases_raw ws :
  Forall solid_word ws ->
  re_search true (one_of ws) s = true ->
  exists w pre post, In w ws /\ lower s = pre ++ chars w ++ post.
Proof.
  intros Hws Hsearch. rewrite List.Forall_forall in Hws.
  apply re_search_iff in Hsearch as [i [j [Hi Hj]]].
  apply match_ends_one_of in Hj as [w [Hin Hj]].
  apply match_ends_literals_ci in Hj as [_ Htake].
  destruct (Hws w Hin) as [Hlow _]. rewrite Hlow in Htake.
  exists w, (lower (take i s)), (lower (drop (i + length (chars w)) s)).
  split; [exact Hin |].
  rewrite (lower_infix s i (length (chars w))), Htake. reflexivity.
Qed.

End RawText.

Lemma strip_keeps_word w a b :
  solid_word w -> strip (a ++ chars w ++ b) = lstrip a ++ chars w ++ rstrip b.
Proof.
  intros [_ (c1 & c2 & Hh & Hl & H1 & H2)].
  exact (strip_keeps a (chars w) b c1 c2 Hh Hl H1 H2).
Qed.

Lemma classifier_iff text :
  let t := strip (lower (chars text)) in
  _is_question default_config text = true
  <-> (chars "?" `suffix_of` t
       \/ (exists w, In w interrogative_openers /\ chars w `prefix_of` t)
       \/ (exists w, In w request_phrases /\ infix_of (chars w) t)).
Proof.
  intros t.
  assert (Hlow : lower t = t).
  { subst t. apply lower_strip, lower_idem. }
  assert (Hlast : forall pre c, t = pre ++ [c] -> is_space c = false).
  { intros pre c H. subst t. unfold strip in H. apply rstrip_last in H. exact H. }
  unfold _is_question. fold t.
  change (QUESTION_PATTERNS default_config)
    with [Cat (Lit "?") Eol; Cat Bol (one_of interrogative_openers);
          one_of request_phrases].
  cbn [existsb]. rewrite orb_false_r.
  rewrite <- (search_openers t Hlow _ openers_lowered).
  rewrite <- (search_phrases t Hlow _ phrases_lowered).
  rewrite <- endswith_suffix.
  destruct (endswith t (chars "?")) eqn:Hend.
  - split; [intros _; left; reflexivity | reflexivity].
  - rewrite !orb_true_iff. split.
    + intros [H | [H | H]]; [| right; left; exact H | right; right; exact H].
      left. apply (search_question_mark t Hlast) in H.
      apply endswith_suffix in H. congruence.
    + intros [H | [H | H]]; [discriminate | right; left; exact H | right; right; exact H].
Qed.

(** What the transcript shows as it stands, the normalised text still shows. *)
Lemma stated_implies_classified text :
  stated_is_question default_config text = true ->
  _is_question default_config text = true.
Proof.
  intros H. apply classifier_iff. cbv zeta.
  unfold stated_is_question in H. set (raw := chars text) in *.
  change (QUESTION_PATTERNS default_config)
    with [Cat (Lit "?") Eol; Cat Bol (one_of interrogative_openers);
          one_of request_phrases] in H.
  cbn [existsb] in H. rewrite orb_false_r in H.
  assert (Hq : forall pre b,
             raw = pre ++ ["?"%char] ++ b -> b = [] \/ b = ["010"%char] ->
             chars "?" `suffix_of` strip (lower raw)).
  { intros pre b -> Hb. rewrite !lower_app.
    rewrite (strip_keeps (lower pre) (lower ["?"%char]) (lower b) "?" "?"
               eq_refl eq_refl eq_refl eq_refl).
    exists (lstrip (lower pre)). destruct Hb as [-> | ->]; reflexivity. }
  apply orb_true_iff in H as [H | H].
  - left. apply endswith_suffix in H as [pre Hpre].
    apply (Hq pre []); [rewrite Hpre; reflexivity | left; reflexivity].
  - apply orb_true_iff in H as [H | H]; [| apply orb_true_iff in H as [H | H]].
    + left. apply search_question_mark_raw in H as (pre & b & Hs & Hb).
      apply (Hq pre b Hs Hb).
    + right. left.
      apply (search_openers_raw raw _ openers_solid) in H as (w & post & Hin & Hs).
      exists w. split; [exact Hin |]. rewrite Hs.
      change (chars w ++ post) with ([] ++ chars w ++ post).
      rewrite strip_keeps_word
        by exact (proj1 (List.Forall_forall _ _) openers_solid w Hin).
      exists (rstrip post). reflexivity.
    + right. right.
      apply (search_phrases_raw raw _ phrases_solid) in H
        as (w & pre & post & Hin & Hs).
      exists w. split; [exact Hin |]. rewrite Hs.
      rewrite strip_keeps_word
        by exact (proj1 (List.Forall_forall _ _) phrases_solid w Hin).
      exists (lstrip pre), (rstrip post). reflexivity.
Qed.

(** C4, as the code has it.  The classifier lowers the transcript and trims
    the white space around it, and then does what the specification says of
    the text: it answers true exactly when the text so normalised ends with
    a question mark, or begins with one of the interrogative openers, or
    contains one of the request phrases.  A transcript that as it stands
    ends with a question mark or matches a pattern is always classified as
    a question; the converse needs the normalisation.  The four sample
    transcripts are classified as the specification lists them. *)
Theorem question_classifier :
  (forall cfg text,
     _is_question cfg text
     = stated_is_question cfg (text_of (strip (lower (chars text)))))
  /\ (forall text,
        let t := strip (lower (chars text)) in
        _is_question default_config text = true
        <-> (chars "?" `suffix_of` t
             \/ (exists w, In w interrogative_openers /\ chars w `prefix_of` t)
             \/ (exists w, In w request_phrases /\ infix_of (chars w) t)))
  /\ (forall text,
        stated_is_question default_config text = true ->
        _is_question default_config text = true)
  /\ _is_question default_config "What does this do?" = true
  /\ _is_question default_config "Can you explain this?" = true
  /\ _is_question default_config "WHAT is this" = true
  /\ _is_question default_config "This looks good" = false.
Proof.
  split; [| split; [| split; [| repeat split; vm_compute; reflexivity]]].
  - intros cfg text. unfold _is_question, stated_is_question, chars, text_of.
    rewrite list_ascii_of_string_of_list_ascii.
    destruct (endswith _ _); reflexivity.
  - exact classifier_iff.
  - exact stated_implies_classified.
Qed.

(** C4 as stated fails on transcripts with white space around them: the
    classifier trims before it looks, so "ok? " and " what is this" are
    questions for it, while the first does not end with a question mark and
    neither matches any of the patterns as it stands. *)
Lemma padded_transcripts_are_questions :
  _is_question default_config "ok? " = true
  /\ stated_is_question default_config "ok? " = false
  /\ _is_question default_config " what is this" = true
  /\ stated_is_question default_config " what is this" = false.
Proof. repeat split; vm_compute; reflexivity. Qed.

(** * Further properties *)

(** ** The memory store *)

Section StoreRuns.

Variable cfg : config.

Lemma run_operations_snoc ops op m :
  run_operations cfg m (ops ++ [op])
  = run_operation cfg (run_operations cfg m ops) op.
Proof. unfold run_operations. apply foldl_snoc. Qed.

Lemma run_operation_interactions m op :
  resets_store op = false ->
  total_interactions (run_operation cfg m op)
  = total_interactions m + (if is_add_question op then 1 else 0).
Proof.
  destruct op; simpl; try discriminate; intros _; try lia.
  - unfold add_ocr_event. destruct (ocr_text_present ocr_data); simpl; lia.
  - unfold create_summary. destruct (memory_chunks m); simpl; lia.
Qed.

Lemma run_operation_summaries m op :
  resets_store op = false ->
  exists new,
    summaries (run_operation cfg m op) = summaries m ++ new
    /\ (length new <= if is_create_summary op then 1 else 0)%nat
    /\ Forall (fun c => chunk_type c = "summary") new.
Proof.
  assert (Hnone : forall l : list MemoryChunk, forall n : nat,
            exists new, l = l ++ new /\ (length new <= n)%nat
                        /\ Forall (fun c => chunk_type c = "summary") new).
  { intros l n. exists []. split; [symmetry; apply app_nil_r |].
    split; [simpl; lia | constructor]. }
  destruct op; simpl; try discriminate; intros _; try apply Hnone.
  - unfold add_ocr_event. destruct (ocr_text_present ocr_data); apply Hnone.
  - unfold create_summary. destruct (memory_chunks m); simpl; [apply Hnone |].
    eexists. split; [reflexivity |]. split; [simpl; lia |].
    constructor; [reflexivity | constructor].
Qed.

End StoreRuns.

(** X1.  [total_interactions] counts the questions recorded: over any run of
    operations that neither loads a file nor clears the store it grows by
    exactly the number of [add_question] calls, whatever the buffer has
    evicted meanwhile. *)
Theorem interactions_count_questions (cfg : config) (ops : list Operation)
    (m : MemorySubsystem) :
  Forall (fun op => resets_store op = false) ops ->
  total_interactions (run_operations cfg m ops)
  = total_interactions m + Z.of_nat (length (List.filter is_add_question ops)).
Proof.
  induction ops as [| op ops IH] using rev_ind; intros Hops.
  - simpl. lia.
  - apply Forall_app in Hops as [Hops Hop]. inversion Hop as [| ? ? Hop' _]; subst.
    rewrite run_operations_snoc, run_operation_interactions by exact Hop'.
    rewrite IH by exact Hops. rewrite List.filter_app, length_app. simpl.
    destruct (is_add_question op); simpl; lia.
Qed.

Lemma interactions_count_questions_example :
  Forall (fun op => resets_store op = false) exchange
  /\ total_interactions
       (run_operations default_config (MemorySubsystem_init 0 0) exchange) = 2.
Proof.
  assert (H : Forall (fun op => resets_store op = false) exchange)
    by (repeat constructor).
  split; [exact H |].
  rewrite (interactions_count_questions default_config exchange _ H).
  reflexivity.
Defined.

(** X2.  Summaries are kept in a list of their own that nothing evicts: a
    run of operations without load and clear only appends summary chunks to
    it, at most one for each [create_summary]; and on a buffer that is not
    empty every [create_summary] appends exactly one, however many there are
    and whatever [MAX_MEMORY_CHUNKS] is. *)
Theorem summaries_only_grow (cfg : config) (m : MemorySubsystem) :
  (forall ops,
     Forall (fun op => resets_store op = false) ops ->
     exists new,
       summaries (run_operations cfg m ops) = summaries m ++ new
       /\ (length new <= length (List.filter is_create_summary ops))%nat
       /\ Forall (fun c => chunk_type c = "summary") new)
  /\ (forall clks,
        memory_chunks m <> [] ->
        let m' := run_operations cfg m (map CreateSummary clks) in
        length (summaries m') = (length (summaries m) + length clks)%nat
        /\ memory_chunks m' = memory_chunks m).
Proof.
  split.
  - intros ops. induction ops as [| op ops IH] using rev_ind; intros Hops.
    + exists []. rewrite app_nil_r. repeat split; [simpl; lia | constructor].
    + apply Forall_app in Hops as [Hops Hop].
      inversion Hop as [| ? ? Hop' _]; subst.
      destruct (IH Hops) as (new & Hnew & Hlen & Hall).
      rewrite run_operations_snoc.
      destruct (run_operation_summaries cfg (run_operations cfg m ops) op Hop')
        as (new' & Hnew' & Hlen' & Hall').
      exists (new ++ new'). rewrite Hnew', Hnew, app_assoc.
      split; [reflexivity |]. split.
      * rewrite List.filter_app, !length_app. simpl.
        destruct (is_create_summary op); simpl in *; lia.
      * apply Forall_app. split; assumption.
  - intros clks Hne. induction clks as [| clk clks IH] using rev_ind.
    + simpl. split; [lia | reflexivity].
    + cbv zeta in *. rewrite map_app. simpl map.
      rewrite run_operations_snoc. destruct IH as [IHs IHc].
      simpl run_operation.
      rewrite (create_summary_nonempty _ clk) by (rewrite IHc; exact Hne).
      simpl. rewrite !length_app, IHs. simpl. split; [lia | exact IHc].
Qed.

Lemma summaries_only_grow_example :
  memory_chunks store_with_question <> []
  /\ length (summaries
       (run_operations default_config store_with_question
          (map CreateSummary (replicate 150 (summary_clock (1200 # 1))))))
     = 150%nat.
Proof.
  split; [discriminate |].
  pose proof (proj2 (summaries_only_grow default_config store_with_question)
                (replicate 150 (summary_clock (1200 # 1))) ltac:(discriminate))
    as [H _].
  rewrite H. rewrite length_replicate. reflexivity.
Defined.

(** X3.  [create_summary] reads the buffer and leaves it as it is, so a
    second summary made while the buffer has not changed reports the same
    counts, the same questions and the same text as the first; only its
    time frame differs, and it starts where the first one ended. *)
Theorem repeated_summary_recounts (m : MemorySubsystem) (clk1 clk2 : SummaryClock) :
  memory_chunks m <> [] ->
  let r1 := create_summary m clk1 in
  let r2 := create_summary r1.2 clk2 in
  exists s1 s2,
    r1.1 = Some s1 /\ r2.1 = Some s2
    /\ questions_asked s2 = questions_asked s1
    /\ keyframes_captured s2 = keyframes_captured s1
    /\ ocr_events s2 = ocr_events s1
    /\ questions s2 = questions s1
    /\ detected_text s2 = detected_text s1
    /\ summary_text s2 = summary_text s1
    /\ timeframe_start s2 = t_reset clk1
    /\ memory_chunks r2.2 = memory_chunks m
    /\ length (summaries r2.2) = (length (summaries m) + 2)%nat.
Proof.
  intros Hne r1 r2. subst r1 r2.
  rewrite (create_summary_nonempty m clk1 Hne). cbn [fst snd].
  rewrite create_summary_nonempty by exact Hne. cbn [fst snd].
  eexists _, _. split; [reflexivity |]. split; [reflexivity |].
  cbn. rewrite !length_app. cbn. repeat split; lia.
Qed.

Lemma repeated_summary_recounts_example :
  memory_chunks store_with_question <> []
  /\ length (summaries
       (create_summary
          (create_summary store_with_question (summary_clock (1200 # 1))).2
          (summary_clock (1400 # 1))).2) = 2%nat.
Proof.
  split; [discriminate |].
  destruct (repeated_summary_recounts store_with_question
              (summary_clock (1200 # 1)) (summary_clock (1400 # 1))
              ltac:(discriminate))
    as (s1 & s2 & _ & _ & _ & _ & _ & _ & _ & _ & _ & _ & H).
  exact H.
Defined.

Lemma summary_counts (l : list MemoryChunk) :
  (length (recent_questions l) + recent_keyframes l + length (recent_ocr l)
   <= length l)%nat.
Proof.
  unfold recent_questions, recent_ocr, recent_keyframes.
  induction l as [| c l IH]; [simpl; lia |].
  rewrite filter_cons. destruct c as [[] t]; cbn [omap list_omap content];
    cbn [chunk_type content length];
    (destruct (decide _) as [He | Hne]; [try discriminate He | try (exfalso; apply Hne; reflexivity)]);
    cbn [length]; lia.
Qed.

(** X4.  What a summary reports is bounded by what the buffer holds: the
    three counts together never exceed the number of buffered chunks, hence
    [MAX_MEMORY_CHUNKS]; [questions] is the tail of the buffered question
    texts, at most five of them, in order; [detected_text] holds at most
    three texts, each the text of a buffered OCR chunk, none twice. *)
Theorem summary_statistics_bounds (cfg : config) (m m' : MemorySubsystem)
    (clk : SummaryClock) (s : Summary) :
  within_capacity cfg m ->
  create_summary m clk = (Some s, m') ->
  (questions_asked s + keyframes_captured s + ocr_events s
   <= length (memory_chunks m) <= MAX_MEMORY_CHUNKS cfg)%nat
  /\ questions_asked s = length (recent_questions (memory_chunks m))
  /\ questions s `suffix_of` recent_questions (memory_chunks m)
  /\ length (questions s) = Nat.min 5 (questions_asked s)
  /\ (length (detected_text s) <= 3)%nat
  /\ NoDup (detected_text s)
  /\ (forall t, t ∈ detected_text s -> t ∈ recent_ocr (memory_chunks m)).
Proof.
  intros Hcap Hcreate. unfold create_summary in Hcreate.
  destruct (memory_chunks m) as [| c l] eqn:E; [discriminate |].
  injection Hcreate as <- _. unfold build_summary. rewrite E.
  cbn [questions_asked keyframes_captured ocr_events questions detected_text].
  unfold within_capacity in Hcap. rewrite E in Hcap.
  split; [split; [apply summary_counts | exact Hcap] |].
  split; [reflexivity |].
  pose proof (slice_from_last 5 (recent_questions (c :: l)) ltac:(lia)) as Hs.
  change (- Z.of_nat 5) with (-5) in Hs. rewrite Hs. clear Hs.
  split; [apply suffix_drop |].
  split; [rewrite length_drop; lia |].
  unfold slice_to. split; [rewrite length_take; lia |].
  split.
  - apply (sublist_NoDup _ (elements (unique (recent_ocr (c :: l))))).
    + apply NoDup_elements.
    + apply sublist_take.
  - intros t Ht. apply subseteq_take in Ht. apply elem_of_elements in Ht.
    unfold unique in Ht. apply elem_of_list_to_set in Ht. exact Ht.
Qed.

Lemma summary_statistics_bounds_example :
  let m := run_operations default_config (MemorySubsystem_init 0 0) exchange in
  within_capacity default_config m
  /\ (create_summary m (summary_clock (200 # 1))).1
     = Some (build_summary m (summary_clock (200 # 1)))
  /\ questions (build_summary m (summary_clock (200 # 1)))
       `suffix_of` ["What does this do?"; "How do I fix this?"].
Proof.
  cbv zeta.
  assert (Hcap : within_capacity default_config
            (run_operations default_config (MemorySubsystem_init 0 0) exchange)).
  { unfold within_capacity. simpl. lia. }
  split; [exact Hcap |]. split; [reflexivity |].
  apply (summary_statistics_bounds default_config _ _ (summary_clock (200 # 1)) _
           Hcap eq_refl).
Defined.

(** ** Strings *)

Lemma chars_app (a b : string) : chars (a +:+ b) = chars a ++ chars b.
Proof.
  unfold chars. induction a as [| c a IH]; [reflexivity |].
  change (String c a +:+ b) with (String c (a +:+ b)).
  simpl. rewrite IH. reflexivity.
Qed.

Lemma string_app_assoc (a b c : string) : (a +:+ b) +:+ c = a +:+ (b +:+ c).
Proof.
  induction a as [| x a IH]; [reflexivity |].
  change (String x a +:+ b) with (String x (a +:+ b)).
  change (String x (a +:+ b) +:+ c) with (String x ((a +:+ b) +:+ c)).
  change (String x a +:+ (b +:+ c)) with (String x (a +:+ (b +:+ c))).
  rewrite IH. reflexivity.
Qed.

Lemma string_app_nil_r (a : string) : a +:+ EmptyString = a.
Proof.
  induction a as [| x a IH]; [reflexivity |].
  change (String x a +:+ EmptyString) with (String x (a +:+ EmptyString)).
  rewrite IH. reflexivity.
Qed.

Lemma chars_text_of (l : list ascii) : chars (text_of l) = l.
Proof. apply list_ascii_of_string_of_list_ascii. Qed.

Lemma text_of_chars (s : string) : text_of (chars s) = s.
Proof. apply string_of_list_ascii_of_string. Qed.

(** [sep.join(parts)] begins with the first part and ends with the last. *)
Lemma join_foldl sep (ps : list string) : forall acc,
  exists rest,
    foldl (fun acc q => acc +:+ sep +:+ q) acc ps = acc +:+ rest.
Proof.
  induction ps as [| p ps IH]; intros acc; simpl.
  - exists EmptyString. symmetry. apply string_app_nil_r.
  - destruct (IH (acc +:+ sep +:+ p)) as [rest Hrest].
    exists ((sep +:+ p) +:+ rest). rewrite Hrest. apply string_app_assoc.
Qed.

Lemma join_head sep p (ps : list string) :
  exists rest, join sep (p :: ps) = p +:+ rest.
Proof. apply join_foldl. Qed.

Lemma join_snoc sep (ps : list string) q :
  exists pre, join sep (ps ++ [q]) = pre +:+ q.
Proof.
  destruct ps as [| p ps]; simpl.
  - exists EmptyString. reflexivity.
  - rewrite foldl_snoc. eexists. symmetry. apply string_app_assoc.
Qed.

(** X5.  The summary text reports an idle session exactly when the buffer
    holds neither a question nor an OCR chunk, keyframes and answers
    notwithstanding. *)
Theorem summary_text_idle (m : MemorySubsystem) (clk : SummaryClock) :
  summary_text (build_summary m clk)
  = "Monitoring session with no significant activity."
  <-> recent_questions (memory_chunks m) = []
      /\ recent_ocr (memory_chunks m) = [].
Proof.
  unfold build_summary. cbn [summary_text]. unfold _generate_summary_text.
  destruct (recent_questions (memory_chunks m)) as [| q qs].
  - destruct (recent_ocr (memory_chunks m)) as [| o os].
    + split; [auto | reflexivity].
    + cbn [app]. split; [| intros [_ H]; discriminate H].
      intros H. exfalso. revert H.
      destruct (join_head ". "
                  ("Detected " +:+ pretty (size (unique (o :: os)))
                   +:+ " unique text segments on screen") []) as [rest ->].
      rewrite !string_app_assoc.
      change ("Detected " +:+ ?x) with (String "D" ("etected " +:+ x)).
      discriminate.
  - split; [| intros [H _]; discriminate H].
    intros H. exfalso. revert H.
    set (first_part := "Received " +:+ pretty (length (q :: qs))
                       +:+ " questions about code and errors").
    destruct (recent_ocr (memory_chunks m)) as [| o os].
    + destruct (join_head ". " first_part []) as [rest ->].
      subst first_part. rewrite !string_app_assoc.
      change ("Received " +:+ ?x) with (String "R" ("eceived " +:+ x)).
      discriminate.
    + cbn [app].
      destruct (join_head ". " first_part
                  ["Detected " +:+ pretty (size (unique (o :: os)))
                   +:+ " unique text segments on screen"]) as [rest ->].
      subst first_part. rewrite !string_app_assoc.
      change ("Received " +:+ ?x) with (String "R" ("eceived " +:+ x)).
      discriminate.
Qed.






(** ** The camera *)

Section CameraRunFacts.

Variable cfg : config.
Variable Frame : Type.
Variable similarity : Frame -> Frame -> Q.

Local Abbreviation poll := (get_frame_with_keyframe_detection cfg Frame similarity).
Local Abbreviation polls_run := (poll_all cfg Frame similarity).

(** One poll: what it returns and what it does to the state. *)
Lemma poll_none cam now : poll cam None now = (None, cam).
Proof. reflexivity. Qed.

Lemma poll_some cam frame now :
  exists kf,
    (poll cam (Some frame) now).1 = Some (frame, kf)
    /\ frame_count (poll cam (Some frame) now).2 = S (frame_count cam)
    /\ keyframe_count (poll cam (Some frame) now).2
       = (keyframe_count cam + if kf then 1 else 0)%nat
    /\ previous_frame (poll cam (Some frame) now).2
       = (if kf then Some frame else previous_frame cam)
    /\ last_keyframe_time (poll cam (Some frame) now).2
       = (if kf then now else last_keyframe_time cam)
    /\ (previous_frame cam = None -> kf = true).
Proof.
  unfold get_frame_with_keyframe_detection, capture_frame, is_keyframe.
  cbn [previous_frame frame_count keyframe_count last_keyframe_time].
  destruct (previous_frame cam) as [previous |] eqn:E.
  - destruct (Qltb (similarity frame previous) (KEYFRAME_THRESHOLD cfg)) eqn:Hk.
    + exists true. cbn. rewrite Nat.add_1_r. repeat split; congruence.
    + exists false. cbn. rewrite Nat.add_0_r. repeat split; congruence.
  - exists true. cbn. rewrite Nat.add_1_r. repeat split.
Qed.

Lemma keyframes_of_cons (result : option (Frame * bool)) results captured now rest :
  keyframes_of (result :: results) ((captured, now) :: rest)
  = match result with
    | Some (frame, true) => [(frame, now)]
    | _ => []
    end ++ keyframes_of results rest.
Proof.
  unfold keyframes_of. simpl.
  destruct result as [[frame []] |]; reflexivity.
Qed.

Lemma poll_all_counters polls : forall cam,
  let r := polls_run cam polls in
  frame_count r.2 = (frame_count cam + length (omap fst polls))%nat
  /\ keyframe_count r.2
     = (keyframe_count cam + length (keyframes_of r.1 polls))%nat
  /\ (length (keyframes_of r.1 polls) <= length (omap fst polls))%nat
  /\ (previous_frame cam = None -> omap fst polls <> [] ->
      (1 <= length (keyframes_of r.1 polls))%nat)
  /\ previous_frame r.2
     = match last (keyframes_of r.1 polls) with
       | Some (frame, _) => Some frame
       | None => previous_frame cam
       end
  /\ last_keyframe_time r.2
     = match last (keyframes_of r.1 polls) with
       | Some (_, now) => now
       | None => last_keyframe_time cam
       end.
Proof.
  induction polls as [| [captured now] polls IH]; intros cam.
  - simpl. repeat split; try lia. congruence.
  - cbn [poll_all]. destruct captured as [frame |].
    + destruct (poll_some cam frame now)
        as (kf & Hres & Hfc & Hkc & Hprev & Htime & Hcold).
      destruct (poll cam (Some frame) now) as [result cam'] eqn:Hpoll.
      cbn [fst snd] in *. subst result.
      specialize (IH cam'). cbv zeta in IH.
      destruct (polls_run cam' polls) as [results cam''] eqn:Hrun.
      cbn [fst snd] in *.
      destruct IH as (IH1 & IH2 & IH3 & IH4 & IH5 & IH6).
      rewrite keyframes_of_cons. cbn [omap list_omap fst].
      rewrite last_app, IH5, IH6, Hprev, Htime.
      destruct kf; cbn [length app]; rewrite ?length_app; cbn [length];
        (split; [lia |]); (split; [lia |]); (split; [lia |]).
      * split; [intros; lia |].
        destruct (last (keyframes_of results polls)) as [[f t] |];
          split; reflexivity.
      * split; [intros Hn; specialize (Hcold Hn); discriminate |].
        destruct (last (keyframes_of results polls)) as [[f t] |];
          split; reflexivity.
    + rewrite poll_none. specialize (IH cam). cbv zeta in IH.
      destruct (polls_run cam polls) as [results cam''] eqn:Hrun.
      cbn [fst snd] in *. rewrite keyframes_of_cons. cbn [omap list_omap fst app].
      exact IH.
Qed.

End CameraRunFacts.

Lemma ratio_bounds (k f : nat) :
  (k <= f)%nat ->
  let ratio := (inject_Z (Z.of_nat k) / inject_Z (Z.of_nat (Nat.max 1 f)))%Q in
  (0 <= ratio)%Q /\ (ratio <= 1)%Q /\ ((0 < k)%nat -> (0 < ratio)%Q).
Proof.
  intros Hle ratio. subst ratio.
  assert (Hpos : (0 < inject_Z (Z.of_nat (Nat.max 1 f)))%Q).
  { change 0%Q with (inject_Z 0). rewrite <- Zlt_Qlt. lia. }
  assert (Hk : (0 <= inject_Z (Z.of_nat k))%Q).
  { change 0%Q with (inject_Z 0). rewrite <- Zle_Qle. lia. }
  assert (Hkf : (inject_Z (Z.of_nat k) <= inject_Z (Z.of_nat (Nat.max 1 f)))%Q).
  { rewrite <- Zle_Qle. lia. }
  split; [| split].
  - apply Qle_shift_div_l; [exact Hpos |]. lra.
  - apply Qle_shift_div_r; [exact Hpos |]. lra.
  - intros Hk0. apply Qlt_shift_div_l; [exact Hpos |].
    assert ((0 < inject_Z (Z.of_nat k))%Q).
    { change 0%Q with (inject_Z 0). rewrite <- Zlt_Qlt. lia. }
    lra.
Qed.

(** X7.  The counters of the camera tell the truth about a run of polls that
    starts with a new camera: [frame_count] is the number of frames the
    device delivered, [keyframe_count] the number of polls that reported a
    keyframe; keyframes never outnumber frames, there is at least one as
    soon as a frame was delivered, and the keyframe ratio of [get_stats]
    lies between 0 and 1 and needs no frame to be computed. *)
Theorem camera_counters (cfg : config) (Frame : Type)
    (similarity : Frame -> Frame -> Q) (polls : list (option Frame * Q)) (now : Q) :
  let r := poll_all cfg Frame similarity (CameraSubsystem_init Frame) polls in
  let stats := CameraSubsystem_get_stats r.2 now in
  cs_total_frames stats = length (omap fst polls)
  /\ cs_keyframes stats = length (keyframes_of r.1 polls)
  /\ (cs_keyframes stats <= cs_total_frames stats)%nat
  /\ ((0 < cs_total_frames stats)%nat -> (1 <= cs_keyframes stats)%nat)
  /\ (0 <= cs_keyframe_ratio stats)%Q
  /\ (cs_keyframe_ratio stats <= 1)%Q
  /\ ((0 < cs_total_frames stats)%nat -> (0 < cs_keyframe_ratio stats)%Q).
Proof.
  intros r stats.
  destruct (poll_all_counters cfg Frame similarity polls (CameraSubsystem_init Frame))
    as (H1 & H2 & H3 & H4 & _).
  fold r in H1, H2, H3, H4. simpl in H1, H2.
  assert (Hle : (keyframe_count r.2 <= frame_count r.2)%nat) by lia.
  assert (Hone : (0 < frame_count r.2)%nat -> (1 <= keyframe_count r.2)%nat).
  { intros Hf. rewrite H2. apply H4; [reflexivity |].
    intros He. rewrite He in H1. simpl in H1. lia. }
  destruct (ratio_bounds (keyframe_count r.2) (frame_count r.2) Hle)
    as (Hr0 & Hr1 & Hrpos).
  subst stats. cbn [cs_total_frames cs_keyframes cs_keyframe_ratio
                    CameraSubsystem_get_stats].
  repeat split; try assumption.
  intros Hf. apply Hrpos. specialize (Hone Hf). lia.
Qed.

(** X8.  After any run of polls the reference frame of the gate is the frame
    of the last poll that reported a keyframe, and [last_keyframe_time] is
    the clock reading of that poll; a run without keyframe leaves both as
    they were. *)
Theorem reference_is_last_keyframe (cfg : config) (Frame : Type)
    (similarity : Frame -> Frame -> Q) (cam : CameraSubsystem Frame)
    (polls : list (option Frame * Q)) :
  let r := poll_all cfg Frame similarity cam polls in
  previous_frame r.2
  = match last (keyframes_of r.1 polls) with
    | Some (frame, _) => Some frame
    | None => previous_frame cam
    end
  /\ last_keyframe_time r.2
     = match last (keyframes_of r.1 polls) with
       | Some (_, now) => now
       | None => last_keyframe_time cam
       end.
Proof.
  intros r.
  destruct (poll_all_counters cfg Frame similarity polls cam)
    as (_ & _ & _ & _ & H5 & H6).
  split; assumption.
Qed.

(** ** Text recognition *)

(** A decidable statement about given values, settled by evaluation. *)
Ltac by_evaluation := apply (bool_decide_unpack _); vm_compute; exact I.

Lemma Zpos_of_nat (n : nat) : (1 <= n)%nat -> Z.pos (Pos.of_nat n) = Z.of_nat n.
Proof.
  intros Hn. destruct n as [| n]; [lia |].
  rewrite <- Pos.of_nat_succ. lia.
Qed.

Lemma split_go_blank (s : list ascii) :
  Forall (fun c => is_space c = true) s -> split_go [] s = [].
Proof.
  intros Hall. induction Hall as [| c s Hc Hs IH]; simpl; [reflexivity |].
  rewrite Hc. exact IH.
Qed.

Lemma tokens_blank (t : string) :
  Forall (fun c => is_space c = true) (chars t) -> tokens t = ∅.
Proof.
  intros H. unfold tokens, split. rewrite (split_go_blank _ H). reflexivity.
Qed.

Lemma token_overlap_share (new_text previous : string) :
  (0 <= token_overlap new_text previous)%Q
  /\ (token_overlap new_text previous <= 1)%Q
  /\ (tokens new_text ⊆ tokens previous -> tokens new_text <> ∅ ->
      (token_overlap new_text previous == 1)%Q)
  /\ (tokens new_text = ∅ -> (token_overlap new_text previous == 0)%Q).
Proof.
  unfold token_overlap.
  set (A := tokens new_text). set (B := tokens previous).
  assert (Hden : Z.pos (Pos.of_nat (Nat.max (size A) 1))
                 = Z.of_nat (Nat.max (size A) 1)) by (apply Zpos_of_nat; lia).
  assert (Hsub : (size (A ∩ B) <= size A)%nat).
  { apply subseteq_size. apply intersection_subseteq_l. }
  split; [| split; [| split]].
  - unfold Qle. cbn [Qnum Qden]. lia.
  - unfold Qle. cbn [Qnum Qden]. rewrite Hden. lia.
  - intros Hin Hne. unfold Qeq. cbn [Qnum Qden]. rewrite Hden.
    replace (A ∩ B) with A by (symmetry; apply subseteq_intersection_1_L, Hin).
    assert (size A <> 0%nat).
    { intros H0. apply size_empty_iff in H0. apply Hne.
      apply leibniz_equiv. exact H0. }
    lia.
  - intros He. unfold Qeq. cbn [Qnum Qden]. rewrite He.
    rewrite (left_absorb_L ∅ (∩) B), size_empty. lia.
Qed.

(** X9.  The overlap score of [_text_changed] is a share: it lies between 0
    and 1, it is 1 when the new text has a token and all its tokens occur in
    the retained text, and it is 0 when the new text has no token at all. *)
Theorem token_overlap_bounds (new_text previous : string) :
  (0 <= token_overlap new_text previous)%Q
  /\ (token_overlap new_text previous <= 1)%Q
  /\ (tokens new_text ⊆ tokens previous -> tokens new_text <> ∅ ->
      (token_overlap new_text previous == 1)%Q)
  /\ (tokens new_text = ∅ -> (token_overlap new_text previous == 0)%Q).
Proof. apply token_overlap_share. Qed.

Lemma token_overlap_bounds_example :
  tokens "return x" ⊆ tokens "def f ( x ) : return x"
  /\ tokens "return x" <> ∅
  /\ (token_overlap "return x" "def f ( x ) : return x" == 1)%Q.
Proof.
  assert (H1 : tokens "return x" ⊆ tokens "def f ( x ) : return x")
    by by_evaluation.
  assert (H2 : tokens "return x" <> ∅) by by_evaluation.
  split; [exact H1 |]. split; [exact H2 |].
  apply (token_overlap_bounds "return x" "def f ( x ) : return x"); assumption.
Defined.

(** X10.  A text all of whose words already occur in the retained text does
    not count as changed, and the OCR state stays as it is: the same text
    again, its words in another order or repeated, or a part of it.  Words
    that disappear are not a change. *)
Theorem known_words_are_no_change (o : OCRSubsystem) (new_text : string) :
  previous_text o <> EmptyString ->
  tokens new_text ⊆ tokens (previous_text o) ->
  tokens new_text <> ∅ ->
  _text_changed o new_text = (false, o).
Proof.
  intros Hprev Hin Hne. unfold _text_changed.
  destruct (previous_text o) as [| c rest] eqn:E; [congruence |].
  destruct (token_overlap_share new_text (String c rest)) as (_ & _ & H1 & _).
  specialize (H1 Hin Hne).
  rewrite (proj2 (Qltb_ge _ _)) by lra. reflexivity.
Qed.

Lemma known_words_are_no_change_example :
  let o := {| previous_text := "def f ( x ) : return x"; text_changes := 3 |} in
  _text_changed o "x return  x" = (false, o).
Proof.
  apply known_words_are_no_change.
  - discriminate.
  - simpl previous_text. by_evaluation.
  - by_evaluation.
Defined.

(** X11.  Once a text is retained, a recognised text without any word, the
    empty string included, always counts as changed: it replaces the
    retained text and [text_changes] goes up by one. *)
Theorem blank_text_counts_as_changed (o : OCRSubsystem) (new_text : string) :
  previous_text o <> EmptyString ->
  Forall (fun c => is_space c = true) (chars new_text) ->
  _text_changed o new_text
  = (true, {| previous_text := new_text; text_changes := S (text_changes o) |}).
Proof.
  intros Hprev Hblank. unfold _text_changed.
  destruct (previous_text o) as [| c rest] eqn:E; [congruence |].
  destruct (token_overlap_share new_text (String c rest)) as (_ & _ & _ & H0).
  specialize (H0 (tokens_blank new_text Hblank)).
  rewrite (proj2 (Qltb_lt _ _)) by lra. reflexivity.
Qed.

Lemma blank_text_counts_as_changed_example :
  let o := {| previous_text := "hello world"; text_changes := 0 |} in
  _text_changed o EmptyString
  = (true, {| previous_text := EmptyString; text_changes := 1 |}).
Proof.
  apply (blank_text_counts_as_changed
           {| previous_text := "hello world"; text_changes := 0 |} EmptyString).
  - discriminate.
  - constructor.
Defined.

Lemma inject_Z_length_cons {A : Type} (x : A) (l : list A) :
  (inject_Z (Z.of_nat (length (x :: l))) == inject_Z (Z.of_nat (length l)) + 1)%Q.
Proof.
  cbn [length]. rewrite Nat2Z.inj_succ, <- Z.add_1_r, inject_Z_plus. reflexivity.
Qed.

Lemma sum_above (b : Q) (l : list Q) :
  Forall (fun c => (b < c)%Q) l -> l <> [] ->
  (b * inject_Z (Z.of_nat (length l)) < foldr Qplus 0 l)%Q.
Proof.
  intros Hall. induction Hall as [| c l Hc Hl IH]; intros Hne; [congruence |].
  rewrite inject_Z_length_cons. cbn [foldr].
  destruct l as [| d l'].
  - cbn [length foldr]. change (inject_Z (Z.of_nat 0)) with 0%Q. lra.
  - assert (Hne' : d :: l' <> []) by discriminate.
    specialize (IH Hne'). lra.
Qed.

Lemma sum_below (b : Q) (l : list Q) :
  Forall (fun c => (c <= b)%Q) l ->
  (foldr Qplus 0 l <= b * inject_Z (Z.of_nat (length l)))%Q.
Proof.
  intros Hall. induction Hall as [| c l Hc Hl IH].
  - cbn [length foldr]. change (inject_Z (Z.of_nat 0)) with 0%Q. lra.
  - rewrite inject_Z_length_cons. cbn [foldr]. lra.
Qed.

Lemma length_positive {A : Type} (l : list A) :
  l <> [] -> (0 < inject_Z (Z.of_nat (length l)))%Q.
Proof.
  intros Hne. change 0%Q with (inject_Z 0). rewrite <- Zlt_Qlt.
  destruct l; [congruence | simpl; lia].
Qed.

Lemma mean_above (b : Q) (l : list Q) :
  Forall (fun c => (b < c)%Q) l -> l <> [] -> (b < mean l)%Q.
Proof.
  intros Hall Hne. unfold mean.
  apply Qlt_shift_div_l; [apply length_positive, Hne | apply sum_above; assumption].
Qed.

Lemma mean_below (b : Q) (l : list Q) :
  Forall (fun c => (c <= b)%Q) l -> l <> [] -> (mean l <= b)%Q.
Proof.
  intros Hall Hne. unfold mean.
  apply Qle_shift_div_r; [apply length_positive, Hne | apply sum_below; assumption].
Qed.

Lemma tesseract_kept_spec (boxes : list (Q * string)) :
  Forall (fun kept =>
            (OCR_CONFIDENCE_THRESHOLD * 100 < kept.1)%Q
            /\ kept.2 <> EmptyString
            /\ exists t, (kept.1, t) ∈ boxes /\ kept.2 = text_of (strip (chars t)))
    (tesseract_kept boxes).
Proof.
  unfold tesseract_kept. induction boxes as [| [conf t] boxes IH]; [constructor |].
  cbn [omap list_omap].
  assert (IH' : Forall (fun kept =>
            (OCR_CONFIDENCE_THRESHOLD * 100 < kept.1)%Q
            /\ kept.2 <> EmptyString
            /\ exists t', (kept.1, t') ∈ (conf, t) :: boxes
                          /\ kept.2 = text_of (strip (chars t')))
            (omap (fun '(conf, t) =>
                     if Qltb (OCR_CONFIDENCE_THRESHOLD * 100) conf
                     then
                       let stripped := text_of (strip (chars t)) in
                       if stripped is EmptyString then None else Some (conf, stripped)
                     else None) boxes)).
  { eapply Forall_impl; [exact IH |].
    intros [c s] (H1 & H2 & t' & Hin & Hs). split; [exact H1 |].
    split; [exact H2 |]. exists t'. split; [right; exact Hin | exact Hs]. }
  destruct (Qltb (OCR_CONFIDENCE_THRESHOLD * 100) conf) eqn:Hc; [| exact IH'].
  cbv zeta. destruct (text_of (strip (chars t))) as [| x rest] eqn:Hs; [exact IH' |].
  constructor; [| exact IH'].
  cbn [fst snd]. split; [apply Qltb_lt, Hc |]. split; [discriminate |].
  exists t. split; [left | congruence].
Qed.

Lemma join_nonempty sep p (ps : list string) :
  p <> EmptyString -> join sep (p :: ps) <> EmptyString.
Proof.
  intros Hp. destruct (join_head sep p ps) as [rest ->].
  destruct p as [| c p']; [congruence | discriminate].
Qed.

(** X12.  What the recogniser branch of [extract_text] returns is either the
    empty text with confidence 0, when no box passes the confidence filter
    with a text that is not blank, or when the recogniser raises; or a text
    that is not empty with a confidence strictly above
    [OCR_CONFIDENCE_THRESHOLD].  Nothing in between is returned, and boxes
    rated at most 100 give a confidence of at most 1. *)
Theorem tesseract_confidence_bounds (boxes : list (Q * string)) :
  let r := tesseract_extract (Returns boxes) in
  tesseract_extract Raises = (EmptyString, 0%Q)
  /\ (tesseract_kept boxes = [] -> r = (EmptyString, 0%Q))
  /\ (tesseract_kept boxes <> [] ->
      r.1 <> EmptyString /\ (OCR_CONFIDENCE_THRESHOLD < r.2)%Q)
  /\ (Forall (fun box => (box.1 <= OCR_CONFIDENCE_THRESHOLD * 100)%Q
                         \/ strip (chars box.2) = []) boxes ->
      r = (EmptyString, 0%Q))
  /\ (Forall (fun box => (box.1 <= 100)%Q) boxes -> (r.2 <= 1)%Q).
Proof.
  intros r. subst r. unfold tesseract_extract.
  pose proof (tesseract_kept_spec boxes) as Hspec.
  split; [reflexivity |].
  assert (Hempty : tesseract_kept boxes = [] ->
            (join " " (map snd (tesseract_kept boxes)),
             if map fst (tesseract_kept boxes) is []
             then 0%Q else (mean (map fst (tesseract_kept boxes)) / 100)%Q)
            = (EmptyString, 0%Q)).
  { intros ->. reflexivity. }
  split; [exact Hempty |]. split; [| split].
  - intros Hne. destruct (tesseract_kept boxes) as [| [c s] kept] eqn:E;
      [congruence |].
    cbn [fst snd map]. split.
    + apply join_nonempty. inversion Hspec as [| ? ? (_ & H & _) _]; subst.
      exact H.
    + assert (Hall : Forall (fun x => (OCR_CONFIDENCE_THRESHOLD * 100 < x)%Q)
                       (c :: map fst kept)).
      { change (c :: map fst kept) with (map fst ((c, s) :: kept)).
        apply Forall_fmap. eapply Forall_impl; [exact Hspec |].
        intros [c' s'] (H & _). exact H. }
      pose proof (mean_above _ _ Hall ltac:(discriminate)) as Hmean.
      apply Qlt_shift_div_l; [reflexivity | exact Hmean].
  - intros Hall. apply Hempty.
    destruct (tesseract_kept boxes) as [| [c s] kept] eqn:E; [reflexivity |].
    exfalso. inversion Hspec as [| ? ? (Hc & Hs & t & Hin & Ht) _]; subst.
    cbn [fst snd] in *. rewrite Forall_forall in Hall.
    destruct (Hall _ Hin) as [Hle | Hblank]; cbn [fst snd] in *.
    + lra.
    + rewrite Hblank in Ht. apply Hs. exact Ht.
  - intros Hall. cbn [snd].
    destruct (tesseract_kept boxes) as [| [c s] kept] eqn:E; cbn [map fst];
      [lra |].
    assert (Hle : Forall (fun x => (x <= 100)%Q) (c :: map fst kept)).
    { change (c :: map fst kept) with (map fst ((c, s) :: kept)).
      apply Forall_fmap. eapply Forall_impl; [exact Hspec |].
      intros [c' s'] (_ & _ & t & Hin & _). cbn [fst snd] in *.
      rewrite Forall_forall in Hall. apply (Hall _ Hin). }
    pose proof (mean_below _ _ Hle ltac:(discriminate)) as Hmean.
    apply Qle_shift_div_r; [reflexivity | lra].
Qed.

Lemma tesseract_confidence_bounds_example :
  let boxes := [(96 # 1, "def"); (-1 # 1, "  "); (30 # 1, "blur"); (82 # 1, " f(x): ")]%Q in
  tesseract_kept boxes <> []
  /\ (tesseract_extract (Returns boxes)).1 <> EmptyString
  /\ (OCR_CONFIDENCE_THRESHOLD < (tesseract_extract (Returns boxes)).2)%Q.
Proof.
  cbv zeta.
  assert (H : tesseract_kept
                [(96 # 1, "def"); (-1 # 1, "  "); (30 # 1, "blur"); (82 # 1, " f(x): ")]%Q
              <> []) by (vm_compute; discriminate).
  split; [exact H |].
  apply (tesseract_confidence_bounds
           [(96 # 1, "def"); (-1 # 1, "  "); (30 # 1, "blur"); (82 # 1, " f(x): ")]%Q).
  exact H.
Defined.

(** ** Audio samples and vectors *)

Lemma int16_of_bytes_range (lo hi : byte) :
  -32768 <= int16_of_bytes lo hi < 32768.
Proof.
  unfold int16_of_bytes.
  pose proof (Byte.to_N_bounded lo). pose proof (Byte.to_N_bounded hi).
  destruct (Z.ltb_spec (Z.of_N (Byte.to_N lo) + 256 * Z.of_N (Byte.to_N hi)) 32768);
    lia.
Qed.

Lemma frombuffer_int16_pairs (n : nat) : forall chunk,
  (length chunk <= n)%nat ->
  (frombuffer_int16 chunk = Raises <-> Nat.Odd (length chunk))
  /\ (forall arr,
        frombuffer_int16 chunk = Returns arr ->
        length chunk = (2 * length arr)%nat
        /\ Forall (fun v => -32768 <= v < 32768) arr).
Proof.
  induction n as [| n IH]; intros chunk Hlen.
  - destruct chunk; [| simpl in Hlen; lia]. simpl. split.
    + split; [discriminate | intros [k Hk]; lia].
    + intros arr H. injection H as <-. split; [reflexivity | constructor].
  - destruct chunk as [| lo [| hi rest]].
    + simpl. split.
      * split; [discriminate | intros [k Hk]; lia].
      * intros arr H. injection H as <-. split; [reflexivity | constructor].
    + simpl. split.
      * split; [intros _; exists 0%nat; reflexivity | reflexivity].
      * intros arr H. discriminate H.
    + destruct (IH rest ltac:(simpl in Hlen; lia)) as [IHr IHa].
      cbn [frombuffer_int16]. destruct (frombuffer_int16 rest) as [arr' |].
      * split.
        -- split; [discriminate |]. intros [k Hk]. simpl in Hk.
           assert (Hodd : Nat.Odd (length rest)) by (exists (k - 1)%nat; lia).
           apply IHr in Hodd. discriminate Hodd.
        -- intros arr H. injection H as <-.
           destruct (IHa arr' eq_refl) as [Hl Hr]. split.
           ++ simpl. lia.
           ++ constructor; [apply int16_of_bytes_range | exact Hr].
      * split.
        -- split; [| reflexivity]. intros _.
           destruct (proj1 IHr eq_refl) as [k Hk]. exists (S k). simpl. lia.
        -- intros arr H. discriminate H.
Qed.

(** X13.  Reading a chunk as 16-bit samples raises exactly when the chunk
    has an odd number of bytes; otherwise it gives one sample for every two
    bytes, each between -32768 and 32767. *)
Theorem frombuffer_int16_spec (chunk : list byte) :
  (frombuffer_int16 chunk = Raises <-> Nat.Odd (length chunk))
  /\ (forall arr,
        frombuffer_int16 chunk = Returns arr ->
        length chunk = (2 * length arr)%nat
        /\ Forall (fun v => -32768 <= v < 32768) arr).
Proof. apply (frombuffer_int16_pairs (length chunk)). lia. Qed.

Lemma sum_squares_bounds (t : Z) (arr : list Z) :
  0 <= t ->
  (Forall (fun x => - t <= x <= t) arr ->
   sum_squares arr <= t * t * Z.of_nat (length arr))
  /\ (Forall (fun x => x < - t \/ t < x) arr -> arr <> [] ->
      t * t * Z.of_nat (length arr) < sum_squares arr).
Proof.
  intros Ht. unfold sum_squares. split.
  - intros Hall. induction Hall as [| x arr Hx Harr IH]; [simpl; lia |].
    cbn [foldr length]. rewrite Nat2Z.inj_succ. nia.
  - intros Hall. induction Hall as [| x arr Hx Harr IH]; intros Hne; [congruence |].
    cbn [foldr length]. rewrite Nat2Z.inj_succ.
    destruct arr as [| y arr'].
    + simpl. nia.
    + specialize (IH ltac:(discriminate)). nia.
Qed.

(** X14.  The energy heuristic is bounded by the samples: a chunk all of
    whose samples lie within -500..500 is never speech, silence and the
    empty chunk included, and a chunk that is not empty and all of whose
    samples lie outside that range always is. *)
Theorem energy_heuristic_bounds (audio_array : list Z) :
  (Forall (fun x => -500 <= x <= 500) audio_array ->
   energy_exceeds audio_array 500 = false)
  /\ (audio_array <> [] ->
      Forall (fun x => x < -500 \/ 500 < x) audio_array ->
      energy_exceeds audio_array 500 = true).
Proof.
  destruct (sum_squares_bounds 500 audio_array ltac:(lia)) as [Hlow Hhigh].
  split.
  - intros Hall. destruct (energy_exceeds audio_array 500) eqn:E; [| reflexivity].
    apply energy_exceeds_iff in E. specialize (Hlow Hall). lia.
  - intros Hne Hall. apply energy_exceeds_iff. apply Hhigh; assumption.
Qed.

Lemma energy_heuristic_bounds_example :
  Forall (fun x => -500 <= x <= 500) [500; -500; 499; 0]
  /\ energy_exceeds [500; -500; 499; 0] 500 = false.
Proof.
  assert (H : Forall (fun x => -500 <= x <= 500) [500; -500; 499; 0])
    by (repeat constructor; lia).
  split; [exact H |].
  apply (energy_heuristic_bounds [500; -500; 499; 0]). exact H.
Defined.

Lemma dot_raises (a : list Q) : forall b,
  dot a b = Raises <-> length a <> length b.
Proof.
  induction a as [| x a IH]; intros [| y b]; simpl.
  - split; [discriminate | congruence].
  - split; [intros _; discriminate | reflexivity].
  - split; [intros _; discriminate | reflexivity].
  - specialize (IH b). destruct (dot a b).
    + split; [discriminate |]. intros Hne.
      assert (H : length a <> length b) by congruence.
      apply IH in H. discriminate H.
    + split; [| reflexivity]. intros _ Heq.
      destruct (proj1 IH eq_refl). congruence.
Qed.

(** ** The audio pipeline, pass after pass *)

Section AudioRunFacts.

Variable cfg : config.
Variable AUDIO_AVAILABLE : bool.

Local Abbreviation pass := (process_audio_stream cfg AUDIO_AVAILABLE).
Local Abbreviation passes_run := (listen_all cfg AUDIO_AVAILABLE).

(** What a call of [detect_voice_activity] can do to the state. *)
Lemma detect_effect a inp chunk :
  let a1 := (detect_voice_activity cfg AUDIO_AVAILABLE a inp chunk).2 in
  vad a1 = vad a /\ user_voiceprint a1 = user_voiceprint a
  /\ is_recording a1 = is_recording a
  /\ non_user_speech_count a1 = non_user_speech_count a
  /\ speech_count a <= speech_count a1 <= speech_count a + 1
  /\ (AUDIO_AVAILABLE = false \/ vad a = None -> a1 = a).
Proof.
  unfold detect_voice_activity.
  destruct AUDIO_AVAILABLE; [| simpl; repeat split; lia].
  destruct (vad a) as [detector |] eqn:Hv;
    [| simpl; rewrite ?Hv; repeat split; lia].
  cbv zeta.
  destruct (_ <? _); [simpl; rewrite ?Hv; repeat split; try lia;
                      intros [H | H]; discriminate H |].
  destruct (detector _ _) as [[|] |]; simpl; rewrite ?Hv;
    try (repeat split; try lia; intros [H | H]; discriminate H).
  destruct (frombuffer_int16 chunk); simpl; rewrite ?Hv;
    repeat split; try lia; intros [H | H]; discriminate H.
Qed.

(** What a call of [is_user_speaking] can do to the state. *)
Lemma is_user_speaking_effect a inp :
  let a1 := (is_user_speaking cfg a inp).2 in
  vad a1 = vad a /\ user_voiceprint a1 = user_voiceprint a
  /\ is_recording a1 = is_recording a
  /\ speech_count a1 = speech_count a
  /\ non_user_speech_count a <= non_user_speech_count a1
     <= non_user_speech_count a + 1.
Proof.
  unfold is_user_speaking.
  destruct (user_voiceprint a) as [v |] eqn:Hv; [| simpl; rewrite ?Hv; repeat split; lia].
  destruct (dot (embedding inp) v); [| simpl; rewrite ?Hv; repeat split; lia].
  destruct (Qltb _ _); simpl; rewrite ?Hv; repeat split; lia.
Qed.

Lemma pass_effect a inp :
  let a' := (pass a inp).2 in
  vad a' = vad a /\ user_voiceprint a' = user_voiceprint a
  /\ is_recording a' = is_recording a
  /\ speech_count a <= speech_count a' <= speech_count a + 1
  /\ non_user_speech_count a <= non_user_speech_count a'
     <= non_user_speech_count a + 1
  /\ (AUDIO_AVAILABLE = false \/ vad a = None -> speech_count a' = speech_count a).
Proof.
  unfold process_audio_stream.
  destruct (capture_audio_chunk AUDIO_AVAILABLE a inp) as [chunk |];
    [| simpl; repeat split; lia].
  pose proof (detect_effect a inp chunk) as Hd. cbv zeta in Hd.
  destruct (detect_voice_activity cfg AUDIO_AVAILABLE a inp chunk) as [[[|] |] a1];
    cbn [snd] in *; destruct Hd as (D1 & D2 & D3 & D4 & D5 & D6);
    try (repeat split; try congruence; try lia;
         intros H; rewrite (D6 H); reflexivity).
  pose proof (is_user_speaking_effect a1 inp) as Hu. cbv zeta in Hu.
  destruct (is_user_speaking cfg a1 inp) as [[[|] |] a2];
    cbn [snd] in *; destruct Hu as (U1 & U2 & U3 & U4 & U5);
    repeat split; try congruence; try lia;
    intros H; rewrite U4, (D6 H); reflexivity.
Qed.

Lemma pass_not_recording a inp :
  is_recording a = false -> pass a inp = ([CaptureStage], Returns None, a).
Proof.
  intros Hr. unfold process_audio_stream, capture_audio_chunk.
  rewrite Hr. reflexivity.
Qed.

Lemma pass_returns_question a inp stages tr a' :
  pass a inp = (stages, Returns (Some tr), a') ->
  tr = transcribe_speech cfg inp
  /\ tr_is_question tr = true
  /\ stages = [CaptureStage; VoiceActivityStage; SpeakerStage; TranscribeStage]
  /\ is_recording a = true.
Proof.
  unfold process_audio_stream, capture_audio_chunk.
  destruct (is_recording a); [| discriminate]. simpl negb. cbv iota.
  destruct (if negb AUDIO_AVAILABLE then Some (mock_chunk inp) else stream_read inp)
    as [chunk |]; [| discriminate].
  destruct (detect_voice_activity cfg AUDIO_AVAILABLE a inp chunk) as [[[|] |] a1];
    try discriminate.
  destruct (is_user_speaking cfg a1 inp) as [[[|] |] a2]; try discriminate.
  destruct (tr_is_question (transcribe_speech cfg inp)) eqn:Hq; [| discriminate].
  intros H. injection H as <- <- <-. auto.
Qed.

Lemma listen_all_snoc passes : forall a inp,
  passes_run a (passes ++ [inp])
  = ((passes_run a passes).1 ++ [(pass (passes_run a passes).2 inp).1.2],
     (pass (passes_run a passes).2 inp).2).
Proof.
  induction passes as [| p passes IH]; intros a inp; simpl.
  - destruct (pass a inp) as [[stages result] a']. reflexivity.
  - destruct (pass a p) as [[stages result] a'].
    rewrite IH. destruct (passes_run a' passes) as [results a'']. reflexivity.
Qed.

Lemma listen_all_effect passes : forall a,
  let a' := (passes_run a passes).2 in
  vad a' = vad a /\ user_voiceprint a' = user_voiceprint a
  /\ is_recording a' = is_recording a
  /\ speech_count a <= speech_count a' <= speech_count a + Z.of_nat (length passes)
  /\ non_user_speech_count a <= non_user_speech_count a'
     <= non_user_speech_count a + Z.of_nat (length passes)
  /\ (AUDIO_AVAILABLE = false \/ vad a = None -> speech_count a' = speech_count a).
Proof.
  induction passes as [| inp passes IH]; intros a.
  - simpl. repeat split; lia.
  - cbn [listen_all].
    pose proof (pass_effect a inp) as Hp. cbv zeta in Hp.
    destruct (pass a inp) as [[stages result] a1]. cbn [snd] in Hp.
    specialize (IH a1). cbv zeta in IH.
    destruct (passes_run a1 passes) as [results a2]. cbn [snd] in *.
    destruct Hp as (P1 & P2 & P3 & P4 & P5 & P6).
    destruct IH as (I1 & I2 & I3 & I4 & I5 & I6).
    cbn [length]. rewrite Nat2Z.inj_succ.
    repeat split; try congruence; try lia.
    intros H. rewrite I6, (P6 H); [reflexivity |].
    destruct H as [H | H]; [left; exact H | right; congruence].
Qed.

End AudioRunFacts.

Lemma transcribe_speech_text cfg inp :
  In (tr_text (transcribe_speech cfg inp)) mock_transcriptions.
Proof.
  unfold transcribe_speech. cbn [tr_text].
  assert (Hlt : (transcript_choice inp `mod` length mock_transcriptions
                 < length mock_transcriptions)%nat)
    by (apply Nat.mod_upper_bound; discriminate).
  destruct (lookup_lt_is_Some_2 _ _ Hlt) as [text Htext].
  rewrite Htext. cbn [default]. rewrite <- list_elem_of_In.
  eapply list_elem_of_lookup_2, Htext.
Qed.

Lemma default_questions cfg inp :
  QUESTION_PATTERNS cfg = QUESTION_PATTERNS default_config ->
  tr_is_question (transcribe_speech cfg inp) = true ->
  In (tr_text (transcribe_speech cfg inp)) (take 6 mock_transcriptions).
Proof.
  intros Hp. unfold transcribe_speech. cbn [tr_text tr_is_question].
  unfold _is_question. rewrite Hp.
  assert (Hlt : (transcript_choice inp `mod` length mock_transcriptions < 9)%nat)
    by (apply Nat.mod_upper_bound; discriminate).
  destruct (transcript_choice inp `mod` length mock_transcriptions)%nat as [| k];
    [intros _; vm_compute; tauto |].
  do 5 (destruct k as [| k]; [intros _; vm_compute; tauto |]).
  do 3 (destruct k as [| k]; [vm_compute; discriminate |]).
  lia.
Qed.

(** X15.  What [process_audio_stream] hands to its caller is always the
    transcript of that pass, classified as a question and taken from the
    fixed list of sample sentences; the subsystem was recording and the pass
    went through all four stages.  With the default patterns only the first
    six sample sentences can be returned. *)
Theorem pipeline_returns_only_questions (cfg : config) (AUDIO_AVAILABLE : bool)
    (a : AudioSubsystem) (inp : AudioInputs) (stages : list Stage)
    (tr : Transcription) (a' : AudioSubsystem) :
  process_audio_stream cfg AUDIO_AVAILABLE a inp = (stages, Returns (Some tr), a') ->
  tr = transcribe_speech cfg inp
  /\ tr_is_question tr = true
  /\ _is_question cfg (tr_text tr) = true
  /\ In (tr_text tr) mock_transcriptions
  /\ (QUESTION_PATTERNS cfg = QUESTION_PATTERNS default_config ->
      In (tr_text tr) (take 6 mock_transcriptions))
  /\ stages = [CaptureStage; VoiceActivityStage; SpeakerStage; TranscribeStage]
  /\ is_recording a = true.
Proof.
  intros H.
  destruct (pass_returns_question cfg AUDIO_AVAILABLE a inp stages tr a' H)
    as (-> & Hq & Hs & Hr).
  repeat split; try assumption.
  - apply transcribe_speech_text.
  - intros Hp. apply default_questions; assumption.
Qed.

Lemma pipeline_returns_only_questions_example :
  process_audio_stream default_config false (listening None)
    (heard loud_chunk (1 # 10) orthogonal_embedding)
  = ([CaptureStage; VoiceActivityStage; SpeakerStage; TranscribeStage],
     Returns (Some (transcribe_speech default_config
                      (heard loud_chunk (1 # 10) orthogonal_embedding))),
     listening None)
  /\ In (tr_text (transcribe_speech default_config
                    (heard loud_chunk (1 # 10) orthogonal_embedding)))
        (take 6 mock_transcriptions).
Proof.
  assert (Hrun : process_audio_stream default_config false (listening None)
                   (heard loud_chunk (1 # 10) orthogonal_embedding)
                 = ([CaptureStage; VoiceActivityStage; SpeakerStage; TranscribeStage],
                    Returns (Some (transcribe_speech default_config
                              (heard loud_chunk (1 # 10) orthogonal_embedding))),
                    listening None))
    by (vm_compute; reflexivity).
  split; [exact Hrun |].
  apply (pipeline_returns_only_questions _ _ _ _ _ _ _ Hrun). reflexivity.
Defined.

(** X16.  A subsystem that is not recording captures nothing: every pass
    returns [None] after the capture stage and the state is left alone.  This
    is the case for a subsystem that was never started and for one that was
    stopped, whatever was heard before. *)
Theorem stopped_pipeline_is_silent (cfg : config) (AUDIO_AVAILABLE : bool)
    (passes : list AudioInputs) :
  (forall a, is_recording a = false ->
     listen_all cfg AUDIO_AVAILABLE a passes
     = (replicate (length passes) (Returns None), a))
  /\ (forall detector,
        listen_all cfg AUDIO_AVAILABLE (AudioSubsystem_init AUDIO_AVAILABLE detector) passes
        = (replicate (length passes) (Returns None),
           AudioSubsystem_init AUDIO_AVAILABLE detector))
  /\ (forall a,
        listen_all cfg AUDIO_AVAILABLE (AudioSubsystem_stop a) passes
        = (replicate (length passes) (Returns None), AudioSubsystem_stop a)).
Proof.
  assert (Hsilent : forall a, is_recording a = false ->
            listen_all cfg AUDIO_AVAILABLE a passes
            = (replicate (length passes) (Returns None), a)).
  { induction passes as [| inp passes IH]; intros a Hr; [reflexivity |].
    cbn [listen_all]. rewrite (pass_not_recording _ _ _ _ Hr), (IH a Hr).
    reflexivity. }
  split; [exact Hsilent |].
  split; intros; apply Hsilent; reflexivity.
Qed.

(** X17.  Over any number of passes of the pipeline the voice detector, the
    voiceprint and the recording flag stay as they were, and each of the two
    counters never decreases and grows by at most one per pass. *)
Theorem pipeline_counters (cfg : config) (AUDIO_AVAILABLE : bool)
    (a : AudioSubsystem) (passes : list AudioInputs) :
  let a' := (listen_all cfg AUDIO_AVAILABLE a passes).2 in
  vad a' = vad a /\ user_voiceprint a' = user_voiceprint a
  /\ is_recording a' = is_recording a
  /\ speech_count a <= speech_count a' <= speech_count a + Z.of_nat (length passes)
  /\ non_user_speech_count a <= non_user_speech_count a'
     <= non_user_speech_count a + Z.of_nat (length passes)
  /\ length (listen_all cfg AUDIO_AVAILABLE a passes).1 = length passes.
Proof.
  cbv zeta.
  destruct (listen_all_effect cfg AUDIO_AVAILABLE passes a)
    as (H1 & H2 & H3 & H4 & H5 & _).
  repeat split; try assumption; try lia.
  clear. revert a. induction passes as [| inp passes IH]; intros a; [reflexivity |].
  cbn [listen_all].
  destruct (process_audio_stream cfg AUDIO_AVAILABLE a inp) as [[stages result] a1].
  specialize (IH a1).
  destruct (listen_all cfg AUDIO_AVAILABLE a1 passes) as [results a2].
  cbn [fst length] in *. congruence.
Qed.

(** X18.  In mock mode, and whenever the voice detector could not be
    created, detected speech is never counted: [total_speech_detected] stays
    as it was while [non_user_speech] can grow, so the reported
    [user_speech_filtered] never increases, and from a fresh subsystem it is
    the negated number of speakers taken for someone else. *)
Theorem mock_mode_statistics (cfg : config) (AUDIO_AVAILABLE : bool)
    (a : AudioSubsystem) (passes : list AudioInputs) :
  AUDIO_AVAILABLE = false \/ vad a = None ->
  let before := AudioSubsystem_get_stats a in
  let after := AudioSubsystem_get_stats (listen_all cfg AUDIO_AVAILABLE a passes).2 in
  as_total_speech_detected after = as_total_speech_detected before
  /\ as_user_speech_filtered after <= as_user_speech_filtered before
  /\ as_user_speech_filtered after
     = as_user_speech_filtered before
       - (as_non_user_speech after - as_non_user_speech before)
  /\ (speech_count a = 0 -> non_user_speech_count a = 0 ->
      as_user_speech_filtered after = - as_non_user_speech after
      /\ as_user_speech_filtered after <= 0).
Proof.
  intros Hmock. cbv zeta.
  destruct (listen_all_effect cfg AUDIO_AVAILABLE passes a)
    as (_ & _ & _ & _ & H5 & H6).
  specialize (H6 Hmock). unfold AudioSubsystem_get_stats.
  cbn [as_total_speech_detected as_user_speech_filtered as_non_user_speech].
  repeat split; try lia.
Qed.

Lemma mock_mode_statistics_example :
  as_user_speech_filtered
    (AudioSubsystem_get_stats
       (listen_all default_config false (listening (Some unit_voiceprint))
          [heard loud_chunk (1 # 10) orthogonal_embedding;
           heard loud_chunk (1 # 10) orthogonal_embedding]).2) = -2.
Proof.
  destruct (mock_mode_statistics default_config false (listening (Some unit_voiceprint))
              [heard loud_chunk (1 # 10) orthogonal_embedding;
               heard loud_chunk (1 # 10) orthogonal_embedding]
              (or_introl eq_refl)) as (_ & _ & _ & Hfresh).
  destruct (Hfresh eq_refl eq_refl) as [-> _].
  vm_compute. reflexivity.
Defined.

(** ** The answer generator *)

Lemma split_go_pending (s : list ascii) : forall cur,
  cur <> [] -> split_go cur s <> [].
Proof.
  induction s as [| c s IH]; intros cur Hcur; simpl.
  - destruct cur; [congruence | discriminate].
  - destruct (is_space c).
    + destruct cur; [congruence | discriminate].
    + apply IH. discriminate.
Qed.

Lemma split_word (c : ascii) (s : string) :
  is_space c = false -> (1 <= length (split (chars (String c s))))%nat.
Proof.
  intros Hc. unfold split. rewrite length_map.
  change (chars (String c s)) with (c :: chars s).
  cbn [split_go]. rewrite Hc.
  pose proof (split_go_pending (chars s) [c]) as Hne.
  destruct (split_go [c] (chars s)); [exfalso; apply Hne; [discriminate | reflexivity] |].
  simpl. lia.
Qed.

(** Every canned answer begins with a letter. *)
Lemma choose_answer_head (question_lower : list ascii) (choice : nat) :
  exists c rest,
    choose (answers_for question_lower) choice = String c rest
    /\ is_space c = false.
Proof.
  assert (Hthree : forall answers, length answers = 3%nat ->
            Forall (fun a => exists c rest, a = String c rest /\ is_space c = false)
              answers ->
            exists c rest, choose answers choice = String c rest
                           /\ is_space c = false).
  { intros answers Hlen Hall. unfold choose.
    assert (Hlt : (choice `mod` length answers < length answers)%nat)
      by (apply Nat.mod_upper_bound; lia).
    destruct (lookup_lt_is_Some_2 _ _ Hlt) as [a Ha]. rewrite Ha. cbn [default].
    rewrite Forall_lookup in Hall. exact (Hall _ _ Ha). }
  unfold answers_for.
  repeat match goal with |- context [if ?b then _ else _] => destruct b end;
    (apply Hthree; [reflexivity |]);
    do 3 (constructor; [eexists; eexists; split; reflexivity |]); constructor.
Qed.

Lemma mock_answer_shape l question context keyframe_data ocr_text inp :
  let r := _mock_generate_answer l question context keyframe_data ocr_text inp in
  100 < tokens_used r.1
  /\ model r.1 = LLM_MODEL
  /\ total_tokens_used r.2 = total_tokens_used l + tokens_used r.1
  /\ total_calls r.2 = total_calls l
  /\ use_mock r.2 = use_mock l /\ api_key r.2 = api_key l.
Proof.
  unfold _mock_generate_answer. cbv zeta. cbn [fst snd tokens_used model
    total_tokens_used total_calls use_mock api_key].
  repeat split.
  destruct (choose_answer_head (lower (chars question)) (answer_choice inp))
    as (c & rest & -> & Hc).
  match goal with
  | |- 100 < Z.of_nat (length (split (chars ?t))) + _ + 100 =>
      assert (Hw : (1 <= length (split (chars t)))%nat)
  end.
  { destruct (nonempty_text ocr_text); destruct (1 <? _)%nat;
      apply (split_word c _ Hc). }
  lia.
Qed.

Lemma generate_answer_shape l question context keyframe_data ocr_text inp :
  let r := generate_answer l question context keyframe_data ocr_text inp in
  100 < tokens_used r.1
  /\ model r.1 = LLM_MODEL
  /\ total_tokens_used r.2 = total_tokens_used l + tokens_used r.1
  /\ total_calls r.2 = total_calls l + 1
  /\ use_mock r.2 = use_mock l /\ api_key r.2 = api_key l.
Proof.
  unfold generate_answer, _real_generate_answer. cbv zeta.
  cbn [use_mock].
  match goal with
  | |- context [_mock_generate_answer ?l1 _ _ _ _ _] =>
      pose proof (mock_answer_shape l1 question context keyframe_data ocr_text inp)
        as Hm
  end.
  cbv zeta in Hm. cbn [total_tokens_used total_calls use_mock api_key] in Hm.
  destruct (use_mock l); exact Hm.
Qed.

(** X19.  The answer that [generate_answer] returns depends on the question,
    the text on screen, the number of recent events in the context and the
    draws, and on nothing else: not on the mode (the real mode goes to the
    mock), the key or the calls made before, not on the keyframe data, and
    not on what the recent events or the summary say. *)
Theorem answer_ignores_mode_and_history (l1 l2 : LLMIntegration)
    (question : string) (c1 c2 : Context) (k1 k2 : option FrameData)
    (ocr_text : option string) (inp : LLMInputs) :
  length (recent_events c1) = length (recent_events c2) ->
  (generate_answer l1 question c1 k1 ocr_text inp).1
  = (generate_answer l2 question c2 k2 ocr_text inp).1.
Proof.
  intros Hlen. unfold generate_answer, _real_generate_answer.
  cbn [use_mock].
  destruct (use_mock l1), (use_mock l2);
    unfold _mock_generate_answer; cbv zeta; cbn [fst]; rewrite Hlen; reflexivity.
Qed.

Lemma answer_ignores_mode_and_history_example :
  let strftime : Q -> string := fun _ => "2026-01-01 00:00:00" in
  let m := run_operations default_config (MemorySubsystem_init 0 0) exchange in
  let inp := {| answer_choice := 1; answer_confidence := 9 # 10;
                answer_time := 5 # 1 |} in
  (generate_answer (LLMIntegration_init None true) "How do I fix this?"
     (get_context_for_llm strftime m (5 # 1)) None (Some "def f(x):") inp).1
  = (generate_answer (LLMIntegration_init (Some "key") false) "How do I fix this?"
       {| session_duration := 0; ctx_total_interactions := 0;
          latest_summary := None;
          recent_events := get_recent_context strftime
                             (run_operations default_config
                                (MemorySubsystem_init 0 0) (rev exchange)) 5 |}
       (Some {| fd_ocr_text := None; fd_confidence := None |})
       (Some "def f(x):") inp).1.
Proof.
  intros strftime m inp.
  apply (answer_ignores_mode_and_history (LLMIntegration_init None true)
           (LLMIntegration_init (Some "key") false)).
  reflexivity.
Defined.

Lemma answer_all_accounting (l : LLMIntegration)
    (calls : list (string * Context * option string * LLMInputs)) :
  let r := answer_all l calls in
  length r.1 = length calls
  /\ total_calls r.2 = total_calls l + Z.of_nat (length calls)
  /\ total_tokens_used r.2
     = total_tokens_used l + foldr Z.add 0 (map tokens_used r.1)
  /\ Forall (fun a => 100 < tokens_used a /\ model a = LLM_MODEL) r.1
  /\ total_tokens_used l + 101 * Z.of_nat (length calls) <= total_tokens_used r.2
  /\ use_mock r.2 = use_mock l
  /\ api_key r.2 = api_key l.
Proof.
  revert l. induction calls as [| [[[question context] ocr_text] inp] calls IH];
    intros l; cbv zeta.
  - simpl. repeat split; try lia. constructor.
  - cbn [answer_all].
    pose proof (generate_answer_shape l question context None ocr_text inp) as Hg.
    cbv zeta in Hg.
    destruct (generate_answer l question context None ocr_text inp) as [a l1].
    cbn [fst snd] in Hg. destruct Hg as (G1 & G2 & G3 & G4 & G5 & G6).
    specialize (IH l1). cbv zeta in IH.
    destruct (answer_all l1 calls) as [answers l2]. cbn [fst snd] in *.
    destruct IH as (I1 & I2 & I3 & I4 & I5 & I6 & I7).
    cbn [length map foldr]. rewrite Nat2Z.inj_succ.
    repeat split; try congruence; try lia.
    constructor; [split; assumption | exact I4].
Qed.


(** X20.  Over any run of calls the integration counts every call once and
    adds up the tokens it reported; every answer names the configured model
    and is charged more than the flat 100 tokens, so the total grows by more
    than 100 per call; the mode and the key never change. *)
Theorem llm_token_accounting (l : LLMIntegration)
    (calls : list (string * Context * option string * LLMInputs)) :
  let r := answer_all l calls in
  length r.1 = length calls
  /\ total_calls r.2 = total_calls l + Z.of_nat (length calls)
  /\ total_tokens_used r.2
     = total_tokens_used l + foldr Z.add 0 (map tokens_used r.1)
  /\ Forall (fun a => 100 < tokens_used a /\ model a = LLM_MODEL) r.1
  /\ total_tokens_used l + 101 * Z.of_nat (length calls) <= total_tokens_used r.2
  /\ use_mock r.2 = use_mock l
  /\ api_key r.2 = api_key l.
Proof. apply answer_all_accounting. Qed.

(** X21.  The statistics of the integration: before any call the average
    is 0 (the divisor is never below 1), after at least one call of a fresh
    integration it is above 100, and the mode shown is the one chosen at
    construction. *)
Theorem llm_average_tokens (key : option string) (mock : bool)
    (calls : list (string * Context * option string * LLMInputs)) :
  let fresh := LLMIntegration_init key mock in
  let stats := LLMIntegration_get_stats (answer_all fresh calls).2 in
  (ls_average_tokens_per_call (LLMIntegration_get_stats fresh) == 0)%Q
  /\ ls_total_calls stats = Z.of_nat (length calls)
  /\ ls_mode stats = (if mock then "MOCK" else "REAL")
  /\ (calls <> [] -> (100 < ls_average_tokens_per_call stats)%Q).
Proof.
  cbv zeta.
  destruct (answer_all_accounting (LLMIntegration_init key mock) calls)
    as (H1 & H2 & H3 & H4 & H5 & H6 & H7).
  cbv zeta in *. unfold LLMIntegration_get_stats.
  cbn [ls_average_tokens_per_call ls_total_calls ls_mode] in *.
  cbn [LLMIntegration_init total_calls total_tokens_used use_mock] in *.
  split; [reflexivity |].
  split; [lia |].
  split; [rewrite H6; reflexivity |].
  intros Hne.
  assert (Hn : 1 <= Z.of_nat (length calls))
    by (destruct calls; [congruence | cbn [length]; lia]).
  rewrite H2. replace (Z.max 1 (0 + Z.of_nat (length calls)))
    with (Z.of_nat (length calls)) by lia.
  apply Qlt_shift_div_l.
  - change 0%Q with (inject_Z 0). rewrite <- Zlt_Qlt. lia.
  - change 100%Q with (inject_Z 100).
    rewrite <- inject_Z_mult, <- Zlt_Qlt. lia.
Qed.

Lemma llm_average_tokens_example :
  (100 < ls_average_tokens_per_call
           (LLMIntegration_get_stats
              (answer_all (LLMIntegration_init None true)
                 [("How do I fix this?",
                   {| session_duration := 0; ctx_total_interactions := 0;
                      latest_summary := None; recent_events := [] |},
                   None,
                   {| answer_choice := 0; answer_confidence := 9 # 10;
                      answer_time := 5 # 1 |})]).2))%Q.
Proof.
  apply (llm_average_tokens None true
           [("How do I fix this?",
             {| session_duration := 0; ctx_total_interactions := 0;
                latest_summary := None; recent_events := [] |},
             None,
             {| answer_choice := 0; answer_confidence := 9 # 10;
                answer_time := 5 # 1 |})]).
  discriminate.
Defined.

(** X22.  The prompt built for the service always ends with the question
    under its heading; with no summary, no text on screen and no recent
    event it is that heading and the question alone. *)
Theorem prompt_ends_with_question (question : string) (context : Context)
    (ocr_text : option string) :
  (exists pre,
     _build_prompt question context ocr_text
     = pre +:+ newline +:+ "Question: " +:+ question)
  /\ (latest_summary context = None -> nonempty_text ocr_text = None ->
      recent_events context = [] ->
      _build_prompt question context ocr_text
      = newline +:+ "Question: " +:+ question).
Proof.
  split.
  - unfold _build_prompt. cbv zeta. apply join_snoc.
  - intros Hs Ho Hr. unfold _build_prompt. rewrite Hs, Ho, Hr. reflexivity.
Qed.

(** ** The orchestrator *)

Section OrchestratorFacts.

Variable cfg : config.
Variable AUDIO_AVAILABLE : bool.
Variable strftime : Q -> string.
Variable Frame : Type.

Local Abbreviation audio_step :=
  (MultimodalAssistant_process_audio_stream cfg AUDIO_AVAILABLE strftime Frame).
Local Abbreviation audio_loop := (_audio_loop cfg AUDIO_AVAILABLE strftime Frame).
Local Abbreviation summary_check := (check_and_create_summary cfg Frame).
Local Abbreviation start_all := (start cfg AUDIO_AVAILABLE Frame).
Local Abbreviation stop_all := (stop strftime Frame).

Lemma with_memory_same (v : MultimodalAssistant Frame) :
  with_memory v (memory v) = v.
Proof. destruct v. reflexivity. Qed.

(** What one audio step can do to the assistant. *)
Lemma audio_step_effect (s : Assistant Frame) inp llm_inp clk :
  let r := audio_step s inp llm_inp clk in
  let n := if answered r.1 then 1 else 0 in
  questions_answered r.2 = questions_answered s + n
  /\ total_calls (llm r.2) = total_calls (llm s) + n
  /\ total_interactions (memory (visual r.2))
     = total_interactions (memory (visual s)) + n
  /\ camera (visual r.2) = camera (visual s)
  /\ ocr (visual r.2) = ocr (visual s)
  /\ current_keyframe (visual r.2) = current_keyframe (visual s)
  /\ current_ocr_text (visual r.2) = current_ocr_text (visual s)
  /\ summaries (memory (visual r.2)) = summaries (memory (visual s))
  /\ last_summary_time (memory (visual r.2)) = last_summary_time (memory (visual s))
  /\ is_running r.2 = is_running s
  /\ start_time r.2 = start_time s
  /\ (answered r.1 = false ->
      visual r.2 = visual s /\ llm r.2 = llm s
      /\ answer_overlay r.2 = answer_overlay s).
Proof.
  unfold MultimodalAssistant_process_audio_stream.
  destruct (process_audio_stream cfg AUDIO_AVAILABLE (audio s) inp)
    as [[stages [[tr |] |]] audio'].
  - match goal with
    | |- context [generate_answer ?l ?q ?c ?k ?o ?i] =>
        pose proof (generate_answer_shape l q c k o i) as Hg;
        destruct (generate_answer l q c k o i) as [answer_result llm']
    end.
    cbv zeta in Hg. cbn [fst snd] in Hg.
    destruct Hg as (_ & _ & _ & G4 & _).
    cbv zeta. cbn. repeat split; try lia; try discriminate.
  - cbv zeta. cbn. repeat split; lia.
  - cbv zeta. cbn. repeat split; lia.
Qed.

Lemma audio_loop_stopped (s : Assistant Frame) steps :
  is_running s = false -> audio_loop s steps = ([], s).
Proof.
  intros Hr. destruct steps as [| [[inp llm_inp] clk] steps]; [reflexivity |].
  cbn [_audio_loop]. rewrite Hr. reflexivity.
Qed.

Lemma audio_loop_effect steps : forall (s : Assistant Frame),
  let r := audio_loop s steps in
  let n := Z.of_nat (length (List.filter answered r.1)) in
  questions_answered r.2 = questions_answered s + n
  /\ total_calls (llm r.2) = total_calls (llm s) + n
  /\ total_interactions (memory (visual r.2))
     = total_interactions (memory (visual s)) + n
  /\ camera (visual r.2) = camera (visual s)
  /\ ocr (visual r.2) = ocr (visual s)
  /\ current_keyframe (visual r.2) = current_keyframe (visual s)
  /\ current_ocr_text (visual r.2) = current_ocr_text (visual s)
  /\ summaries (memory (visual r.2)) = summaries (memory (visual s))
  /\ last_summary_time (memory (visual r.2)) = last_summary_time (memory (visual s))
  /\ is_running r.2 = is_running s
  /\ start_time r.2 = start_time s
  /\ (is_running s = true -> length r.1 = length steps).
Proof.
  induction steps as [| [[inp llm_inp] clk] steps IH]; intros s; cbv zeta.
  - simpl. repeat split; lia.
  - cbn [_audio_loop]. destruct (is_running s) eqn:Hrun;
      [| cbn; rewrite ?Hrun; repeat split; try lia; discriminate].
    pose proof (audio_step_effect s inp llm_inp clk) as Hs. cbv zeta in Hs.
    destruct (audio_step s inp llm_inp clk) as [result s1]. cbn [fst snd] in Hs.
    specialize (IH s1). cbv zeta in IH.
    destruct (audio_loop s1 steps) as [results s2]. cbn [fst snd] in *.
    destruct Hs as (S1 & S2 & S3 & S4 & S5 & S6 & S7 & S8 & S9 & S10 & S11 & _).
    destruct IH as (I1 & I2 & I3 & I4 & I5 & I6 & I7 & I8 & I9 & I10 & I11 & I12).
    cbn [List.filter length].
    assert (Hn : Z.of_nat (length (if answered result
                                   then result :: List.filter answered results
                                   else List.filter answered results))
                 = (if answered result then 1 else 0)
                   + Z.of_nat (length (List.filter answered results)))
      by (destruct (answered result); cbn [length]; lia).
    rewrite Hn.
    repeat split; try congruence; try lia.
    intros _. rewrite I12 by congruence. reflexivity.
Qed.

Lemma deque_append_twice {A : Type} maxlen (d : list A) x y :
  (2 <= maxlen)%nat ->
  exists k, deque_append maxlen (deque_append maxlen d x) y = drop k d ++ [x; y].
Proof.
  intros Hcap. unfold deque_append.
  destruct (Nat.ltb_spec maxlen (length (d ++ [x]))) as [H1 | H1].
  - destruct d as [| z d]; [simpl in H1; lia |]. cbn [app drop].
    rewrite drop_0.
    destruct (Nat.ltb_spec maxlen (length ((d ++ [x]) ++ [y]))) as [H2 | H2].
    + destruct d as [| w d]; [simpl in H2; lia |].
      exists 2%nat. cbn [app drop]. rewrite drop_0, <- app_assoc. reflexivity.
    + exists 1%nat. cbn [drop]. rewrite drop_0, <- app_assoc. reflexivity.
  - destruct (Nat.ltb_spec maxlen (length ((d ++ [x]) ++ [y]))) as [H2 | H2].
    + destruct d as [| z d]; [simpl in H2; lia |].
      exists 1%nat. cbn [app drop]. rewrite !drop_0, <- app_assoc. reflexivity.
    + exists 0%nat. rewrite drop_0, <- app_assoc. reflexivity.
Qed.

Lemma audio_step_answered (s : Assistant Frame) inp llm_inp clk s' :
  audio_step s inp llm_inp clk = (Returns true, s') ->
  exists stages ans,
    process_audio_stream cfg AUDIO_AVAILABLE (audio s) inp
    = (stages, Returns (Some (transcribe_speech cfg inp)), audio s')
    /\ memory_chunks (memory (visual s'))
       = deque_append (MAX_MEMORY_CHUNKS cfg)
           (deque_append (MAX_MEMORY_CHUNKS cfg) (memory_chunks (memory (visual s)))
              (MemoryChunk_init
                 (QuestionContent (tr_text (transcribe_speech cfg inp))
                    (tr_confidence (transcribe_speech cfg inp)))
                 None (t_question_chunk clk)))
           (MemoryChunk_init
              (AnswerContent ans (tr_text (transcribe_speech cfg inp)))
              None (t_answer_chunk clk)).
Proof.
  unfold MultimodalAssistant_process_audio_stream.
  destruct (process_audio_stream cfg AUDIO_AVAILABLE (audio s) inp)
    as [[stages [[tr |] |]] audio'] eqn:Hpass; try discriminate.
  destruct (pass_returns_question cfg AUDIO_AVAILABLE _ _ _ _ _ Hpass)
    as (-> & _).
  match goal with
  | |- context [generate_answer ?l ?q ?c ?k ?o ?i] =>
      destruct (generate_answer l q c k o i) as [answer_result llm']
  end.
  intros H. injection H as <-. cbn.
  exists stages, (answer answer_result). split; reflexivity.
Qed.

End OrchestratorFacts.

(** X23.  Over any run of the audio loop the number of questions answered,
    the number of calls of the answer generator and the interaction count of
    the memory all grow by the number of steps that returned [True]; the
    camera, the reader, the current keyframe and text, the summaries and
    their schedule, the running flag and the start time are left alone.  An
    assistant that is not running makes no step at all. *)
Theorem audio_loop_accounting (cfg : config) (AUDIO_AVAILABLE : bool)
    (strftime : Q -> string) (Frame : Type) (s : Assistant Frame)
    (steps : list (AudioInputs * LLMInputs * AnswerClock)) :
  let r := _audio_loop cfg AUDIO_AVAILABLE strftime Frame s steps in
  let n := Z.of_nat (length (List.filter answered r.1)) in
  (questions_answered r.2 = questions_answered s + n
   /\ total_calls (llm r.2) = total_calls (llm s) + n
   /\ total_interactions (memory (visual r.2))
      = total_interactions (memory (visual s)) + n)
  /\ (camera (visual r.2) = camera (visual s)
      /\ ocr (visual r.2) = ocr (visual s)
      /\ current_keyframe (visual r.2) = current_keyframe (visual s)
      /\ current_ocr_text (visual r.2) = current_ocr_text (visual s)
      /\ summaries (memory (visual r.2)) = summaries (memory (visual s))
      /\ last_summary_time (memory (visual r.2))
         = last_summary_time (memory (visual s))
      /\ is_running r.2 = is_running s
      /\ start_time r.2 = start_time s)
  /\ (if is_running s then length r.1 = length steps else r = ([], s))
  /\ (_audio_loop cfg AUDIO_AVAILABLE strftime Frame (stop strftime Frame s).2 steps
      = ([], (stop strftime Frame s).2)).
Proof.
  cbv zeta.
  destruct (audio_loop_effect cfg AUDIO_AVAILABLE strftime Frame steps s)
    as (H1 & H2 & H3 & H4 & H5 & H6 & H7 & H8 & H9 & H10 & H11 & H12).
  split; [auto |]. split; [repeat split; assumption |]. split.
  - destruct (is_running s) eqn:Hrun; [auto |].
    apply audio_loop_stopped, Hrun.
  - apply audio_loop_stopped. reflexivity.
Qed.

(** X24.  An audio step that answers puts the question and then its answer
    at the end of the buffer (given room for two chunks), ahead of them what
    is left of the earlier chunks; the answer chunk names the question it
    answers, and the question is the transcript of a pass of the audio
    pipeline that the classifier accepted. *)
Theorem audio_step_records_exchange (cfg : config) (AUDIO_AVAILABLE : bool)
    (strftime : Q -> string) (Frame : Type) (s : Assistant Frame)
    (inp : AudioInputs) (llm_inp : LLMInputs) (clk : AnswerClock)
    (s' : Assistant Frame) :
  (2 <= MAX_MEMORY_CHUNKS cfg)%nat ->
  MultimodalAssistant_process_audio_stream cfg AUDIO_AVAILABLE strftime Frame
    s inp llm_inp clk = (Returns true, s') ->
  let tr := transcribe_speech cfg inp in
  exists k ans,
    memory_chunks (memory (visual s'))
    = drop k (memory_chunks (memory (visual s)))
      ++ [ {| content := QuestionContent (tr_text tr) (tr_confidence tr);
              timestamp := t_question_chunk clk |};
           {| content := AnswerContent ans (tr_text tr);
              timestamp := t_answer_chunk clk |} ]
    /\ _is_question cfg (tr_text tr) = true
    /\ In (tr_text tr) mock_transcriptions
    /\ is_recording (audio s) = true
    /\ questions_answered s' = questions_answered s + 1.
Proof.
  intros Hcap Hstep. cbv zeta.
  destruct (audio_step_answered cfg AUDIO_AVAILABLE strftime Frame
              s inp llm_inp clk s' Hstep) as (stages & ans & Hpass & Hchunks).
  destruct (pass_returns_question cfg AUDIO_AVAILABLE _ _ _ _ _ Hpass)
    as (_ & Hq & _ & Hrec).
  destruct (deque_append_twice (MAX_MEMORY_CHUNKS cfg)
              (memory_chunks (memory (visual s)))
              (MemoryChunk_init
                 (QuestionContent (tr_text (transcribe_speech cfg inp))
                    (tr_confidence (transcribe_speech cfg inp)))
                 None (t_question_chunk clk))
              (MemoryChunk_init
                 (AnswerContent ans (tr_text (transcribe_speech cfg inp)))
                 None (t_answer_chunk clk)) Hcap) as [k Hk].
  exists k, ans. rewrite Hchunks, Hk.
  split; [reflexivity |]. split; [exact Hq |].
  split; [apply transcribe_speech_text |]. split; [exact Hrec |].
  pose proof (audio_step_effect cfg AUDIO_AVAILABLE strftime Frame
                s inp llm_inp clk) as He.
  cbv zeta in He. rewrite Hstep in He. cbn [fst snd answered] in He.
  tauto.
Qed.

Lemma audio_step_records_exchange_example :
  let r := MultimodalAssistant_process_audio_stream default_config false
             fixed_strftime unit running_assistant
             question_step.1.1 question_step.1.2 question_step.2 in
  r.1 = Returns true
  /\ exists k ans,
       memory_chunks (memory (visual r.2))
       = drop k (memory_chunks (memory (visual running_assistant)))
         ++ [ {| content := QuestionContent "What does this function do?" (9 # 10);
                 timestamp := 1001 # 1 |};
              {| content := AnswerContent ans "What does this function do?";
                 timestamp := 1002 # 1 |} ].
Proof.
  intros r.
  assert (Hres : r.1 = Returns true) by (vm_compute; reflexivity).
  split; [exact Hres |].
  assert (Hstep : MultimodalAssistant_process_audio_stream default_config false
                    fixed_strftime unit running_assistant
                    question_step.1.1 question_step.1.2 question_step.2
                  = (Returns true, r.2)).
  { fold r. rewrite <- Hres. destruct r; reflexivity. }
  assert (Hcap : (2 <= MAX_MEMORY_CHUNKS default_config)%nat) by (simpl; lia).
  destruct (audio_step_records_exchange default_config false fixed_strftime unit
              running_assistant question_step.1.1 question_step.1.2
              question_step.2 r.2 Hcap Hstep) as (k & ans & Hchunks & _).
  exists k, ans. exact Hchunks.
Defined.

(** Loading what [save_to_file] wrote gives the store back, but for the
    summary schedule, which stays that of the store loaded into. *)
Lemma load_saved_store cfg strftime m fresh now now_at :
  within_capacity cfg m -> stamped m ->
  load_from_file cfg fresh (Parsed (save_to_file strftime m)) now now_at
  = (true,
     {| memory_chunks := memory_chunks m;
        summaries := summaries m;
        last_summary_time := last_summary_time fresh;
        session_start_time := session_start_time m;
        total_interactions := total_interactions m |}).
Proof.
  intros Hcap [Hc Hs]. unfold load_from_file, save_to_file. simpl.
  f_equal. f_equal.
  - rewrite load_chunks_foldl.
    rewrite (imap_from_dict_to_dict strftime now_at _ 0 Hc).
    rewrite foldl_deque_append by (simpl; lia). simpl.
    unfold within_capacity in Hcap.
    replace (length (memory_chunks m) - MAX_MEMORY_CHUNKS cfg)%nat
      with 0%nat by lia.
    reflexivity.
  - rewrite load_summaries_app. simpl.
    apply (imap_from_dict_to_dict strftime). exact Hs.
Qed.

(** X25.  [check_and_create_summary] raises exactly when the interval has
    elapsed while the buffer is empty, and then leaves the assistant as it
    was, so the check raises again at every later reading; an assistant
    that has recorded nothing since construction raises once the interval
    is over.  Before the interval is over nothing happens; when it is over
    and the buffer holds a chunk, one summary is appended and the schedule
    starts again at the clock reading. *)
Theorem summary_check_outcomes (cfg : config) (Frame : Type)
    (s : Assistant Frame) (now : Q) (clk : SummaryClock) :
  let m := memory (visual s) in
  let r := check_and_create_summary cfg Frame s now clk in
  (r.1 = Raises
   <-> (SUMMARY_INTERVAL_SECONDS cfg <= now - last_summary_time m)%Q
       /\ memory_chunks m = [])
  /\ (r.1 = Raises -> r.2 = s)
  /\ ((now - last_summary_time m < SUMMARY_INTERVAL_SECONDS cfg)%Q ->
      r = (Returns tt, s))
  /\ ((SUMMARY_INTERVAL_SECONDS cfg <= now - last_summary_time m)%Q ->
      memory_chunks m <> [] ->
      r.1 = Returns tt
      /\ summaries (memory (visual r.2))
         = summaries m
           ++ [ {| content := SummaryContent (build_summary m clk);
                   timestamp := t_chunk clk |} ]
      /\ last_summary_time (memory (visual r.2)) = t_reset clk
      /\ memory_chunks (memory (visual r.2)) = memory_chunks m)
  /\ (forall AUDIO_AVAILABLE use_mock_llm detector now1 now2,
        (SUMMARY_INTERVAL_SECONDS cfg <= now - now1)%Q ->
        (check_and_create_summary cfg Frame
           (Assistant_init AUDIO_AVAILABLE Frame use_mock_llm detector now1 now2)
           now clk).1 = Raises).
Proof.
  cbv zeta.
  assert (Hempty : forall s0 : Assistant Frame,
            (SUMMARY_INTERVAL_SECONDS cfg
             <= now - last_summary_time (memory (visual s0)))%Q ->
            memory_chunks (memory (visual s0)) = [] ->
            check_and_create_summary cfg Frame s0 now clk = (Raises, s0)).
  { intros s0 Hdue He. unfold check_and_create_summary.
    rewrite (proj2 (should_create_summary_iff cfg _ now) Hdue).
    rewrite (create_summary_empty _ clk He).
    rewrite with_memory_same. destruct s0. reflexivity. }
  assert (Hfull : (SUMMARY_INTERVAL_SECONDS cfg
                   <= now - last_summary_time (memory (visual s)))%Q ->
            memory_chunks (memory (visual s)) <> [] ->
            (check_and_create_summary cfg Frame s now clk).1 = Returns tt
            /\ summaries (memory (visual (check_and_create_summary cfg Frame s now clk).2))
               = summaries (memory (visual s))
                 ++ [ {| content := SummaryContent (build_summary (memory (visual s)) clk);
                         timestamp := t_chunk clk |} ]
            /\ last_summary_time
                 (memory (visual (check_and_create_summary cfg Frame s now clk).2))
               = t_reset clk
            /\ memory_chunks
                 (memory (visual (check_and_create_summary cfg Frame s now clk).2))
               = memory_chunks (memory (visual s))).
  { intros Hdue Hne. unfold check_and_create_summary.
    rewrite (proj2 (should_create_summary_iff cfg _ now) Hdue).
    rewrite (create_summary_nonempty _ clk Hne). cbn. auto. }
  assert (Hearly : (now - last_summary_time (memory (visual s))
                    < SUMMARY_INTERVAL_SECONDS cfg)%Q ->
            check_and_create_summary cfg Frame s now clk = (Returns tt, s)).
  { intros Hlt. unfold check_and_create_summary.
    rewrite (should_create_summary_early cfg _ now Hlt). reflexivity. }
  assert (Hiff : (check_and_create_summary cfg Frame s now clk).1 = Raises
                 <-> (SUMMARY_INTERVAL_SECONDS cfg
                      <= now - last_summary_time (memory (visual s)))%Q
                     /\ memory_chunks (memory (visual s)) = []).
  { split.
    - intros Hraise.
      destruct (Qlt_le_dec (now - last_summary_time (memory (visual s)))
                  (SUMMARY_INTERVAL_SECONDS cfg)) as [Hlt | Hdue].
      + rewrite (Hearly Hlt) in Hraise. discriminate.
      + split; [exact Hdue |].
        assert (Hcase : memory_chunks (memory (visual s)) = []
                        \/ memory_chunks (memory (visual s)) <> [])
          by (destruct (memory_chunks (memory (visual s)));
              [left; reflexivity | right; discriminate]).
        destruct Hcase as [He | Hne]; [exact He |].
        destruct (Hfull Hdue Hne) as [Hret _]. congruence.
    - intros [Hdue He]. rewrite (Hempty s Hdue He). reflexivity. }
  split; [exact Hiff |].
  split; [intros Hraise; apply Hiff in Hraise as [Hdue He];
          rewrite (Hempty s Hdue He); reflexivity |].
  split; [exact Hearly |].
  split; [exact Hfull |].
  intros AV use_mock_llm detector now1 now2 Hdue.
  rewrite Hempty; [reflexivity | exact Hdue | reflexivity].
Qed.

(** X26.  [start] succeeds exactly when the camera opens and the audio
    starts (in mock mode always, else when the input stream opens).  After a
    successful start the assistant is running and recording and a voiceprint
    is stored, the one on file or else the random one, so the speaker check
    never runs without a voiceprint.  After a failed start the assistant is
    not marked running and its memory, start time and recording flag are as
    before; when the camera fails nothing at all has changed, when only the
    audio fails the voiceprint has been stored all the same.  What
    [load_from_file] returns is not looked at: after a successful start the
    memory is whatever the load left, unchanged for a file that is missing
    or cannot be parsed, and half replaced, with [start] succeeding all the
    same, for a document with an entry that cannot be rebuilt. *)
Theorem start_outcomes (cfg : config) (AUDIO_AVAILABLE : bool) (Frame : Type)
    (s : Assistant Frame) (inp : StartInputs) :
  let r := start cfg AUDIO_AVAILABLE Frame s inp in
  let loaded := load_from_file cfg (memory (visual s)) (memory_file inp)
                  (t_load inp) (t_load_at inp) in
  r.1 = camera_opened inp && (negb AUDIO_AVAILABLE || stream_opened inp)
  /\ (r.1 = true ->
      is_running r.2 = true
      /\ is_recording (audio r.2) = true
      /\ start_time r.2 = Some (t_start inp)
      /\ visual r.2 = with_memory (visual s) loaded.2
      /\ (memory_file inp = Missing \/ memory_file inp = Unreadable ->
          visual r.2 = visual s)
      /\ (forall read,
            memory_file inp = FailsInChunks read ->
            loaded.1 = false
            /\ session_start_time (memory (visual r.2))
               = default (t_load inp) (doc_session_start read)
            /\ total_interactions (memory (visual r.2))
               = default 0 (doc_total_interactions read)
            /\ memory_chunks (memory (visual r.2))
               = load_chunks cfg (t_load_at inp) 0 []
                   (default [] (doc_memory_chunks read))
            /\ summaries (memory (visual r.2)) = summaries (memory (visual s))))
  /\ (r.1 = false ->
      is_running r.2 = is_running s
      /\ visual r.2 = visual s
      /\ start_time r.2 = start_time s
      /\ is_recording (audio r.2) = is_recording (audio s))
  /\ (camera_opened inp = false -> r.2 = s)
  /\ (camera_opened inp = true ->
      user_voiceprint (audio r.2)
      = Some (default (random_voiceprint inp) (stored_voiceprint inp)))
  /\ llm r.2 = llm s
  /\ questions_answered r.2 = questions_answered s
  /\ speech_count (audio r.2) = speech_count (audio s)
  /\ non_user_speech_count (audio r.2) = non_user_speech_count (audio s).
Proof.
  cbv zeta. unfold start, AudioSubsystem_start.
  destruct (camera_opened inp); cbn [negb andb].
  - destruct (negb AUDIO_AVAILABLE || stream_opened inp); cbn.
    + split; [reflexivity |]. split; [| repeat split; discriminate].
      intros _. do 4 (split; [reflexivity |]). split.
      * intros [-> | ->]; cbn; apply with_memory_same.
      * intros read ->. cbn. repeat split.
    + repeat split; discriminate.
  - cbn. repeat split; discriminate.
Qed.

Lemma start_outcomes_example :
  let inp := {| camera_opened := true;
                stored_voiceprint := None;
                random_voiceprint := unit_voiceprint;
                stream_opened := false;
                memory_file := FailsInChunks interrupted_document;
                t_load := 2000 # 1;
                t_load_at := fun _ => 2000 # 1;
                t_start := 2000 # 1 |} in
  let r := start default_config false unit new_assistant inp in
  r.1 = true
  /\ is_running r.2 = true
  /\ total_interactions (memory (visual r.2)) = 7
  /\ map chunk_type (memory_chunks (memory (visual r.2))) = ["answer"].
Proof.
  intros inp r.
  destruct (start_outcomes default_config false unit new_assistant inp)
    as (Hres & Hok & _).
  fold r in Hres, Hok.
  assert (Htrue : r.1 = true) by (rewrite Hres; reflexivity).
  destruct (Hok Htrue) as (Hrun & _ & _ & _ & _ & Hfail).
  destruct (Hfail interrupted_document eq_refl) as (_ & _ & Hint & Hchunks & _).
  split; [exact Htrue |]. split; [exact Hrun |].
  split; [rewrite Hint; reflexivity |].
  rewrite Hchunks. reflexivity.
Defined.

(** X27.  What [stop] saves, a later [start] brings back: when the memory
    file holds the document written at [stop], the camera opens and the
    audio starts, the new assistant runs with the buffer, the summaries, the
    session start and the interaction count of the old one.  The summary
    schedule and the count of answered questions are not carried over: they
    are those of the new assistant. *)
Theorem restart_restores_memory (cfg : config) (AUDIO_AVAILABLE : bool)
    (strftime : Q -> string) (Frame : Type)
    (s fresh : Assistant Frame) (inp : StartInputs) :
  within_capacity cfg (memory (visual s)) -> stamped (memory (visual s)) ->
  camera_opened inp = true ->
  AUDIO_AVAILABLE = false \/ stream_opened inp = true ->
  memory_file inp = Parsed (stop strftime Frame s).1 ->
  let r := start cfg AUDIO_AVAILABLE Frame fresh inp in
  let m := memory (visual s) in
  let m' := memory (visual r.2) in
  r.1 = true
  /\ is_running r.2 = true
  /\ memory_chunks m' = memory_chunks m
  /\ summaries m' = summaries m
  /\ session_start_time m' = session_start_time m
  /\ total_interactions m' = total_interactions m
  /\ last_summary_time m' = last_summary_time (memory (visual fresh))
  /\ questions_answered r.2 = questions_answered fresh
  /\ memory (visual (stop strftime Frame s).2) = m
  /\ is_running (stop strftime Frame s).2 = false
  /\ is_recording (audio (stop strftime Frame s).2) = false.
Proof.
  intros Hcap Hst Hcam Haud Hfile. cbv zeta.
  unfold start, AudioSubsystem_start. rewrite Hcam. cbn [negb].
  assert (Hstarted : negb AUDIO_AVAILABLE || stream_opened inp = true)
    by (destruct Haud as [-> | ->]; [reflexivity | apply orb_true_r]).
  rewrite Hstarted, Hfile. cbn [stop fst].
  rewrite (load_saved_store cfg strftime _ (memory (visual fresh))
             (t_load inp) (t_load_at inp) Hcap Hst).
  cbn. repeat split.
Qed.

Lemma restart_restores_memory_example :
  let s := (MultimodalAssistant_process_audio_stream default_config false
              fixed_strftime unit running_assistant
              question_step.1.1 question_step.1.2 question_step.2).2 in
  let inp := {| camera_opened := true;
                stored_voiceprint := None;
                random_voiceprint := unit_voiceprint;
                stream_opened := false;
                memory_file := Parsed (stop fixed_strftime unit s).1;
                t_load := 2000 # 1;
                t_load_at := fun _ => 2000 # 1;
                t_start := 2000 # 1 |} in
  let r := start default_config false unit
             (Assistant_init false unit true None (2000 # 1) (2000 # 1)) inp in
  length (memory_chunks (memory (visual s))) = 2%nat
  /\ memory_chunks (memory (visual r.2)) = memory_chunks (memory (visual s))
  /\ total_interactions (memory (visual r.2)) = 1
  /\ questions_answered s = 1
  /\ questions_answered r.2 = 0.
Proof.
  intros s inp r.
  assert (Hcap : within_capacity default_config (memory (visual s)))
    by (unfold within_capacity; vm_compute; lia).
  assert (Hst : stamped (memory (visual s)))
    by (split; vm_compute; repeat constructor).
  destruct (restart_restores_memory default_config false fixed_strftime unit s
              (Assistant_init false unit true None (2000 # 1) (2000 # 1)) inp
              Hcap Hst eq_refl (or_introl eq_refl) eq_refl)
    as (_ & _ & Hchunks & _ & _ & Hint & _ & Hq & _).
  fold r in Hchunks, Hint, Hq.
  split; [vm_compute; reflexivity |].
  split; [exact Hchunks |].
  split; [rewrite Hint; vm_compute; reflexivity |].
  split; [vm_compute; reflexivity |].
  rewrite Hq. reflexivity.
Defined.

(** ** The reader over a run of frames *)

Lemma mock_texts_differ (b1 b2 : Q) :
  _mock_ocr b1 <> _mock_ocr b2 ->
  Qltb (token_overlap (_mock_ocr b2) (_mock_ocr b1)) (7 # 10) = true.
Proof.
  unfold _mock_ocr.
  destruct (Qltb 150 b1), (Qltb 100 b1), (Qltb 150 b2), (Qltb 100 b2);
    intros Hne; try congruence; vm_compute; reflexivity.
Qed.

Lemma mock_text_same (b : Q) :
  Qltb (token_overlap (_mock_ocr b) (_mock_ocr b)) (7 # 10) = false.
Proof.
  unfold _mock_ocr.
  destruct (Qltb 150 b), (Qltb 100 b); vm_compute; reflexivity.
Qed.

Lemma mock_text_nonempty (b : Q) :
  exists c rest, _mock_ocr b = String c rest /\ strip (chars (_mock_ocr b)) <> [].
Proof.
  unfold _mock_ocr.
  destruct (Qltb 150 b), (Qltb 100 b);
    eexists; eexists; (split; [reflexivity | vm_compute; discriminate]).
Qed.

Lemma extract_text_effect {Frame : Type} (recognize : Frame -> string * Q)
    (o : OCRSubsystem) (frame : Frame) :
  let r := extract_text Frame recognize o frame in
  (text_changes o <= text_changes r.2
   <= text_changes o + (if or_changed r.1 then 1 else 0))%nat
  /\ (or_changed r.1 = true -> previous_text r.2 = or_text r.1)
  /\ (or_changed r.1 = false ->
      previous_text r.2 = previous_text o
      \/ (previous_text o = EmptyString /\ previous_text r.2 = or_text r.1
          /\ strip (chars (or_text r.1)) = [])).
Proof.
  unfold extract_text, _text_changed. destruct (recognize frame) as [t conf].
  destruct (previous_text o) as [| c rest] eqn:Hprev.
  - cbn. destruct (bool_decide_reflect (strip (chars t) = [])) as [Hb | Hb]; cbn.
    + split; [lia |]. split; [discriminate |]. intros _. right. auto.
    + split; [lia |]. split; [reflexivity |]. discriminate.
  - cbv zeta. destruct (Qltb _ _); cbn.
    + split; [lia |]. split; [reflexivity |]. discriminate.
    + split; [lia |]. split; [discriminate |]. intros _. left. exact Hprev.
Qed.

Lemma text_changed_retained (o : OCRSubsystem) (new_text : string) :
  previous_text o <> EmptyString ->
  _text_changed o new_text
  = (Qltb (token_overlap new_text (previous_text o)) (7 # 10),
     if Qltb (token_overlap new_text (previous_text o)) (7 # 10)
     then {| previous_text := new_text; text_changes := S (text_changes o) |}
     else o).
Proof.
  intros Hne. unfold _text_changed.
  destruct (previous_text o) as [| c rest]; [congruence | reflexivity].
Qed.

(** X28.  [text_changes] never counts more than the reader reported: over
    any run of [extract_text] calls it never decreases and grows by at most
    the number of results flagged as changed; the first text a reader
    retains is flagged but not counted, so a new reader that reports a
    change on its first frame ends one short of the number of flags. *)
Theorem text_changes_undercount (Frame : Type) (recognize : Frame -> string * Q)
    (o : OCRSubsystem) (frames : list Frame) :
  let r := extract_all recognize o frames in
  let flagged := length (List.filter or_changed r.1) in
  length r.1 = length frames
  /\ (text_changes o <= os_text_changes (OCRSubsystem_get_stats r.2)
      <= text_changes o + flagged)%nat
  /\ (forall frame,
        strip (chars (recognize frame).1) <> [] ->
        let first := extract_text Frame recognize OCRSubsystem_init frame in
        or_changed first.1 = true
        /\ text_changes first.2 = 0%nat
        /\ previous_text first.2 = (recognize frame).1).
Proof.
  cbv zeta. split; [| split].
  - revert o. induction frames as [| frame frames IH]; intros o; [reflexivity |].
    cbn [extract_all].
    destruct (extract_text Frame recognize o frame) as [result o1].
    specialize (IH o1). destruct (extract_all recognize o1 frames) as [results o2].
    cbn [fst length] in *. congruence.
  - unfold OCRSubsystem_get_stats. cbn [os_text_changes].
    revert o. induction frames as [| frame frames IH]; intros o.
    + simpl. lia.
    + cbn [extract_all].
      pose proof (extract_text_effect recognize o frame) as (He & _).
      destruct (extract_text Frame recognize o frame) as [result o1].
      specialize (IH o1). destruct (extract_all recognize o1 frames) as [results o2].
      cbn [fst snd List.filter] in *.
      destruct (or_changed result); cbn [length]; lia.
  - intros frame Hne. unfold extract_text, _text_changed.
    destruct (recognize frame) as [t conf]. cbn in *.
    destruct (bool_decide_reflect (strip (chars t) = [])) as [Hb | Hb];
      [contradiction | auto].
Qed.

(** X29.  Without the recogniser the reader sees one of three fixed texts,
    chosen by the brightness of the frame, with confidence 0.95.  Starting
    from a new reader, or from one that has retained one of these texts, a
    frame is flagged as changed exactly when its text differs from the
    retained one, and afterwards the retained text is always the text of
    that frame. *)
Theorem mock_reader_changes (o : OCRSubsystem) (brightness : Q) :
  previous_text o = EmptyString \/ (exists b0, previous_text o = _mock_ocr b0) ->
  let r := extract_text Q mock_recognize o brightness in
  (or_changed r.1 = true <-> previous_text o <> _mock_ocr brightness)
  /\ previous_text r.2 = _mock_ocr brightness
  /\ or_text r.1 = _mock_ocr brightness
  /\ or_confidence r.1 = 95 # 100
  /\ text_changes r.2
     = (if or_changed r.1 && negb (bool_decide (previous_text o = EmptyString))
        then S (text_changes o) else text_changes o).
Proof.
  intros Hprev. cbv zeta. unfold extract_text, mock_recognize.
  destruct (mock_text_nonempty brightness) as (c & rest & Hc & Hs).
  destruct Hprev as [He | [b0 Hb0]].
  - unfold _text_changed. rewrite He. cbn.
    destruct (bool_decide_reflect (strip (chars (_mock_ocr brightness)) = []))
      as [Hb | Hb]; [contradiction |]. cbn.
    repeat split; try reflexivity.
    intros _. rewrite Hc. discriminate.
  - destruct (mock_text_nonempty b0) as (c0 & rest0 & Hc0 & _).
    assert (Hne0 : previous_text o <> EmptyString)
      by (rewrite Hb0, Hc0; discriminate).
    rewrite (text_changed_retained o _ Hne0).
    rewrite (bool_decide_eq_false_2 _ Hne0), Hb0. cbn [negb].
    destruct (decide (_mock_ocr b0 = _mock_ocr brightness)) as [Heq | Hne].
    + rewrite Heq, mock_text_same. cbn. rewrite Hb0.
      repeat split; try reflexivity; try discriminate; congruence.
    + rewrite (mock_texts_differ _ _ Hne). cbn.
      repeat split; try reflexivity. intros _. exact Hne.
Qed.

Lemma mock_reader_changes_example :
  let o := (extract_text Q mock_recognize OCRSubsystem_init (200 # 1)).2 in
  or_changed (extract_text Q mock_recognize o (180 # 1)).1 = false
  /\ or_changed (extract_text Q mock_recognize o (120 # 1)).1 = true.
Proof.
  intros o.
  assert (Hprev : previous_text o = EmptyString
                  \/ (exists b0, previous_text o = _mock_ocr b0))
    by (right; exists (200 # 1); reflexivity).
  split.
  - destruct (mock_reader_changes o (180 # 1) Hprev) as ([_ Hyes] & _).
    destruct (or_changed (extract_text Q mock_recognize o (180 # 1)).1) eqn:E;
      [| reflexivity].
    vm_compute in E. discriminate.
  - apply (mock_reader_changes o (120 # 1) Hprev). vm_compute. discriminate.
Defined.
